(** * ParseFlow: mail ingestion, sender routing, classification, extraction

    A shallow embedding of the TypeScript services of ParseFlow:

    - [RuleMatcher]  : [checkWhitelistStatus] (classification-service)
    - [Classifier]   : [classifyByKeywords], [classifyEmail]
    - [KeywordSpec]  : the keyword count as the specification words it
    - [Pipeline]     : [processEmailClassification], the per-message loop of
                       [processEmails] (email-service), [addEmail] (data-store)
    - [Extractor]    : [parseAIParsingResponse], [parseEmailWithAI]
                       (ai-parsing-service)
    - [JobQueue]     : [createJob], [updateJob], [processJob], [cleanupJobs]
                       and the jobs route handler
    - [StopFlag]     : the stop route and the loop of the parse route
    - [Archiver]     : [escapeHtml], [extractCustomerName],
                       [saveEmailAttachments], [saveEmailWithFiles]
                       (email-file-service)
    - [Store]        : [updateEmail], [deleteEmail], [bulkUpdateEmails],
                       [bulkDeleteEmails], [addRule], [deleteRule], [addLog]
                       (data-store)
    - [Reclassify]   : the handler of the reclassify route
    - [Cleanup]      : [performArchiveCleanup] (cleanup-service)
    - [AiClassifier] : [parseAIResponse], [classifyWithAI]
                       (classification-service)
    - [JobTable]     : the invariant of the job table over whole runs

    Conventions.  JavaScript strings are [string]s and the case and
    white-space functions act on the ASCII range.  JavaScript numbers that
    carry confidences are exact rationals ([Q]); [Binary64] evaluates the
    same formulas in double precision.  A promise that may reject is a
    [Result]; [try]/[catch] is [try_catch].  What lies outside the program
    (the IMAP server, the AI providers, [JSON.parse], the file system) enters
    as a parameter that gives the outcome of the call.  Writes to the log
    ([addLog] pushes on an in-memory array) and to the status service never
    throw and are not part of the state. *)

From Stdlib Require Import String Ascii List Bool Arith ZArith QArith Lia Lqa.
From Stdlib Require Import DecimalString Qminmax Floats Uint63.
From Stdlib Require Import Sorted Permutation.
From stdpp Require Import base gmap strings.
Import ListNotations.

Local Open Scope string_scope.
Local Open Scope list_scope.

Set Warnings "-register-all,-inexact-float".

(** ** Promises that may reject *)

Inductive Result (A : Type) : Type :=
| Ok (a : A)
| Throw (message : string).
Arguments Ok {A} a.
Arguments Throw {A} message.

Definition bindR {A B : Type} (r : Result A) (k : A -> Result B) : Result B :=
  match r with
  | Ok a => k a
  | Throw m => Throw m
  end.

(** [try { body } catch (error) { handler(error.message) }] *)
Definition try_catch {A : Type} (body : Result A) (handler : string -> Result A)
  : Result A :=
  match body with
  | Ok a => Ok a
  | Throw m => handler m
  end.

Notation "'let*' x ':=' c 'in' k" := (bindR c (fun x => k))
  (at level 10, x name, c at level 100, k at level 200).

Definition resolves {A : Type} (r : Result A) : Prop := exists a, r = Ok a.

(** ** JavaScript string primitives *)

Module JS.

Definition lower_ascii (c : ascii) : ascii :=
  let n := nat_of_ascii c in
  if (65 <=? n)%nat && (n <=? 90)%nat then ascii_of_nat (n + 32) else c.

(** [String.prototype.toLowerCase] *)
Fixpoint toLowerCase (s : string) : string :=
  match s with
  | EmptyString => EmptyString
  | String c s' => String (lower_ascii c) (toLowerCase s')
  end.

(** [String.prototype.startsWith] *)
Fixpoint startsWith (s sub : string) : bool :=
  match sub, s with
  | EmptyString, _ => true
  | String _ _, EmptyString => false
  | String c sub', String d s' => Ascii.eqb c d && startsWith s' sub'
  end.

(** [String.prototype.includes] *)
Fixpoint includes (s sub : string) : bool :=
  startsWith s sub ||
  match s with
  | EmptyString => false
  | String _ s' => includes s' sub
  end.

Definition is_space (c : ascii) : bool :=
  let n := nat_of_ascii c in
  (n =? 32)%nat || ((9 <=? n)%nat && (n <=? 13)%nat).

Fixpoint trimStart (s : string) : string :=
  match s with
  | EmptyString => EmptyString
  | String c s' => if is_space c then trimStart s' else s
  end.

Fixpoint all_space (s : string) : bool :=
  match s with
  | EmptyString => true
  | String c s' => is_space c && all_space s'
  end.

Fixpoint trimEnd (s : string) : string :=
  match s with
  | EmptyString => EmptyString
  | String c s' => if all_space s then EmptyString else String c (trimEnd s')
  end.

(** [String.prototype.trim] *)
Definition trim (s : string) : string := trimEnd (trimStart s).

(** [s.split(sep)] for a one-character separator *)
Fixpoint split (sep : ascii) (s : string) : list string :=
  match s with
  | EmptyString => [EmptyString]
  | String c s' =>
      if Ascii.eqb c sep then EmptyString :: split sep s'
      else match split sep s' with
           | [] => [String c EmptyString]
           | w :: ws => String c w :: ws
           end
  end.

(** [s.substring(0, n)] *)
Fixpoint take (n : nat) (s : string) : string :=
  match n, s with
  | O, _ => EmptyString
  | _, EmptyString => EmptyString
  | S n', String c s' => String c (take n' s')
  end.

(** [parts.join(sep)] *)
Fixpoint join (sep : string) (l : list string) : string :=
  match l with
  | [] => EmptyString
  | [x] => x
  | x :: rest => x +:+ sep +:+ join sep rest
  end.

(** Template-literal rendering of a non-negative integer *)
Definition showNat (n : nat) : string := NilZero.string_of_uint (Nat.to_uint n).

(** Truthiness of a string: the empty string is falsy *)
Definition truthy (s : string) : bool :=
  match s with EmptyString => false | _ => true end.

(** [a || b] on an optional string *)
Definition orElse (a : option string) (b : string) : string :=
  match a with
  | Some s => if truthy s then s else b
  | None => b
  end.

(** [fromField.match(/<([^>]+)>/)]: the first [<], one or more characters
    other than [>], then [>]; the captured group. *)
Fixpoint untilGt (s : string) : option string :=
  match s with
  | EmptyString => None
  | String c s' =>
      if Ascii.eqb c ">" then Some EmptyString
      else option_map (String c) (untilGt s')
  end.

Fixpoint matchAngle (s : string) : option string :=
  match s with
  | EmptyString => None
  | String c s' =>
      if Ascii.eqb c "<" then
        match untilGt s' with
        | Some (String d g) => Some (String d g)
        | _ => matchAngle s'
        end
      else matchAngle s'
  end.

End JS.

(** ** Data model (lib/types) *)

Inductive RuleType := whitelist | blacklist.

Record Rule := {
  rule_id : string;
  rule_type : RuleType;
  pattern : string;
  description : string;
  active : bool
}.

Inductive ContentType := order | estimate | other.

Inductive Classification := cls_inbox | cls_whitelist | cls_blacklist | cls_pending | cls_unsorted.

Inductive EmailStatus := st_unprocessed | st_processing | st_processed | st_error.

Inductive JSON :=
| JNull
| JBool (b : bool)
| JNum (q : Q)
| JStr (s : string)
| JArr (items : list JSON)
| JObj (fields : list (string * JSON)).

Record Attachment := {
  filename : string;
  contentType : string;
  size : nat;
  data : option string
}.

Record ParsedInfo := {
  parsed_type : ContentType;
  parsed_data : JSON;
  parsed_confidence : Q
}.

Record Email := {
  id : string;
  subject : string;
  from : string;
  to : string;
  date : string;
  body : string;
  status : EmailStatus;
  parsed : option ParsedInfo;
  classification : Classification;
  senderEmail : option string;
  attachments : list Attachment
}.

Inductive AiProvider := google | ollama | unsupported (name : string).

Record Settings := {
  username : string;
  useAiProcessing : bool;
  aiProvider : AiProvider;
  googleApiKey : option string;
  orderKeywords : option string;
  estimateKeywords : option string;
  classificationInstructions : option string;
  _whitelistMap : option (gset string);
  _blacklistMap : option (gset string)
}.

(** ** Rule Matcher (classification-service, [checkWhitelistStatus]) *)

Module RuleMatcher.

Inductive Route := inbox | unsorted | skip.

Definition route_of (t : RuleType) : Route :=
  match t with
  | whitelist => inbox
  | blacklist => skip
  end.

(** The first loop: [rule.pattern.toLowerCase() === senderEmail]. *)
Fixpoint exactScan (sender : string) (rules : list Rule) : option Route :=
  match rules with
  | [] => None
  | rule :: rest =>
      if String.eqb (JS.toLowerCase (pattern rule)) sender
      then Some (route_of (rule_type rule))
      else exactScan sender rest
  end.

(** [senderEmail.includes(p) || p.includes(senderEmail)] *)
Definition containsEither (sender : string) (rule : Rule) : bool :=
  JS.includes sender (JS.toLowerCase (pattern rule))
  || JS.includes (JS.toLowerCase (pattern rule)) sender.

(** The second loop. *)
Fixpoint patternScan (sender : string) (rules : list Rule) : option Route :=
  match rules with
  | [] => None
  | rule :: rest =>
      if containsEither sender rule
      then Some (route_of (rule_type rule))
      else patternScan sender rest
  end.

Definition linearScan (sender : string) (rules : list Rule) : Route :=
  match exactScan sender rules with
  | Some r => r
  | None =>
      match patternScan sender rules with
      | Some r => r
      | None => unsorted
      end
  end.

(** [email.senderEmail?.toLowerCase() || ''] *)
Definition normalizedSender (email : Email) : string :=
  match senderEmail email with
  | Some s => JS.toLowerCase s
  | None => EmptyString
  end.

Definition setLookup (sender : string) (whitelistMap blacklistMap : gset string)
  : Route :=
  if bool_decide (sender ∈ blacklistMap) then skip
  else if bool_decide (sender ∈ whitelistMap) then inbox
  else unsorted.

(** The body of the [try] block.  [getRules] is the outcome of the
    dynamic import of the data store followed by [getRules()]. *)
Definition checkWhitelistStatus_try (getRules : Result (list Rule))
    (email : Email) (settings : Settings) : Result Route :=
  let sender := normalizedSender email in
  match _whitelistMap settings, _blacklistMap settings with
  | Some whitelistMap, Some blacklistMap =>
      Ok (setLookup sender whitelistMap blacklistMap)
  | _, _ =>
      let* rules := getRules in
      Ok (linearScan sender rules)
  end.

Definition checkWhitelistStatus (getRules : Result (list Rule))
    (email : Email) (settings : Settings) : Result Route :=
  try_catch (checkWhitelistStatus_try getRules email settings)
            (fun _ => Ok unsorted).

(** The rule maps that [processJob] attaches to the settings of an
    optimized job (job-queue). *)
Definition patternSet (t : RuleType) (rules : list Rule) : gset string :=
  list_to_set
    (List.map (fun rule => JS.toLowerCase (pattern rule))
         (List.filter (fun rule =>
                    match rule_type rule, t with
                    | whitelist, whitelist | blacklist, blacklist => active rule
                    | _, _ => false
                    end) rules)).

Definition withSettingsMaps (wl bl : option (gset string)) (s : Settings)
  : Settings :=
  {| username := username s;
     useAiProcessing := useAiProcessing s;
     aiProvider := aiProvider s;
     googleApiKey := googleApiKey s;
     orderKeywords := orderKeywords s;
     estimateKeywords := estimateKeywords s;
     classificationInstructions := classificationInstructions s;
     _whitelistMap := wl;
     _blacklistMap := bl |}.

Definition optimizedSettings (rules : list Rule) (s : Settings) : Settings :=
  withSettingsMaps (Some (patternSet whitelist rules))
                   (Some (patternSet blacklist rules)) s.

(** A rule of the given type whose pattern the scan would accept. *)
Definition matchesSome (t : RuleType) (sender : string) (rules : list Rule) : Prop :=
  exists rule, In rule rules /\ rule_type rule = t /\ containsEither sender rule = true.

End RuleMatcher.

(** [a > b] on numbers *)
Definition Qgtb (a b : Q) : bool := negb (Qle_bool a b).

(** ** Sender address and bulk-transfer detection
       (email-service, email-file-service) *)

(** [extractEmailAddress] (email-service): the address between angle
    brackets, else the first blank-separated part with an at sign, else the
    whole field; lower-cased. *)
Definition extractEmailAddress (fromField : string) : string :=
  match JS.matchAngle fromField with
  | Some m => JS.toLowerCase m
  | None =>
      match List.find (fun part => JS.includes part "@") (JS.split " " fromField) with
      | Some emailLike => JS.toLowerCase emailLike
      | None => JS.toLowerCase fromField
      end
  end.

(** [extractEmailFromFrom] (email-file-service) has the same body. *)
Definition extractEmailFromFrom (fromField : string) : string :=
  match JS.matchAngle fromField with
  | Some m => JS.toLowerCase m
  | None =>
      match List.find (fun part => JS.includes part "@") (JS.split " " fromField) with
      | Some emailLike => JS.toLowerCase emailLike
      | None => JS.toLowerCase fromField
      end
  end.

Definition isWeTransferEmail (email : Email) : bool :=
  let sender := JS.orElse (senderEmail email) (extractEmailFromFrom (from email)) in
  JS.includes sender "wetransfer.com"
  || JS.includes sender "we.tl"
  || JS.includes (JS.toLowerCase (from email)) "wetransfer".

(** ** Classifier (classification-service) *)

Record ClassificationResult := {
  cr_type : ContentType;
  cr_confidence : Q;
  cr_reasoning : string
}.

Module Classifier.

(** [list?.split(',').map(k => k.trim().toLowerCase()) || []] *)
Definition keywordList (setting : option string) : list string :=
  match setting with
  | Some s => List.map (fun k => JS.toLowerCase (JS.trim k)) (JS.split "," s)
  | None => []
  end.

(** [keyword && content.includes(keyword)] *)
Definition hit (content keyword : string) : bool :=
  JS.truthy keyword && JS.includes content keyword.

Fixpoint score (content : string) (keywords : list string) : nat :=
  match keywords with
  | [] => 0
  | keyword :: rest =>
      if hit content keyword then S (score content rest) else score content rest
  end.

Definition content_of (email : Email) : string :=
  JS.toLowerCase (subject email +:+ " " +:+ body email).

(** [Math.min(0.8, 0.3 + (score * 0.1))] *)
Definition keywordConfidence (n : nat) : Q :=
  Qmin (8 # 10) ((3 # 10) + inject_Z (Z.of_nat n) * (1 # 10)).

Definition classifyByKeywords (email : Email) (settings : Settings)
  : ClassificationResult :=
  let content := content_of email in
  let orderKw := keywordList (orderKeywords settings) in
  let estimateKw := keywordList (estimateKeywords settings) in
  let orderScore := score content orderKw in
  let estimateScore := score content estimateKw in
  if (estimateScore <? orderScore)%nat && (0 <? orderScore)%nat then
    {| cr_type := order;
       cr_confidence := keywordConfidence orderScore;
       cr_reasoning :=
         "Found " +:+ JS.showNat orderScore +:+ " order keywords: "
         +:+ JS.join ", " (List.filter (JS.includes content) orderKw) |}
  else if (orderScore <? estimateScore)%nat && (0 <? estimateScore)%nat then
    {| cr_type := estimate;
       cr_confidence := keywordConfidence estimateScore;
       cr_reasoning :=
         "Found " +:+ JS.showNat estimateScore +:+ " estimate keywords: "
         +:+ JS.join ", " (List.filter (JS.includes content) estimateKw) |}
  else
    {| cr_type := other;
       cr_confidence := 5 # 10;
       cr_reasoning := "No clear keyword matches found" |}.

Section WithProvider.

(** [classifyWithAI] wraps the provider call and the parsing of its
    reply in a [try]/[catch] that turns every failure into
    [{type: 'other', confidence: 0}], so it always yields a result; the
    provider's answer is outside the program and is a parameter here. *)
Variable classifyWithAI : Email -> Settings -> ClassificationResult.

Definition classifyEmail_try (email : Email) (settings : Settings)
  : Result ClassificationResult :=
  if isWeTransferEmail email then
    Ok {| cr_type := order;
          cr_confidence := 95 # 100;
          cr_reasoning := "WeTransfer email automatically classified as order" |}
  else
    let keywordResult := classifyByKeywords email settings in
    if Qgtb (cr_confidence keywordResult) (7 # 10) then Ok keywordResult
    else if useAiProcessing settings then
      let aiResult := classifyWithAI email settings in
      if Qgtb (cr_confidence aiResult) (cr_confidence keywordResult)
      then Ok aiResult
      else Ok keywordResult
    else Ok keywordResult.

Definition classifyEmail (email : Email) (settings : Settings)
  : Result ClassificationResult :=
  try_catch (classifyEmail_try email settings)
    (fun _ => Ok {| cr_type := other;
                    cr_confidence := 0;
                    cr_reasoning := "Classification failed due to error" |}).

End WithProvider.

End Classifier.

(** ** The keyword count, in the words of the specification

    The keywords of a setting are the entries of its comma-separated list
    without the blanks around them, empty entries left out; a keyword is
    counted when it occurs somewhere in the text, the case of letters
    being ignored.  [ClassifierFacts.score_is_hitCount] compares this count
    with the score that [Classifier.classifyByKeywords] computes. *)

Module KeywordSpec.

Definition sameIgnoringCase (c d : ascii) : bool :=
  Ascii.eqb (JS.lower_ascii c) (JS.lower_ascii d).

Fixpoint startsWithIgnoringCase (text word : string) : bool :=
  match word, text with
  | EmptyString, _ => true
  | String _ _, EmptyString => false
  | String c word', String d text' =>
      sameIgnoringCase c d && startsWithIgnoringCase text' word'
  end.

Fixpoint occursIgnoringCase (text word : string) : bool :=
  startsWithIgnoringCase text word ||
  match text with
  | EmptyString => false
  | String _ text' => occursIgnoringCase text' word
  end.

Definition keywords (setting : option string) : list string :=
  match setting with
  | Some s => List.filter JS.truthy (List.map JS.trim (JS.split "," s))
  | None => []
  end.

Definition hitCount (setting : option string) (text : string) : nat :=
  length (List.filter (occursIgnoringCase text) (keywords setting)).

End KeywordSpec.

(** ** Data store (lib/data-store): the e-mail table *)

Record DataStore := {
  emails : list Email;
  idCounter : nat
}.

Definition withId (newId : string) (e : Email) : Email :=
  {| id := newId; subject := subject e; from := from e; to := to e;
     date := date e; body := body e; status := status e; parsed := parsed e;
     classification := classification e; senderEmail := senderEmail e;
     attachments := attachments e |}.

(** [addEmail]: the new record gets a generated id and is pushed on the
    table; a failure to write the table to disk is swallowed.  The generated
    id is represented by its counter component. *)
Definition addEmail (email : Email) (store : DataStore) : Email * DataStore :=
  let newEmail := withId (JS.showNat (S (idCounter store))) email in
  (newEmail,
   {| emails := emails store ++ [newEmail]; idCounter := S (idCounter store) |}).

(** ** Ingestion pipeline (email-service, classification-service) *)

Module Pipeline.

Import RuleMatcher.

(** What [simpleParser] returns, reduced to the fields that are read. *)
Record ParsedMail := {
  pm_from : option string;
  pm_subject : option string;
  pm_to : option string;
  pm_date : option string;
  pm_text : option string;
  pm_html : option string;
  pm_attachments : list Attachment
}.

(** One message of the fetch stream: its UID and the outcome of
    [simpleParser(message.source)]. *)
Record FetchedMessage := {
  uid : nat;
  simpleParser : Result ParsedMail
}.

Record ProcessEmailsResult := {
  processedCount : nat;
  errors : list string
}.

Definition classification_of (r : Route) : Classification :=
  match r with
  | inbox => cls_inbox
  | unsorted => cls_unsorted
  | skip => cls_blacklist
  end.

Section WithEnvironment.

Variable classifyWithAI : Email -> Settings -> ClassificationResult.
(** Outcome of loading the data store and calling [getRules()]. *)
Variable getRules : Result (list Rule).
(** [new Date().toISOString()] *)
Variable now : string.

Definition processEmailClassification_try (email : Email) (settings : Settings)
  : Result (option Email) :=
  let* route := checkWhitelistStatus getRules email settings in
  match route with
  | skip => Ok None
  | _ =>
      let* classificationResult :=
        Classifier.classifyEmail classifyWithAI email settings in
      Ok (Some
        {| id := id email; subject := subject email; from := from email;
           to := to email; date := date email; body := body email;
           status := st_processed;
           parsed := Some {| parsed_type := cr_type classificationResult;
                             parsed_data := JNull;
                             parsed_confidence := cr_confidence classificationResult |};
           classification := classification_of route;
           senderEmail := senderEmail email;
           attachments := attachments email |})
  end.

Definition processEmailClassification (email : Email) (settings : Settings)
  : Result (option Email) :=
  try_catch (processEmailClassification_try email settings)
    (fun _ => Ok (Some
        {| id := id email; subject := subject email; from := from email;
           to := to email; date := date email; body := body email;
           status := st_error;
           parsed := parsed email;
           classification := cls_unsorted;
           senderEmail := senderEmail email;
           attachments := attachments email |})).

(** The record built from the parsed message, before classification. *)
Definition emailOfParsed (settings : Settings) (p : ParsedMail) : Email :=
  let fromText := JS.orElse (pm_from p) "Unknown Sender" in
  {| id := "temp";
     subject := JS.orElse (pm_subject p) "No Subject";
     from := fromText;
     to := JS.orElse (pm_to p) (username settings);
     date := JS.orElse (pm_date p) now;
     body := JS.orElse (pm_text p) (JS.orElse (pm_html p) "No content");
     status := st_processed;
     parsed := None;
     classification := cls_pending;
     senderEmail := Some (extractEmailAddress fromText);
     attachments := pm_attachments p |}.

Definition asWeTransferOrder (email : Email) : Email :=
  {| id := EmptyString; subject := subject email; from := from email;
     to := to email; date := date email; body := body email;
     status := status email;
     parsed := Some {| parsed_type := order;
                       parsed_data := JObj [];
                       parsed_confidence := 9 # 10 |};
     classification := cls_inbox;
     senderEmail := senderEmail email;
     attachments := attachments email |}.

(** The part of the per-message [try] block that can throw: parsing,
    the bulk-transfer test and the classification.  [None] is a
    blacklisted message. *)
Definition classifyMessage (settings : Settings) (message : FetchedMessage)
  : Result (option Email) :=
  let* p := simpleParser message in
  let tempEmail := emailOfParsed settings p in
  if isWeTransferEmail tempEmail
  then Ok (Some (asWeTransferOrder tempEmail))
  else processEmailClassification tempEmail settings.

Record LoopState := {
  store : DataStore;
  count : nat;            (* processedCount *)
  errs : list string;     (* errors *)
  messageCount : nat
}.

Definition errorMsg (n : nat) (message : FetchedMessage) (m : string) : string :=
  "Failed to process message " +:+ JS.showNat n +:+ " (UID: "
  +:+ JS.showNat (uid message) +:+ "): " +:+ m.

(** One iteration of [for await (let message of messages)]. *)
Definition iteration (settings : Settings) (st : LoopState)
    (message : FetchedMessage) : LoopState :=
  let n := S (messageCount st) in
  match classifyMessage settings message with
  | Ok (Some classifiedEmail) =>
      let '(_, store') := addEmail classifiedEmail (store st) in
      {| store := store'; count := S (count st); errs := errs st;
         messageCount := n |}
  | Ok None =>
      {| store := store st; count := count st; errs := errs st;
         messageCount := n |}
  | Throw m =>
      {| store := store st; count := count st;
         errs := errs st ++ [errorMsg n message m];
         messageCount := n |}
  end.

Definition runLoop (settings : Settings) (messages : list FetchedMessage)
    (st : LoopState) : LoopState :=
  fold_left (iteration settings) messages st.

Definition userFriendlyMessage (errorMessage : string) : string :=
  if JS.includes errorMessage "ENOTFOUND" || JS.includes errorMessage "getaddrinfo"
  then "Cannot connect to IMAP server. Please check the server address and your internet connection."
  else if JS.includes errorMessage "ECONNREFUSED"
  then "Connection refused by IMAP server. Please check the port number and SSL settings."
  else if JS.includes errorMessage "Invalid credentials"
          || JS.includes errorMessage "authentication"
  then "Authentication failed. Please check your username and password/app password."
  else if JS.includes errorMessage "ETIMEDOUT" || JS.includes errorMessage "timeout"
  then "Connection timed out. Please check your network connection and server settings."
  else errorMessage.

(** [processEmails].  [fetched] is the outcome of connecting, locking
    the inbox, searching the unseen messages and fetching them; a failure
    there is rethrown with the user-facing text. *)
Definition processEmails (settings : Settings)
    (fetched : Result (list FetchedMessage)) (db : DataStore)
  : Result ProcessEmailsResult * DataStore :=
  match fetched with
  | Throw m => (Throw (userFriendlyMessage m), db)
  | Ok messages =>
      let final :=
        runLoop settings messages
          {| store := db; count := 0; errs := []; messageCount := 0 |} in
      (Ok {| processedCount := count final; errors := errs final |},
       store final)
  end.

(** *** Bookkeeping used to state what a pass returns *)

Definition isStored (settings : Settings) (message : FetchedMessage) : bool :=
  match classifyMessage settings message with
  | Ok (Some _) => true
  | _ => false
  end.

Definition isSkipped (settings : Settings) (message : FetchedMessage) : bool :=
  match classifyMessage settings message with
  | Ok None => true
  | _ => false
  end.

Definition throws (settings : Settings) (message : FetchedMessage) : bool :=
  match classifyMessage settings message with
  | Throw _ => true
  | _ => false
  end.

(** The entries pushed on [errors] by the messages after the [n]-th. *)
Fixpoint errorsFrom (settings : Settings) (n : nat) (messages : list FetchedMessage)
  : list string :=
  match messages with
  | [] => []
  | message :: rest =>
      match classifyMessage settings message with
      | Throw m => errorMsg (S n) message m :: errorsFrom settings (S n) rest
      | Ok _ => errorsFrom settings (S n) rest
      end
  end.

(** Routed to the store by the rule matcher. *)
Definition routedToStore (settings : Settings) (email : Email) : Prop :=
  checkWhitelistStatus getRules email settings = Ok inbox
  \/ checkWhitelistStatus getRules email settings = Ok unsorted.

(** What the pass may store: bulk-transfer notices, and mail the rule
    matcher sent to the inbox or to the unsorted list. *)
Definition storable (settings : Settings) (e : Email) : Prop :=
  isWeTransferEmail e = true \/ routedToStore settings e.

End WithEnvironment.

End Pipeline.

(** ** Structured extractor (ai-parsing-service) *)

Module Extractor.

Inductive TargetType := for_order | for_estimate.

Record Item := {
  item_description : string;
  quantity : nat
}.

(** The fields of [OrderData] and [EstimateData] that a fallback record
    sets; every other field is [undefined] there. *)
Record OrderData := {
  o_customerName : option string;
  o_customerEmail : option string;
  o_items : list Item;
  rushOrder : bool;
  specialInstructions : string
}.

Record EstimateData := {
  e_customerName : option string;
  e_customerEmail : option string;
  projectDescription : string;
  e_items : list Item;
  notes : string
}.

Inductive ExtractedData :=
| FromReply (parsed : JSON)
| FallbackOrder (d : OrderData)
| FallbackEstimate (d : EstimateData).

Record EmailFileData := {
  folderPath : string;
  htmlFile : string;
  jsonFile : string;
  attachmentFiles : list string;
  parsedJsonFile : option string
}.

Record ParsedEmailData := {
  type : TargetType;
  data : ExtractedData;
  confidence : Q;
  reasoning : string;
  attachmentsSaved : list string;
  emailFiles : option EmailFileData
}.

(** *** Values of a parsed reply *)

Definition truthyJ (j : JSON) : bool :=
  match j with
  | JNull => false
  | JBool b => b
  | JNum q => negb (Qeq_bool q 0)
  | JStr s => JS.truthy s
  | JArr _ | JObj _ => true
  end.

Fixpoint lookupKey (name : string) (fields : list (string * JSON)) : option JSON :=
  match fields with
  | [] => None
  | (k, v) :: rest => if String.eqb k name then Some v else lookupKey name rest
  end.

(** [value[name]] for the property names read by the extractor: a
    [TypeError] on [null], [undefined] ([None]) on a value without that
    property. *)
Definition getField (value : JSON) (name : string) : Result (option JSON) :=
  match value with
  | JNull => Throw ("Cannot read properties of null (reading '" +:+ name +:+ "')")
  | JObj fields => Ok (lookupKey name fields)
  | _ => Ok None
  end.

Definition truthyField (value : option JSON) : bool :=
  match value with
  | Some j => truthyJ j
  | None => false
  end.

(** [clean.match(/\{[\s\S]*\}/)]: from the first opening brace through
    the last closing brace after it. *)
Fixpoint fromFirstBrace (s : string) : option string :=
  match s with
  | EmptyString => None
  | String c s' => if Ascii.eqb c "{" then Some s else fromFirstBrace s'
  end.

Fixpoint throughLastBrace (s : string) : option string :=
  match s with
  | EmptyString => None
  | String c s' =>
      match throughLastBrace s' with
      | Some t => Some (String c t)
      | None => if Ascii.eqb c "}" then Some (String c EmptyString) else None
      end
  end.

Definition matchBraces (s : string) : option string :=
  match fromFirstBrace s with
  | Some t => throughLastBrace t
  | None => None
  end.

Definition requiredFields (expectedType : TargetType) : list string :=
  match expectedType with
  | for_order => ["customerName"; "items"]
  | for_estimate => ["customerName"; "items"; "projectDescription"]
  end.

(** [requiredFields.filter(field => parsed[field] && parsed[field] !== null)]
    on a [parsed] that is an object. *)
Definition presentFields (fields : list (string * JSON)) (expectedType : TargetType)
  : list string :=
  List.filter (fun field => truthyField (lookupKey field fields))
              (requiredFields expectedType).

(** [Math.min(0.95, 0.3 + (present / required) * 0.6)] *)
Definition completeness (present required : nat) : Q :=
  Qmin (95 # 100)
       ((3 # 10) + (inject_Z (Z.of_nat present) / inject_Z (Z.of_nat required)) * (6 # 10)).

(** [Math.max(0.1, Math.min(0.95, confidence))] after the bonus *)
Definition replyConfidence (present required : nat) (bonus : bool) : Q :=
  let c := completeness present required in
  let c := if bonus then (c + (1 # 10))%Q else c in
  Qmax (1 # 10) (Qmin (95 # 100) c).

(** [parsed.items.length > 0 && parsed.items[0].description] *)
Definition firstItemDescribed (items : list JSON) : Result bool :=
  match items with
  | [] => Ok false
  | first :: _ =>
      let* d := getField first "description" in
      Ok (truthyField d)
  end.

Record ReplyData := {
  r_type : TargetType;
  r_data : JSON;
  r_confidence : Q;
  r_reasoning : string
}.

Section WithJSON.

(** [JSON.parse] *)
Variable JSON_parse : string -> Result JSON.

Definition parseAIParsingResponse_try (response : string)
    (expectedType : TargetType) : Result ReplyData :=
  let trimmed := JS.trim response in
  let cleanResponse :=
    match matchBraces trimmed with
    | Some m => m
    | None => trimmed
    end in
  let* parsed := JSON_parse cleanResponse in
  let* itemsField := getField parsed "items" in
  match parsed, itemsField with
  | JObj fields, Some (JArr items) =>
      let required := requiredFields expectedType in
      let present := presentFields fields expectedType in
      let* bonus := firstItemDescribed items in
      Ok {| r_type := expectedType;
            r_data := parsed;
            r_confidence :=
              replyConfidence (length present) (length required) bonus;
            r_reasoning :=
              "Successfully parsed " +:+ JS.showNat (length items)
              +:+ " items with " +:+ JS.showNat (length present)
              +:+ "/" +:+ JS.showNat (length required)
              +:+ " required fields" |}
  | _, _ => Throw "Invalid items array in parsed data"
  end.

Definition parseAIParsingResponse (response : string)
    (expectedType : TargetType) : Result ReplyData :=
  try_catch (parseAIParsingResponse_try response expectedType)
    (fun m => Throw ("Failed to parse AI response: " +:+ m)).

End WithJSON.

(** The required fields that a parsed reply populates. *)
Definition populatedFields (d : ReplyData) : list string :=
  match r_data d with
  | JObj fields => presentFields fields (r_type d)
  | _ => []
  end.

(** *** Fallback records *)

Definition dquote : ascii := "034"%char.

Fixpoint spanName (s : string) : string * string :=
  match s with
  | EmptyString => (EmptyString, EmptyString)
  | String c s' =>
      if Ascii.eqb c dquote || Ascii.eqb c "<" then (EmptyString, s)
      else let '(name, rest) := spanName s' in (String c name, rest)
  end.

Definition dropQuote (s : string) : string :=
  match s with
  | String c s' => if Ascii.eqb c dquote then s' else s
  | EmptyString => s
  end.

(** The first pattern of [extractCustomerName]: at the start an optional
    double quote, one or more characters other than a double quote and
    [<] (the captured group), an optional double quote, white space, [<]. *)
Definition matchDisplayName (fromField : string) : option string :=
  let '(name, rest) := spanName (dropQuote fromField) in
  match name, JS.trimStart (dropQuote rest) with
  | String _ _, String c _ => if Ascii.eqb c "<" then Some name else None
  | _, _ => None
  end.

Fixpoint spanNoAt (s : string) : option string :=
  match s with
  | EmptyString => None
  | String c s' =>
      if Ascii.eqb c "@" then Some EmptyString
      else option_map (String c) (spanNoAt s')
  end.

(** [fromField.match(/([^@]+)@/)], the captured group *)
Fixpoint matchLocalPart (s : string) : option string :=
  match s with
  | EmptyString => None
  | String c s' => if Ascii.eqb c "@" then matchLocalPart s' else spanNoAt s
  end.

(** [.replace(/[._]/g, ' ')] *)
Fixpoint dotsToSpaces (s : string) : string :=
  match s with
  | EmptyString => EmptyString
  | String c s' =>
      String (if Ascii.eqb c "." || Ascii.eqb c "_" then " "%char else c)
             (dotsToSpaces s')
  end.

Definition extractCustomerName (fromField : string) : option string :=
  match matchDisplayName fromField with
  | Some name => Some (JS.trim name)
  | None =>
      match matchLocalPart fromField with
      | Some localPart => Some (JS.trim (dotsToSpaces localPart))
      | None => None
      end
  end.

(** [value || undefined] *)
Definition orUndefined (value : option string) : option string :=
  match value with
  | Some s => if JS.truthy s then Some s else None
  | None => None
  end.

Definition createFallbackOrderData (email : Email) : OrderData :=
  {| o_customerName := orUndefined (extractCustomerName (from email));
     o_customerEmail := orUndefined (senderEmail email);
     o_items := [ {| item_description := "Order from email: " +:+ subject email;
                     quantity := 1 |} ];
     rushOrder := JS.includes (JS.toLowerCase (subject email)) "rush";
     specialInstructions := JS.take 500 (body email) |}.

Definition createFallbackEstimateData (email : Email) : EstimateData :=
  {| e_customerName := orUndefined (extractCustomerName (from email));
     e_customerEmail := orUndefined (senderEmail email);
     projectDescription := subject email;
     e_items := [ {| item_description := "Estimate request from email: " +:+ subject email;
                     quantity := 1 |} ];
     notes := JS.take 500 (body email) |}.

(** [isWeTransferEmail(email) ? 'order'
      : (email.parsed?.type === 'order' ? 'order' : 'estimate')] *)
Definition resolveType (email : Email) : TargetType :=
  if isWeTransferEmail email then for_order
  else match parsed email with
       | Some {| parsed_type := order |} => for_order
       | _ => for_estimate
       end.

Definition fallbackData (t : TargetType) (email : Email) : ExtractedData :=
  match t with
  | for_order => FallbackOrder (createFallbackOrderData email)
  | for_estimate => FallbackEstimate (createFallbackEstimateData email)
  end.

Definition fallbackRecord (email : Email) (errorMessage : string) : ParsedEmailData :=
  let fallbackType := resolveType email in
  {| type := fallbackType;
     data := fallbackData fallbackType email;
     confidence := 1 # 10;
     reasoning := "AI parsing failed: " +:+ errorMessage;
     attachmentsSaved := [];
     emailFiles := None |}.

(** ['orderNumber' in data ? data.orderNumber
      : 'estimateNumber' in data ? data.estimateNumber : undefined],
    then [|| undefined] *)
Definition folderNumber (parsed : JSON) : option JSON :=
  match parsed with
  | JObj fields =>
      let chosen :=
        match lookupKey "orderNumber" fields with
        | Some v => Some v
        | None => lookupKey "estimateNumber" fields
        end in
      match chosen with
      | Some v => if truthyJ v then Some v else None
      | None => None
      end
  | _ => None
  end.

Section WithServices.

Variable JSON_parse : string -> Result JSON.
(** [refetchEmailWithAttachments] (mailbox) *)
Variable refetchEmailWithAttachments : Email -> Settings -> Result Email.
(** The two provider endpoints, called with the prompt built from the
    e-mail and the expected type; a rejection carries the HTTP, network
    or timeout error text. *)
Variable generateGoogle : Email -> TargetType -> Result string.
Variable generateOllama : Email -> TargetType -> Result string.
(** [saveEmailWithFiles], [saveParsedDataJson] (file archiver) *)
Variable saveEmailWithFiles : Email -> Settings -> option JSON -> Result EmailFileData.
Variable saveParsedDataJson : string -> JSON -> TargetType -> Result string.

Definition callGoogleAI (email : Email) (t : TargetType) (settings : Settings)
  : Result string :=
  match orUndefined (googleApiKey settings) with
  | None => Throw "Google API key not configured"
  | Some _ => generateGoogle email t
  end.

Definition callAI (email : Email) (t : TargetType) (settings : Settings)
  : Result string :=
  match aiProvider settings with
  | google => callGoogleAI email t settings
  | ollama => generateOllama email t
  | unsupported name => Throw ("Unsupported AI provider: " +:+ name)
  end.

Definition withParsedJsonFile (f : EmailFileData) (file : string) : EmailFileData :=
  {| folderPath := folderPath f; htmlFile := htmlFile f; jsonFile := jsonFile f;
     attachmentFiles := attachmentFiles f; parsedJsonFile := Some file |}.

(** The inner [try]/[catch] around the file archiver: what
    [emailFiles] and [attachmentsSaved] hold after it. *)
Definition archive (fullEmail : Email) (settings : Settings)
    (parsedData : ReplyData) : option EmailFileData * list string :=
  match saveEmailWithFiles fullEmail settings (folderNumber (r_data parsedData)) with
  | Throw _ => (None, [])
  | Ok files =>
      if JS.truthy (folderPath files) then
        match saveParsedDataJson (folderPath files) (r_data parsedData)
                                 (r_type parsedData) with
        | Ok file => (Some (withParsedJsonFile files file), attachmentFiles files)
        | Throw _ => (Some files, attachmentFiles files)
        end
      else (Some files, attachmentFiles files)
  end.

(** The e-mail the prompt and the archive are built from: re-fetched with
    its attachments when files are to be saved and none are at hand; when
    the re-fetch fails the original e-mail is used. *)
Definition fullEmailFor (email : Email) (settings : Settings) (saveFiles : bool)
  : Email :=
  if saveFiles && (length (attachments email) =? 0)%nat
  then match refetchEmailWithAttachments email settings with
       | Ok fetched => fetched
       | Throw _ => email
       end
  else email.

Definition parseEmailWithAI_try (email : Email) (settings : Settings)
    (saveFiles : bool) : Result ParsedEmailData :=
  let expectedType := resolveType email in
  let fullEmail := fullEmailFor email settings saveFiles in
  let* aiResponse := callAI fullEmail expectedType settings in
  let* parsedData := parseAIParsingResponse JSON_parse aiResponse expectedType in
  let '(files, saved) :=
    if saveFiles then archive fullEmail settings parsedData else (None, []) in
  Ok {| type := r_type parsedData;
        data := FromReply (r_data parsedData);
        confidence := r_confidence parsedData;
        reasoning := r_reasoning parsedData;
        attachmentsSaved := saved;
        emailFiles := files |}.

Definition parseEmailWithAI (email : Email) (settings : Settings)
    (saveFiles : bool) : Result ParsedEmailData :=
  try_catch (parseEmailWithAI_try email settings saveFiles)
            (fun errorMessage => Ok (fallbackRecord email errorMessage)).

End WithServices.

End Extractor.

(** ** Job runner (lib/job-queue and the jobs route) *)

Module JobQueue.

Import Pipeline.

Inductive JobType := email_processing | email_processing_optimized.

Inductive JobStatus := pending | running | completed | failed.

(** The generated id is represented by its counter component, which is
    what makes two ids differ. *)
Record Job := {
  job_id : nat;
  job_type : JobType;
  job_status : JobStatus;
  progress : Z;
  startTime : option nat;
  endTime : option nat;
  result : option ProcessEmailsResult;
  error : option string;
  settings : option Settings;
  currentOperation : option string;
  totalEmails : option nat;
  processedEmails : option nat
}.

(** [Partial<Job>]: [None] is an absent key.  [totalEmails] and
    [processedEmails] may be present with the value [undefined]. *)
Record Updates := {
  u_status : option JobStatus;
  u_progress : option Z;
  u_startTime : option nat;
  u_endTime : option nat;
  u_result : option ProcessEmailsResult;
  u_error : option string;
  u_currentOperation : option string;
  u_totalEmails : option (option nat);
  u_processedEmails : option (option nat)
}.

Definition noUpdates : Updates :=
  {| u_status := None; u_progress := None; u_startTime := None;
     u_endTime := None; u_result := None; u_error := None;
     u_currentOperation := None; u_totalEmails := None;
     u_processedEmails := None |}.

Definition over {A : Type} (new : option A) (old : A) : A :=
  match new with Some a => a | None => old end.

Definition overOpt {A : Type} (new : option A) (old : option A) : option A :=
  match new with Some a => Some a | None => old end.

(** [{ ...job, ...updates }] *)
Definition spread (job : Job) (u : Updates) : Job :=
  {| job_id := job_id job;
     job_type := job_type job;
     job_status := over (u_status u) (job_status job);
     progress := over (u_progress u) (progress job);
     startTime := overOpt (u_startTime u) (startTime job);
     endTime := overOpt (u_endTime u) (endTime job);
     result := overOpt (u_result u) (result job);
     error := overOpt (u_error u) (error job);
     settings := settings job;
     currentOperation := overOpt (u_currentOperation u) (currentOperation job);
     totalEmails := over (u_totalEmails u) (totalEmails job);
     processedEmails := over (u_processedEmails u) (processedEmails job) |}.

(** The module state: the [jobs] map in insertion order, the
    [currentJob] slot and the id counter. *)
Record Queue := {
  jobs : list (nat * Job);
  currentJob : option Job;
  jobIdCounter : nat
}.

Fixpoint mapGet (k : nat) (m : list (nat * Job)) : option Job :=
  match m with
  | [] => None
  | (k', v) :: rest => if (k' =? k)%nat then Some v else mapGet k rest
  end.

(** [Map.prototype.set]: an existing key keeps its place. *)
Fixpoint mapSet (k : nat) (v : Job) (m : list (nat * Job)) : list (nat * Job) :=
  match m with
  | [] => [(k, v)]
  | (k', v') :: rest =>
      if (k' =? k)%nat then (k, v) :: rest else (k', v') :: mapSet k v rest
  end.

Definition mapDelete (k : nat) (m : list (nat * Job)) : list (nat * Job) :=
  List.filter (fun kv => negb (fst kv =? k)%nat) m.

Definition createJob (t : JobType) (s : Settings) (q : Queue) : Job * Queue :=
  let n := S (jobIdCounter q) in
  let job :=
    {| job_id := n; job_type := t; job_status := pending; progress := 0;
       startTime := None; endTime := None; result := None; error := None;
       settings := Some s; currentOperation := None; totalEmails := None;
       processedEmails := None |} in
  (job, {| jobs := mapSet n job (jobs q);
           currentJob := currentJob q;
           jobIdCounter := n |}).

Definition getCurrentJob (q : Queue) : option Job := currentJob q.

Definition updateJob (k : nat) (u : Updates) (q : Queue) : Queue :=
  match mapGet k (jobs q) with
  | None => q
  | Some job =>
      let updatedJob := spread job u in
      {| jobs := mapSet k updatedJob (jobs q);
         currentJob :=
           match currentJob q with
           | Some c => if (job_id c =? k)%nat then Some updatedJob else Some c
           | None => None
           end;
         jobIdCounter := jobIdCounter q |}
  end.

Definition isRunning (j : Job) : bool :=
  match job_status j with running => true | _ => false end.

Definition isSettled (j : Job) : bool :=
  match job_status j with completed | failed => true | _ => false end.

(** [(b.startTime?.getTime() || 0) - (a.startTime?.getTime() || 0)] *)
Definition startKey (j : Job) : nat :=
  match startTime j with Some t => t | None => 0 end.

Fixpoint insertByStart (j : Job) (sorted : list Job) : list Job :=
  match sorted with
  | [] => [j]
  | h :: t =>
      if (startKey h <? startKey j)%nat then j :: sorted
      else h :: insertByStart j t
  end.

(** [Array.from(jobs.values()).sort(...)]: latest start first, stable. *)
Definition getAllJobs (q : Queue) : list Job :=
  fold_left (fun acc j => insertByStart j acc) (List.map snd (jobs q)) [].

(** Keep the ten most recent settled jobs. *)
Definition cleanupJobs (q : Queue) : Queue :=
  let completedJobs := List.filter isSettled (getAllJobs q) in
  if (10 <? length completedJobs)%nat then
    {| jobs := fold_left (fun m j => mapDelete (job_id j) m)
                         (skipn 10 completedJobs) (jobs q);
       currentJob := currentJob q;
       jobIdCounter := jobIdCounter q |}
  else q.

(** *** [processJob], one definition per stretch between two [await]s *)

(** Up to [await addLog('Starting background job')]. *)
Definition processJob_enter (job : Job) (q : Queue) : Result Queue :=
  match currentJob q with
  | Some c =>
      if isRunning c then Throw "Another job is already running"
      else Ok {| jobs := jobs q; currentJob := Some job;
                 jobIdCounter := jobIdCounter q |}
  | None => Ok {| jobs := jobs q; currentJob := Some job;
                  jobIdCounter := jobIdCounter q |}
  end.

(** After that [await]: mark the job running.  (The route only creates
    jobs that carry settings.) *)
Definition processJob_start (k now : nat) (q : Queue) : Queue :=
  updateJob k {| u_status := Some running; u_progress := Some 0%Z;
                 u_startTime := Some now; u_endTime := None;
                 u_result := None; u_error := None;
                 u_currentOperation := None; u_totalEmails := None;
                 u_processedEmails := None |} q.

(** The progress callback handed to [processEmails]. *)
Definition progressCallback (k : nat) (operation : string) (p : Z)
    (total processed : option nat) (q : Queue) : Queue :=
  updateJob k {| u_status := None;
                 u_progress := Some (Z.min 100 (Z.max 0 p));
                 u_startTime := None; u_endTime := None;
                 u_result := None; u_error := None;
                 u_currentOperation := Some operation;
                 u_totalEmails := Some total;
                 u_processedEmails := Some processed |} q.

(** When [processEmails] settles: the [completed] update, or the
    [failed] update of the [catch] block. *)
Definition processJob_settle (k now : nat) (outcome : Result ProcessEmailsResult)
    (q : Queue) : Queue :=
  match outcome with
  | Ok r =>
      updateJob k {| u_status := Some completed; u_progress := Some 100%Z;
                     u_startTime := None; u_endTime := Some now;
                     u_result := Some r; u_error := None;
                     u_currentOperation := None; u_totalEmails := None;
                     u_processedEmails := None |} q
  | Throw m =>
      updateJob k {| u_status := Some failed; u_progress := None;
                     u_startTime := None; u_endTime := Some now;
                     u_result := None; u_error := Some m;
                     u_currentOperation := None; u_totalEmails := None;
                     u_processedEmails := None |} q
  end.

(** The [finally] block. *)
Definition processJob_finally (q : Queue) : Queue :=
  {| jobs := jobs q; currentJob := None; jobIdCounter := jobIdCounter q |}.

(** *** The jobs route, [POST], for a well-formed body *)

Inductive Response :=
| Created (job : Job)
| Conflict (current : Job).

(** The third component is the id of the job whose [processJob] call is
    now suspended at its first [await], if any. *)
Definition POST (t : JobType) (s : Settings) (q : Queue)
  : Response * Queue * option nat :=
  let reject :=
    match getCurrentJob q with
    | Some c => if isRunning c then Some c else None
    | None => None
    end in
  match reject with
  | Some c => (Conflict c, q, None)
  | None =>
      let '(job, q1) := createJob t s q in
      match processJob_enter job q1 with
      | Ok q2 => (Created job, cleanupJobs q2, Some (job_id job))
      | Throw _ => (Created job, cleanupJobs q1, None)
      end
  end.

(** *** Runs of the server

    The server runs one stretch of code at a time; a stretch ends at an
    [await].  [waiting] records where each call of [processJob] is
    suspended. *)

Inductive Suspended :=
| AtStartLog     (* awaiting the first addLog *)
| InPass         (* awaiting processEmails *)
| AtEndLog.      (* awaiting the last addLog, before [finally] *)

Record Server := {
  queue : Queue;
  waiting : list (nat * Suspended)
}.

Inductive Event :=
| Submit (t : JobType) (s : Settings)
| Resume (k now : nat)
| Progress (k : nat) (operation : string) (p : Z) (total processed : option nat)
| Settle (k now : nat) (outcome : Result ProcessEmailsResult)
| Finally (k : nat).

Fixpoint suspendedAt (k : nat) (w : list (nat * Suspended)) : option Suspended :=
  match w with
  | [] => None
  | (k', p) :: rest => if (k' =? k)%nat then Some p else suspendedAt k rest
  end.

Definition moveTo (k : nat) (p : option Suspended)
    (w : list (nat * Suspended)) : list (nat * Suspended) :=
  let others := List.filter (fun kp => negb (fst kp =? k)%nat) w in
  match p with
  | Some p' => others ++ [(k, p')]
  | None => others
  end.

(** One stretch.  [None]: the event cannot happen in this state. *)
Definition step (sv : Server) (e : Event) : option Server :=
  match e with
  | Submit t s =>
      match POST t s (queue sv) with
      | (_, q', Some k) =>
          Some {| queue := q';
                  waiting := moveTo k (Some AtStartLog) (waiting sv) |}
      | (_, q', None) => Some {| queue := q'; waiting := waiting sv |}
      end
  | Resume k now =>
      match suspendedAt k (waiting sv) with
      | Some AtStartLog =>
          Some {| queue := processJob_start k now (queue sv);
                  waiting := moveTo k (Some InPass) (waiting sv) |}
      | _ => None
      end
  | Progress k operation p total processed =>
      match suspendedAt k (waiting sv) with
      | Some InPass =>
          Some {| queue := progressCallback k operation p total processed (queue sv);
                  waiting := waiting sv |}
      | _ => None
      end
  | Settle k now outcome =>
      match suspendedAt k (waiting sv) with
      | Some InPass =>
          Some {| queue := processJob_settle k now outcome (queue sv);
                  waiting := moveTo k (Some AtEndLog) (waiting sv) |}
      | _ => None
      end
  | Finally k =>
      match suspendedAt k (waiting sv) with
      | Some AtEndLog =>
          Some {| queue := processJob_finally (queue sv);
                  waiting := moveTo k None (waiting sv) |}
      | _ => None
      end
  end.

Fixpoint run (sv : Server) (events : list Event) : option Server :=
  match events with
  | [] => Some sv
  | e :: rest =>
      match step sv e with
      | Some sv' => run sv' rest
      | None => None
      end
  end.

Definition initial : Server :=
  {| queue := {| jobs := []; currentJob := None; jobIdCounter := 0 |};
     waiting := [] |}.

Definition runningJobs (q : Queue) : list Job :=
  List.filter isRunning (List.map snd (jobs q)).

(** *** Uninterrupted runs

    A run in which no other handler gets in between a stretch that ends at
    an [await addLog] and the stretch after it: a submission is followed at
    once by the resumption that marks its job running, and the settling of
    a pass by the [finally] block. *)

Inductive Stretch :=
| SubmitAndStart (t : JobType) (s : Settings) (now : nat)
| Report (k : nat) (operation : string) (p : Z) (total processed : option nat)
| SettleAndRelease (k now : nat) (outcome : Result ProcessEmailsResult).

Definition expand (sv : Server) (e : Stretch) : list Event :=
  match e with
  | SubmitAndStart t s now =>
      match POST t s (queue sv) with
      | (_, _, Some k) => [Submit t s; Resume k now]
      | (_, _, None) => [Submit t s]
      end
  | Report k operation p total processed =>
      [Progress k operation p total processed]
  | SettleAndRelease k now outcome => [Settle k now outcome; Finally k]
  end.

Fixpoint runUninterrupted (sv : Server) (stretches : list Stretch) : option Server :=
  match stretches with
  | [] => Some sv
  | e :: rest =>
      match run sv (expand sv e) with
      | Some sv' => runUninterrupted sv' rest
      | None => None
      end
  end.

(** What holds of the server between two stretches of such a run: keys
    are distinct and are the ids of their jobs, a running job is the job in
    the slot, and either nothing is suspended and the slot is empty, or one
    call of [processJob] is inside its pass and its job is in the slot. *)
Definition calm (sv : Server) : Prop :=
  let q := queue sv in
  List.NoDup (List.map fst (jobs q))
  /\ (forall k j, In (k, j) (jobs q) -> job_id j = k /\ (k <= jobIdCounter q)%nat)
  /\ (forall k j, In (k, j) (jobs q) -> isRunning j = true -> currentJob q = Some j)
  /\ ((waiting sv = [] /\ currentJob q = None)
      \/ exists j, waiting sv = [(job_id j, InPass)]
                   /\ currentJob q = Some j /\ isRunning j = true
                   /\ In (job_id j, j) (jobs q)).

End JobQueue.

(** ** Soft stop (the stop route and the parse route) *)

Module StopFlag.

(** The two module-level flags and the pending [setTimeout] callbacks
    of the stop route, each with the time at which it is due. *)
Record Flags := {
  shouldStop : bool;
  shouldStopParsing : bool;
  timers : list N
}.

Definition setShouldStopParsing (value : bool) (f : Flags) : Flags :=
  {| shouldStop := shouldStop f; shouldStopParsing := value; timers := timers f |}.

Definition getShouldStopParsing (f : Flags) : bool := shouldStopParsing f.

Definition resetDelay : N := 5000.

(** The stop route, [POST], at time [now]. *)
Definition POST (now : N) (f : Flags) : Flags :=
  let f1 := {| shouldStop := true; shouldStopParsing := shouldStopParsing f;
               timers := timers f |} in
  let f2 := setShouldStopParsing true f1 in
  {| shouldStop := shouldStop f2; shouldStopParsing := shouldStopParsing f2;
     timers := timers f2 ++ [(now + resetDelay)%N] |}.

(** The callback given to [setTimeout]. *)
Definition resetFlags (f : Flags) : Flags :=
  setShouldStopParsing false
    {| shouldStop := false; shouldStopParsing := shouldStopParsing f;
       timers := timers f |}.

(** The event loop at time [now]: every callback that is due runs. *)
Definition tick (now : N) (f : Flags) : Flags :=
  let due := List.filter (fun t => (t <=? now)%N) (timers f) in
  let later := List.filter (fun t => negb (t <=? now)%N) (timers f) in
  let f' := fold_left (fun acc _ => resetFlags acc) due f in
  {| shouldStop := shouldStop f'; shouldStopParsing := shouldStopParsing f';
     timers := later |}.

(** *** The loop of the parse route *)

Record Results := {
  parsedCount : nat;          (* results.parsed *)
  failedCount : nat;          (* results.failed *)
  errors : list string;
  parsedEmails : list string  (* ids of the e-mails pushed on parsedEmails *)
}.

Definition noResults : Results :=
  {| parsedCount := 0; failedCount := 0; errors := []; parsedEmails := [] |}.

(** What happens to one e-mail inside the [try] block:
    [parseEmailWithAI] and [updateEmail] succeed, [updateEmail] finds no
    such e-mail, or something throws. *)
Inductive Outcome :=
| Updated
| NotFound
| Threw (message : string).

Section ParseLoop.

Variable outcome : Email -> Outcome.

Definition handle (email : Email) (r : Results) : Results :=
  match outcome email with
  | Updated =>
      {| parsedCount := S (parsedCount r); failedCount := failedCount r;
         errors := errors r; parsedEmails := parsedEmails r ++ [id email] |}
  | NotFound =>
      {| parsedCount := parsedCount r; failedCount := S (failedCount r);
         errors := errors r ++ ["Failed to update email: " +:+ subject email];
         parsedEmails := parsedEmails r |}
  | Threw m =>
      {| parsedCount := parsedCount r; failedCount := S (failedCount r);
         errors := errors r ++ ["Failed to parse " +:+ subject email +:+ ": " +:+ m];
         parsedEmails := parsedEmails r |}
  end.

(** What the rest of the server does while the loop is suspended in
    an iteration. *)
Inductive Interrupt :=
| StopRequest (now : N)
| Tick (now : N).

Definition interrupt (f : Flags) (i : Interrupt) : Flags :=
  match i with
  | StopRequest now => POST now f
  | Tick now => tick now f
  end.

(** [for (const email of emailsToParse)]: each e-mail comes with the
    interrupts that happen while it is being handled; the flag is read
    at the top of every iteration and [break] leaves the loop with the
    results so far. *)
Fixpoint parseLoop (work : list (Email * list Interrupt)) (f : Flags)
    (r : Results) : Results * Flags :=
  match work with
  | [] => (r, f)
  | (email, during) :: rest =>
      if getShouldStopParsing f then (r, f)
      else parseLoop rest (fold_left interrupt during f) (handle email r)
  end.

End ParseLoop.

(** *** The mailbox pass next to the flags

    The server state seen by a mailbox pass: the flags and the e-mail
    table.  [processEmails] reads and writes the table only. *)
Record World := {
  flags : Flags;
  db : DataStore
}.

Definition mailboxPass
    (classifyWithAI : Email -> Settings -> ClassificationResult)
    (getRules : Result (list Rule)) (now : string) (settings : Settings)
    (fetched : Result (list Pipeline.FetchedMessage)) (w : World)
  : Result Pipeline.ProcessEmailsResult * World :=
  let '(result, db') :=
    Pipeline.processEmails classifyWithAI getRules now settings fetched (db w) in
  (result, {| flags := flags w; db := db' |}).

End StopFlag.

(** ** The confidence formulas on binary64 numbers

    The same three expressions evaluated with IEEE 754 double precision,
    as the JavaScript engine evaluates them, to check that the rational
    model above does not hide a rounding effect. *)

Module Binary64.

Local Open Scope float_scope.

(** [Math.min] and [Math.max] on numbers that are not NaN *)
Definition Math_min (a b : float) : float := if b <? a then b else a.
Definition Math_max (a b : float) : float := if a <? b then b else a.

Definition ofNat (n : nat) : float := PrimFloat.of_uint63 (Uint63.of_Z (Z.of_nat n)).

(** [Math.min(0.8, 0.3 + (score * 0.1))] *)
Definition keywordConfidence (score : nat) : float :=
  Math_min 0.8 (0.3 + ofNat score * 0.1).

(** The rational number that a finite double stands for *)
Definition toQ (x : float) : option Q :=
  match Prim2SF x with
  | S754_zero _ => Some 0%Q
  | S754_finite s m e =>
      let v := match e with
               | Z0 => inject_Z (Zpos m)
               | Zpos p => inject_Z (Zpos m * 2 ^ Zpos p)
               | Zneg p => Qmake (Zpos m) (2 ^ p)
               end in
      Some (if s then Qopp v else v)
  | _ => None
  end.

(** [|x - q| <= eps] for a finite double [x] *)
Definition within (eps : Q) (x : float) (q : Q) : bool :=
  match toQ x with
  | Some v => Qle_bool (v - q) eps && Qle_bool (q - v) eps
  | None => false
  end.

(** The confidence of [parseAIParsingResponse] *)
Definition replyConfidence (present required : nat) (bonus : bool) : float :=
  let c := Math_min 0.95 (0.3 + (ofNat present / ofNat required) * 0.6) in
  let c := if bonus then c + 0.1 else c in
  Math_max 0.1 (Math_min 0.95 c).

End Binary64.

(** ** What the mailbox pass stores (email-service) *)

Module PassRecord.

(** A record as the pass hands it to [addEmail]. *)
Definition tidy (e : Email) : Prop :=
  (classification e = cls_inbox \/ classification e = cls_unsorted)
  /\ parsed e <> None
  /\ status e = st_processed
  /\ exists fromText, from e = fromText
                      /\ senderEmail e = Some (extractEmailAddress fromText).

End PassRecord.

(** ** Classification by the AI provider (classification-service) *)

Module AiClassifier.

(** [parsed.type], when it is one of the three type names *)
Definition typeNamed (value : option JSON) : option ContentType :=
  match value with
  | Some (JStr s) =>
      if String.eqb s "order" then Some order
      else if String.eqb s "estimate" then Some estimate
      else if String.eqb s "other" then Some other
      else None
  | _ => None
  end.

(** [typeof parsed.confidence === 'number'
      ? Math.max(0, Math.min(1, parsed.confidence)) : 0.5] *)
Definition confidenceOf (value : option JSON) : Q :=
  match value with
  | Some (JNum q) => Qmax 0 (Qmin 1 q)
  | _ => 1 # 2
  end.

Section WithJSON.

Variable JSON_parse : string -> Result JSON.
(** How a reasoning that is not a string reads. *)
Variable render : JSON -> string.

(** [parsed.reasoning || 'AI classification completed'] *)
Definition reasoningOf (value : option JSON) : string :=
  match value with
  | Some (JStr s) => if JS.truthy s then s else "AI classification completed"
  | Some j => if Extractor.truthyJ j then render j else "AI classification completed"
  | None => "AI classification completed"
  end.

Definition parseAIResponse_try (response : string) : Result ClassificationResult :=
  let trimmed := JS.trim response in
  let cleanResponse :=
    match Extractor.matchBraces trimmed with
    | Some m => m
    | None => trimmed
    end in
  let* parsed := JSON_parse cleanResponse in
  let* typeField := Extractor.getField parsed "type" in
  match typeNamed typeField with
  | None => Throw "Invalid classification type in AI response"
  | Some t =>
      let* confidenceField := Extractor.getField parsed "confidence" in
      let* reasoningField := Extractor.getField parsed "reasoning" in
      Ok {| cr_type := t;
            cr_confidence := confidenceOf confidenceField;
            cr_reasoning := reasoningOf reasoningField |}
  end.

(** The [catch] block: the type is guessed from the words of the reply. *)
Definition guessFromText (response errorMessage : string) : ClassificationResult :=
  let lowerResponse := JS.toLowerCase response in
  if JS.includes lowerResponse "order" && negb (JS.includes lowerResponse "estimate")
  then {| cr_type := order; cr_confidence := 6 # 10;
          cr_reasoning :=
            "AI response contained " +:+ String Extractor.dquote "order"
            +:+ String Extractor.dquote " keyword" |}
  else if JS.includes lowerResponse "estimate" || JS.includes lowerResponse "quote"
  then {| cr_type := estimate; cr_confidence := 6 # 10;
          cr_reasoning := "AI response contained estimate/quote keywords" |}
  else {| cr_type := other; cr_confidence := 3 # 10;
          cr_reasoning := "Could not parse AI response: " +:+ errorMessage |}.

Definition parseAIResponse (response : string) : ClassificationResult :=
  match parseAIResponse_try response with
  | Ok r => r
  | Throw errorMessage => guessFromText response errorMessage
  end.

(** The text of the reply of each provider, [undefined] ([None]) when the
    reply has none; a rejection carries the HTTP or network error. *)
Variable generateGoogle : Email -> Settings -> Result (option string).
Variable generateOllama : Email -> Settings -> Result (option string).

Definition classifyWithGoogleAI (email : Email) (settings : Settings)
  : Result ClassificationResult :=
  match Extractor.orUndefined (googleApiKey settings) with
  | None => Throw "Google API key not configured"
  | Some _ =>
      let* aiResponse := generateGoogle email settings in
      match Extractor.orUndefined aiResponse with
      | None => Throw "No response from Google AI"
      | Some text => Ok (parseAIResponse text)
      end
  end.

Definition classifyWithOllama (email : Email) (settings : Settings)
  : Result ClassificationResult :=
  let* aiResponse := generateOllama email settings in
  match Extractor.orUndefined aiResponse with
  | None => Throw "No response from Ollama"
  | Some text => Ok (parseAIResponse text)
  end.

Definition callProvider (email : Email) (settings : Settings)
  : Result ClassificationResult :=
  match aiProvider settings with
  | google => classifyWithGoogleAI email settings
  | ollama => classifyWithOllama email settings
  | unsupported name => Throw ("Unsupported AI provider: " +:+ name)
  end.

(** [classifyWithAI]: every failure becomes [{type: 'other', confidence: 0}]. *)
Definition classifyWithAI (email : Email) (settings : Settings)
  : ClassificationResult :=
  match callProvider email settings with
  | Ok r => r
  | Throw errorMessage =>
      {| cr_type := other; cr_confidence := 0;
         cr_reasoning := "AI classification failed: " +:+ errorMessage |}
  end.

(** [classifyEmail] with this provider stage. *)
Definition classifyEmail (email : Email) (settings : Settings)
  : Result ClassificationResult :=
  Classifier.classifyEmail classifyWithAI email settings.

End WithJSON.

End AiClassifier.

(** ** The job table over whole runs (job-queue) *)

Module JobTable.

Import JobQueue.

(** What a job record holds in each status. *)
Definition wellFormed (j : Job) : Prop :=
  (0 <= progress j <= 100)%Z
  /\ match job_status j with
     | pending => progress j = 0%Z /\ startTime j = None /\ endTime j = None
     | running => startTime j <> None /\ endTime j = None
     | completed =>
         progress j = 100%Z /\ result j <> None
         /\ startTime j <> None /\ endTime j <> None
     | failed => error j <> None /\ startTime j <> None /\ endTime j <> None
     end.

(** The status that goes with the place where the call of [processJob]
    for the job is suspended, if it is. *)
Definition agrees (place : option Suspended) (j : Job) : Prop :=
  match place with
  | Some AtStartLog => job_status j = pending
  | Some InPass => job_status j = running
  | Some AtEndLog => isSettled j = true
  | None => job_status j = pending \/ isSettled j = true
  end.

(** The invariant of the server over all runs, interleaved or not. *)
Definition consistent (sv : Server) : Prop :=
  let q := queue sv in
  List.NoDup (List.map fst (jobs q))
  /\ (forall k j, In (k, j) (jobs q) ->
        job_id j = k /\ (k <= jobIdCounter q)%nat
        /\ wellFormed j /\ agrees (suspendedAt k (waiting sv)) j)
  /\ (forall k, suspendedAt k (waiting sv) <> None -> (k <= jobIdCounter q)%nat).

(** Latest start first. *)
Definition latestFirst (l : list Job) : Prop :=
  StronglySorted (fun a b => (startKey b <= startKey a)%nat) l.

End JobTable.

(** ** File archiver (email-file-service) *)

Module Archiver.

(** [s.replace(/c/g, rep)] for one character [c] *)
Fixpoint replaceChar (c : ascii) (rep : string) (s : string) : string :=
  match s with
  | EmptyString => EmptyString
  | String d s' =>
      (if Ascii.eqb d c then rep else String d EmptyString) +:+ replaceChar c rep s'
  end.

Definition squote : ascii := "039"%char.

(** [escapeHtml]: five replacements, one after the other. *)
Definition escapeHtml (text : string) : string :=
  replaceChar squote "&#39;"
    (replaceChar Extractor.dquote "&quot;"
      (replaceChar ">" "&gt;"
        (replaceChar "<" "&lt;"
          (replaceChar "&" "&amp;" text)))).

(** The entity that stands for one character of the text. *)
Definition entity (c : ascii) : string :=
  if Ascii.eqb c "&" then "&amp;"
  else if Ascii.eqb c "<" then "&lt;"
  else if Ascii.eqb c ">" then "&gt;"
  else if Ascii.eqb c Extractor.dquote then "&quot;"
  else if Ascii.eqb c squote then "&#39;"
  else String c EmptyString.

Fixpoint entities (text : string) : string :=
  match text with
  | EmptyString => EmptyString
  | String c s => entity c +:+ entities s
  end.

(** [[a-zA-Z0-9]] *)
Definition isAlnum (c : ascii) : bool :=
  let n := nat_of_ascii c in
  ((48 <=? n)%nat && (n <=? 57)%nat)
  || ((65 <=? n)%nat && (n <=? 90)%nat)
  || ((97 <=? n)%nat && (n <=? 122)%nat).

(** [[a-zA-Z0-9_-]], the characters a folder name keeps *)
Definition folderChar (c : ascii) : bool :=
  isAlnum c || Ascii.eqb c "_" || Ascii.eqb c "-".

(** [[a-zA-Z0-9._-]], the characters an attachment file name keeps *)
Definition fileChar (c : ascii) : bool :=
  isAlnum c || Ascii.eqb c "." || Ascii.eqb c "_" || Ascii.eqb c "-".

(** [s.replace(/[^...]/g, '_')] for the character class [keep] *)
Fixpoint replaceOutside (keep : ascii -> bool) (s : string) : string :=
  match s with
  | EmptyString => EmptyString
  | String c s' => String (if keep c then c else "_"%char) (replaceOutside keep s')
  end.

(** [s.replace(/[^a-zA-Z0-9\s]/g, '')] *)
Fixpoint keepWordChars (s : string) : string :=
  match s with
  | EmptyString => EmptyString
  | String c s' =>
      if isAlnum c || JS.is_space c then String c (keepWordChars s')
      else keepWordChars s'
  end.

(** [s.replace(/\s+/g, '_')]; [inRun] tells that the previous character
    was white space, already replaced. *)
Fixpoint collapseSpaces (inRun : bool) (s : string) : string :=
  match s with
  | EmptyString => EmptyString
  | String c s' =>
      if JS.is_space c then
        if inRun then collapseSpaces true s'
        else String "_" (collapseSpaces true s')
      else String c (collapseSpaces false s')
  end.

(** [s.replace(/[._]/g, '_')] *)
Fixpoint dotsToUnderscores (s : string) : string :=
  match s with
  | EmptyString => EmptyString
  | String c s' =>
      String (if Ascii.eqb c "." || Ascii.eqb c "_" then "_"%char else c)
             (dotsToUnderscores s')
  end.

(** [extractCustomerName] of the archiver: the display name with its
    punctuation dropped and its white space turned into underscores, else
    the local part of the address, else a fixed name. *)
Definition extractCustomerName (fromField : string) : string :=
  match Extractor.matchDisplayName fromField with
  | Some name => collapseSpaces false (keepWordChars (JS.trim name))
  | None =>
      match Extractor.matchLocalPart fromField with
      | Some localPart => dotsToUnderscores localPart
      | None => "Unknown_Customer"
      end
  end.

(** Every character of [s] is in the class [p]. *)
Fixpoint allChars (p : ascii -> bool) (s : string) : bool :=
  match s with
  | EmptyString => true
  | String c s' => p c && allChars p s'
  end.

(** [[a-zA-Z0-9_]] *)
Definition nameChar (c : ascii) : bool := isAlnum c || Ascii.eqb c "_".

(** The folder name of [saveEmailWithFiles]:
    [`${customerName}_${date}_${orderVar}`.replace(/[^a-zA-Z0-9_-]/g, '_')] *)
Definition folderName (customerName date orderVar : string) : string :=
  replaceOutside folderChar (customerName +:+ "_" +:+ date +:+ "_" +:+ orderVar).

(** What [attachment.data] holds at run time: a [Buffer] of some length, a
    string, nothing, or a value of another type. *)
Inductive AttachmentData :=
| IsBuffer (byteLength : N)
| IsString (s : string)
| Missing
| Unsupported.

Record StoredAttachment := {
  sa_filename : string;
  sa_data : AttachmentData
}.

Section WithFileSystem.

(** [new Date(d).toISOString().split('T')[0]]; an invalid date throws. *)
Variable toISODate : string -> Result string.
Variable path_join : string -> string -> string.
(** [fs.mkdir(dir, { recursive: true })] and [fs.writeFile(file, ..)] *)
Variable mkdir : string -> Result unit.
Variable writeFile : string -> Result unit.
(** [Buffer.from(s, 'base64').length] *)
Variable decodedLength : string -> N.

(** [data.length > settings.maxAttachmentSize * 1024 * 1024] *)
Definition exceeds (byteLength : N) (maxAttachmentSize : Q) : bool :=
  Qgtb (inject_Z (Z.of_N byteLength)) (maxAttachmentSize * 1024 * 1024).

Definition writeWithin (filepath : string) (byteLength : N)
    (maxAttachmentSize : Q) (savedFiles : list string) : list string :=
  if exceeds byteLength maxAttachmentSize then savedFiles
  else match writeFile filepath with
       | Ok _ => savedFiles ++ [filepath]
       | Throw _ => savedFiles
       end.

(** One turn of the loop of [saveEmailAttachments], with its [try]/[catch]:
    an attachment without data, of another type or over the limit is left
    out, and so is one whose write fails. *)
Definition saveAttachment (attachmentsDir : string) (maxAttachmentSize : Q)
    (savedFiles : list string) (attachment : StoredAttachment) : list string :=
  let filepath :=
    path_join attachmentsDir (replaceOutside fileChar (sa_filename attachment)) in
  match sa_data attachment with
  | Missing => savedFiles
  | IsString EmptyString => savedFiles
  | IsBuffer byteLength =>
      writeWithin filepath byteLength maxAttachmentSize savedFiles
  | IsString s =>
      writeWithin filepath (decodedLength s) maxAttachmentSize savedFiles
  | Unsupported => savedFiles
  end.

Definition saveEmailAttachments (stored : option (list StoredAttachment))
    (folder : string) (maxAttachmentSize : Q) : Result (list string) :=
  match stored with
  | None | Some [] => Ok []
  | Some attachments =>
      let attachmentsDir := path_join folder "attachments" in
      let* _ := mkdir attachmentsDir in
      Ok (fold_left (saveAttachment attachmentsDir maxAttachmentSize) attachments [])
  end.

(** The length of the data of an attachment that the loop would write. *)
Definition payloadLength (attachment : StoredAttachment) : option N :=
  match sa_data attachment with
  | IsBuffer byteLength => Some byteLength
  | IsString EmptyString => None
  | IsString s => Some (decodedLength s)
  | Missing | Unsupported => None
  end.

(** [filepath] is the file of an attachment of the list that has data
    within the limit and whose write succeeded. *)
Definition savedFrom (attachmentsDir : string) (maxAttachmentSize : Q)
    (attachments : list StoredAttachment) (filepath : string) : Prop :=
  exists attachment byteLength,
    In attachment attachments
    /\ filepath = path_join attachmentsDir
                    (replaceOutside fileChar (sa_filename attachment))
    /\ payloadLength attachment = Some byteLength
    /\ exceeds byteLength maxAttachmentSize = false
    /\ resolves (writeFile filepath).

Definition saveEmailHtml (folder : string) : Result string :=
  let htmlFile := path_join folder "email_content.html" in
  let* _ := writeFile htmlFile in
  Ok htmlFile.

Definition saveEmailJson (folder : string) : Result string :=
  let jsonFile := path_join folder "email_metadata.json" in
  let* _ := writeFile jsonFile in
  Ok jsonFile.

(** [saveEmailWithFiles]; its [catch] logs and throws the same error. *)
Definition saveEmailWithFiles (email : Email)
    (stored : option (list StoredAttachment))
    (storagePath : option string) (maxAttachmentSize : Q)
    (orderNumber : option string) : Result Extractor.EmailFileData :=
  let customerName := extractCustomerName (from email) in
  let* isoDate := toISODate (date email) in
  let orderVar := JS.orElse orderNumber "ORDER_VAR" in
  let folder :=
    path_join (JS.orElse storagePath "./data/email_files")
              (folderName customerName isoDate orderVar) in
  let* _ := mkdir folder in
  let* html := saveEmailHtml folder in
  let* json := saveEmailJson folder in
  let* files := saveEmailAttachments stored folder maxAttachmentSize in
  Ok {| Extractor.folderPath := folder;
        Extractor.htmlFile := html;
        Extractor.jsonFile := json;
        Extractor.attachmentFiles := files;
        Extractor.parsedJsonFile := None |}.

End WithFileSystem.

End Archiver.

(** ** Data store (lib/data-store): updates, deletions, rules and the log *)

Module Store.

(** [array.findIndex(p)]; [None] stands for [-1]. *)
Fixpoint findIndex {A : Type} (p : A -> bool) (l : list A) : option nat :=
  match l with
  | [] => None
  | x :: rest => if p x then Some 0%nat else option_map S (findIndex p rest)
  end.

(** [Partial<Email>]: the fields that an update carries, each with a value. *)
Record EmailUpdates := {
  u_id : option string;
  u_subject : option string;
  u_from : option string;
  u_to : option string;
  u_date : option string;
  u_body : option string;
  u_status : option EmailStatus;
  u_parsed : option ParsedInfo;
  u_classification : option Classification;
  u_senderEmail : option string;
  u_attachments : option (list Attachment)
}.

Definition noUpdates : EmailUpdates :=
  {| u_id := None; u_subject := None; u_from := None; u_to := None;
     u_date := None; u_body := None; u_status := None; u_parsed := None;
     u_classification := None; u_senderEmail := None; u_attachments := None |}.

Definition over {A : Type} (old : A) (new : option A) : A :=
  match new with
  | Some v => v
  | None => old
  end.

Definition overOpt {A : Type} (old : option A) (new : option A) : option A :=
  match new with
  | Some v => Some v
  | None => old
  end.

(** [{ ...email, ...updates }] *)
Definition spread (email : Email) (updates : EmailUpdates) : Email :=
  {| id := over (id email) (u_id updates);
     subject := over (subject email) (u_subject updates);
     from := over (from email) (u_from updates);
     to := over (to email) (u_to updates);
     date := over (date email) (u_date updates);
     body := over (body email) (u_body updates);
     status := over (status email) (u_status updates);
     parsed := overOpt (parsed email) (u_parsed updates);
     classification := over (classification email) (u_classification updates);
     senderEmail := overOpt (senderEmail email) (u_senderEmail updates);
     attachments := over (attachments email) (u_attachments updates) |}.

Definition hasId (wanted : string) (email : Email) : bool :=
  String.eqb (id email) wanted.

Definition withEmails (table : list Email) (store : DataStore) : DataStore :=
  {| emails := table; idCounter := idCounter store |}.

(** [updateEmail]: the first e-mail with the id is replaced by its
    spread; [null] when there is none.  A failure to write the table to
    disk is swallowed. *)
Definition updateEmail (wanted : string) (updates : EmailUpdates)
    (store : DataStore) : option Email * DataStore :=
  match findIndex (hasId wanted) (emails store) with
  | None => (None, store)
  | Some index =>
      match emails store !! index with
      | None => (None, store)
      | Some old =>
          let new := spread old updates in
          (Some new, withEmails (<[index := new]> (emails store)) store)
      end
  end.

(** [deleteEmail]: [emails.splice(index, 1)] at the first e-mail with the
    id; [false] when there is none. *)
Definition deleteEmail (wanted : string) (store : DataStore) : bool * DataStore :=
  match findIndex (hasId wanted) (emails store) with
  | None => (false, store)
  | Some index => (true, withEmails (delete index (emails store)) store)
  end.

(** [const { id, ...updateData } = update] *)
Definition withoutId (u : EmailUpdates) : EmailUpdates :=
  {| u_id := None; u_subject := u_subject u; u_from := u_from u; u_to := u_to u;
     u_date := u_date u; u_body := u_body u; u_status := u_status u;
     u_parsed := u_parsed u; u_classification := u_classification u;
     u_senderEmail := u_senderEmail u; u_attachments := u_attachments u |}.

(** One turn of the loop of [bulkUpdateEmails]; an update carries the id
    of the e-mail it is for. *)
Definition bulkUpdateStep (st : nat * DataStore) (update : string * EmailUpdates)
  : nat * DataStore :=
  let '(updatedCount, store) := st in
  match updateEmail (fst update) (withoutId (snd update)) store with
  | (Some _, store') => (S updatedCount, store')
  | (None, _) => (updatedCount, store)
  end.

Definition bulkUpdateEmails (updates : list (string * EmailUpdates))
    (store : DataStore) : nat * DataStore :=
  fold_left bulkUpdateStep updates (0%nat, store).

(** [ids.includes(id)] *)
Definition includesId (ids : list string) (wanted : string) : bool :=
  existsb (String.eqb wanted) ids.

(** [bulkDeleteEmails]: the table is filtered and the difference of the
    lengths is returned. *)
Definition bulkDeleteEmails (ids : list string) (store : DataStore)
  : nat * DataStore :=
  let kept := List.filter (fun email => negb (includesId ids (id email)))
                          (emails store) in
  ((length (emails store) - length kept)%nat, withEmails kept store).

(** Deleting the ids one after the other with [deleteEmail], as the loops
    of the reclassify route and of the archive clean-up do, and counting
    the deletions that found their e-mail. *)
Definition deleteEach (ids : list string) (store : DataStore) : nat * DataStore :=
  fold_left (fun st wanted =>
               let '(found, store') := deleteEmail wanted (snd st) in
               (if found then S (fst st) else fst st, store'))
            ids (0%nat, store).

Definition ContentType_eqb (a b : ContentType) : bool :=
  match a, b with
  | order, order | estimate, estimate | other, other => true
  | _, _ => false
  end.

(** [emails.filter(email => email.parsed?.type === type)] *)
Definition getEmailsByType (t : ContentType) (store : DataStore) : list Email :=
  List.filter (fun email =>
                 match parsed email with
                 | Some p => ContentType_eqb (parsed_type p) t
                 | None => false
                 end) (emails store).

(** *** Rules.  [saveRulesToFile] is the outcome of writing the table. *)

Definition withRuleId (newId : string) (rule : Rule) : Rule :=
  {| rule_id := newId; rule_type := rule_type rule; pattern := pattern rule;
     description := description rule; active := active rule |}.

Definition RuleType_eqb (a b : RuleType) : bool :=
  match a, b with
  | whitelist, whitelist | blacklist, blacklist => true
  | _, _ => false
  end.

(** [getRules(type)] *)
Definition getRules (t : option RuleType) (rules : list Rule) : list Rule :=
  match t with
  | Some wanted => List.filter (fun rule => RuleType_eqb (rule_type rule) wanted) rules
  | None => rules
  end.

Section WithRuleFile.

Variable saveRulesToFile : list Rule -> Result unit.

(** [addRule]: the rule is pushed on the table in memory, then the table
    is written; a failed write throws.  [newId] is the generated id. *)
Definition addRule (newId : string) (rule : Rule) (rules : list Rule)
  : Result Rule * list Rule :=
  let newRule := withRuleId newId rule in
  let rules' := rules ++ [newRule] in
  (try_catch (let* _ := saveRulesToFile rules' in Ok newRule)
             (fun _ => Throw "Failed to persist rule"),
   rules').

(** [deleteRule] *)
Definition deleteRule (wanted : string) (rules : list Rule)
  : Result bool * list Rule :=
  match findIndex (fun rule => String.eqb (rule_id rule) wanted) rules with
  | None => (Ok false, rules)
  | Some index =>
      let rules' := delete index rules in
      (try_catch (let* _ := saveRulesToFile rules' in Ok true)
                 (fun _ => Throw "Failed to persist rule deletion"),
       rules')
  end.

End WithRuleFile.

(** *** The log *)

Record Log := {
  log_id : string;
  level : string;
  message : string;
  timestamp : string
}.

(** [addLog]: [logs.unshift(log)], then the first 1000 entries are kept
    when there are more. *)
Definition addLog (log : Log) (logs : list Log) : list Log :=
  let logs' := log :: logs in
  if (1000 <? length logs')%nat then firstn 1000 logs' else logs'.

End Store.

(** ** Re-classification of the stored e-mails (the reclassify route) *)

Module Reclassify.

(** [email.senderEmail?.toLowerCase() || email.from.toLowerCase()] *)
Definition senderOf (email : Email) : string :=
  JS.orElse (option_map JS.toLowerCase (senderEmail email))
            (JS.toLowerCase (from email)).

(** [senderEmail === pattern || senderEmail.includes(pattern)
      || pattern.includes(senderEmail)] *)
Definition ruleMatches (sender : string) (rule : Rule) : bool :=
  let p := JS.toLowerCase (pattern rule) in
  String.eqb sender p || JS.includes sender p || JS.includes p sender.

Definition Classification_eqb (a b : Classification) : bool :=
  match a, b with
  | cls_inbox, cls_inbox | cls_whitelist, cls_whitelist
  | cls_blacklist, cls_blacklist | cls_pending, cls_pending
  | cls_unsorted, cls_unsorted => true
  | _, _ => false
  end.

Inductive Verdict :=
| Remove
| Move (newClassification : Classification)
| Leave.

(** The body of the loop up to the update: the blacklist rules are looked
    at first, then the whitelist rules, then the e-mail without a matching
    rule goes to unsorted. *)
Definition verdict (whitelistRules blacklistRules : list Rule) (email : Email)
  : Verdict :=
  let sender := senderOf email in
  if existsb (ruleMatches sender) blacklistRules then Remove
  else
    let afterWhitelist :=
      if existsb (ruleMatches sender) whitelistRules then cls_inbox
      else classification email in
    let newClassification :=
      if Classification_eqb afterWhitelist (classification email) then
        if negb (existsb (ruleMatches sender) (whitelistRules ++ blacklistRules))
           && negb (Classification_eqb (classification email) cls_unsorted)
        then cls_unsorted
        else afterWhitelist
      else afterWhitelist in
    if Classification_eqb newClassification (classification email) then Leave
    else Move newClassification.

Definition isRemove (whitelistRules blacklistRules : list Rule) (email : Email)
  : bool :=
  match verdict whitelistRules blacklistRules email with
  | Remove => true
  | _ => false
  end.

Definition isMove (whitelistRules blacklistRules : list Rule) (email : Email)
  : bool :=
  match verdict whitelistRules blacklistRules email with
  | Move _ => true
  | _ => false
  end.

Definition onlyClassification (c : Classification) : Store.EmailUpdates :=
  {| Store.u_id := None; Store.u_subject := None; Store.u_from := None;
     Store.u_to := None; Store.u_date := None; Store.u_body := None;
     Store.u_status := None; Store.u_parsed := None;
     Store.u_classification := Some c; Store.u_senderEmail := None;
     Store.u_attachments := None |}.

Record LoopState := {
  store : DataStore;
  updatedCount : nat;
  emailsToDelete : list string
}.

Definition turn (whitelistRules blacklistRules : list Rule) (st : LoopState)
    (email : Email) : LoopState :=
  match verdict whitelistRules blacklistRules email with
  | Remove =>
      {| store := store st; updatedCount := updatedCount st;
         emailsToDelete := emailsToDelete st ++ [id email] |}
  | Move c =>
      {| store := snd (Store.updateEmail (id email) (onlyClassification c) (store st));
         updatedCount := S (updatedCount st);
         emailsToDelete := emailsToDelete st |}
  | Leave => st
  end.

Inductive Response :=
| NothingToReclassify
| Reclassified (updated deleted total : nat).

(** The handler.  [sortByDate] is the sort of [getEmails], which returns a
    sorted copy of the table; [rules] is what [getRules()] returns, and
    [rules.filter(rule => rule.type === ...)] is the filter that
    [getRules(type)] applies. *)
Definition POST (sortByDate : list Email -> list Email) (rules : list Rule)
    (db : DataStore) : Response * DataStore :=
  let snapshot := sortByDate (emails db) in
  if (length snapshot =? 0)%nat then (NothingToReclassify, db)
  else
    let whitelistRules := Store.getRules (Some whitelist) rules in
    let blacklistRules := Store.getRules (Some blacklist) rules in
    let st := fold_left (turn whitelistRules blacklistRules) snapshot
                {| store := db; updatedCount := 0; emailsToDelete := [] |} in
    let db' := fold_left (fun s wanted => snd (Store.deleteEmail wanted s))
                 (emailsToDelete st) (store st) in
    (Reclassified (updatedCount st) (length (emailsToDelete st)) (length snapshot),
     db').

(** The classification that the handler leaves on an e-mail it keeps. *)
Definition reclassified (whitelistRules blacklistRules : list Rule) (email : Email)
  : Email :=
  match verdict whitelistRules blacklistRules email with
  | Move c => Store.spread email (onlyClassification c)
  | _ => email
  end.

Definition blacklisted (rules : list Rule) (email : Email) : bool :=
  existsb (ruleMatches (senderOf email)) (Store.getRules (Some blacklist) rules).

Definition whitelisted (rules : list Rule) (email : Email) : bool :=
  existsb (ruleMatches (senderOf email)) (Store.getRules (Some whitelist) rules).

End Reclassify.

(** ** Archive clean-up (cleanup-service) *)

Module Cleanup.

Record CleanupResult := {
  deletedCount : nat;
  errors : list string;
  totalChecked : nat
}.

Section WithClock.

(** [new Date(s).getTime()]; [None] for an invalid date, which compares
    false with everything. *)
Variable timeOf : string -> option Z.
(** The time of [cutoffDate], now moved back by the retention days, as
    [cutoffDate.toISOString()] lets it through: an invalid date throws. *)
Variable cutoffTime : nat -> Result Z.
Variable sortByDate : list Email -> list Email.

(** [settings.cleanupRetentionDays || 30] *)
Definition retentionDays (cleanupRetentionDays : nat) : nat :=
  match cleanupRetentionDays with
  | O => 30%nat
  | n => n
  end.

(** [email.classification === 'pending' && new Date(email.date) < cutoffDate] *)
Definition isOldArchived (cutoff : Z) (email : Email) : bool :=
  Reclassify.Classification_eqb (classification email) cls_pending
  && match timeOf (date email) with
     | Some t => (t <? cutoff)%Z
     | None => false
     end.

Definition deleteOne (st : CleanupResult * DataStore) (email : Email)
  : CleanupResult * DataStore :=
  let '(result, db) := st in
  match Store.deleteEmail (id email) db with
  | (true, db') =>
      ({| deletedCount := S (deletedCount result); errors := errors result;
          totalChecked := totalChecked result |}, db')
  | (false, db') =>
      ({| deletedCount := deletedCount result;
          errors := errors result ++ ["Failed to delete email: " +:+ subject email];
          totalChecked := totalChecked result |}, db')
  end.

(** [performArchiveCleanup] with the settings at hand.  The outer [catch]
    is reached before anything is deleted. *)
Definition performArchiveCleanup (autoCleanupEnabled : bool)
    (cleanupRetentionDays : nat) (db : DataStore) : CleanupResult * DataStore :=
  if negb autoCleanupEnabled
  then ({| deletedCount := 0; errors := []; totalChecked := 0 |}, db)
  else
    match cutoffTime (retentionDays cleanupRetentionDays) with
    | Throw errorMessage =>
        ({| deletedCount := 0; errors := [errorMessage]; totalChecked := 0 |}, db)
    | Ok cutoff =>
        let allEmails := sortByDate (emails db) in
        let archivedEmails := List.filter (isOldArchived cutoff) allEmails in
        if (length archivedEmails =? 0)%nat
        then ({| deletedCount := 0; errors := [];
                 totalChecked := length allEmails |}, db)
        else
          fold_left deleteOne archivedEmails
            ({| deletedCount := 0; errors := [];
                totalChecked := length allEmails |}, db)
    end.

End WithClock.

End Cleanup.

(** ** Scenario data *)

Module Scenarios.

Import RuleMatcher.

(** The sender and rule set on which the two modes disagree. *)
Definition bothListed : list Rule :=
  [ {| rule_id := "1"; rule_type := whitelist; pattern := "a@x.com";
       description := "vip"; active := true |};
    {| rule_id := "2"; rule_type := blacklist; pattern := "a@x.com";
       description := "spam"; active := true |} ].

(** A rule that has been switched off. *)
Definition dormantRule : list Rule :=
  [ {| rule_id := "3"; rule_type := blacklist; pattern := "a@x.com";
       description := "old"; active := false |} ].

Definition plainSettings : Settings :=
  {| username := "me@shop.test"; useAiProcessing := false; aiProvider := ollama;
     googleApiKey := None; orderKeywords := None; estimateKeywords := None;
     classificationInstructions := None;
     _whitelistMap := None; _blacklistMap := None |}.

Definition mailFrom (fromField sender : string) : Email :=
  {| id := "temp"; subject := "Hello"; from := fromField; to := "me@shop.test";
     date := "2024-01-15T00:00:00.000Z"; body := "Hi"; status := st_processed;
     parsed := None; classification := cls_pending;
     senderEmail := Some sender; attachments := [] |}.

(** The scenario of the keyword stage. *)
Definition quoteMail : Email :=
  {| id := "e1"; subject := "Quote for widgets"; from := "Bob <bob@acme.test>";
     to := "me@shop.test"; date := "2024-01-15T00:00:00.000Z";
     body := "Please send pricing for 200 widgets.";
     status := st_processed; parsed := None; classification := cls_unsorted;
     senderEmail := Some "bob@acme.test"; attachments := [] |}.

Definition quoteSettings : Settings :=
  {| username := "me@shop.test"; useAiProcessing := false; aiProvider := ollama;
     googleApiKey := None; orderKeywords := None;
     estimateKeywords := Some "quote,estimate";
     classificationInstructions := None;
     _whitelistMap := None; _blacklistMap := None |}.

(** Mailbox scenarios. *)
Definition noAI (_ : Email) (_ : Settings) : ClassificationResult :=
  {| cr_type := other; cr_confidence := 0;
     cr_reasoning := "AI classification failed: fetch failed" |}.

Definition emptyStore : DataStore := {| emails := []; idCounter := 0 |}.

Definition mailOf (fromText subjectText : string) : Pipeline.ParsedMail :=
  {| Pipeline.pm_from := Some fromText;
     Pipeline.pm_subject := Some subjectText;
     Pipeline.pm_to := Some "me@shop.test";
     Pipeline.pm_date := Some "2024-01-15T09:30:00.000Z";
     Pipeline.pm_text := Some "See attached.";
     Pipeline.pm_html := None;
     Pipeline.pm_attachments := [] |}.

Definition transferNotice : Pipeline.FetchedMessage :=
  {| Pipeline.uid := 7;
     Pipeline.simpleParser :=
       Ok (mailOf "WeTransfer <noreply@wetransfer.com>" "Files sent to you") |}.

Definition transferBlacklist : list Rule :=
  [ {| rule_id := "1"; rule_type := blacklist; pattern := "noreply@wetransfer.com";
       description := "no notices"; active := true |} ].

Definition promoMessage : Pipeline.FetchedMessage :=
  {| Pipeline.uid := 11;
     Pipeline.simpleParser := Ok (mailOf "Promo <promo@spam.test>" "Big sale") |}.

Definition brokenMessage : Pipeline.FetchedMessage :=
  {| Pipeline.uid := 12;
     Pipeline.simpleParser := Throw "Invalid MIME structure" |}.

Definition customerMessage : Pipeline.FetchedMessage :=
  {| Pipeline.uid := 13;
     Pipeline.simpleParser := Ok (mailOf "Bob <bob@acme.test>" "Order 42") |}.

Definition promoBlacklist : list Rule :=
  [ {| rule_id := "1"; rule_type := blacklist; pattern := "promo@spam.test";
       description := "promotions"; active := true |} ].

Definition clock : string := "2024-01-15T10:00:00.000Z".

Definition transferSettings : Settings :=
  RuleMatcher.optimizedSettings transferBlacklist plainSettings.

Definition promoSettings : Settings :=
  RuleMatcher.optimizedSettings promoBlacklist plainSettings.

(** Extraction scenarios.  [q] is the double-quote character. *)
Definition q : string := String "034"%char EmptyString.

Definition replyBare : string :=
  "Here is the data: {" +:+ q +:+ "items" +:+ q +:+ ":[]} Thanks".

Definition replyNamed : string :=
  "{" +:+ q +:+ "customerName" +:+ q +:+ ":" +:+ q +:+ "Bob" +:+ q +:+ ","
  +:+ q +:+ "items" +:+ q +:+ ":[]}".

(** A [JSON.parse] that knows the two replies above. *)
Definition parseKnown (text : string) : Result JSON :=
  if String.eqb text ("{" +:+ q +:+ "items" +:+ q +:+ ":[]}")
  then Ok (JObj [("items", JArr [])])
  else if String.eqb text replyNamed
  then Ok (JObj [("customerName", JStr "Bob"); ("items", JArr [])])
  else Throw "Unexpected token in JSON".

Definition orderMail : Email :=
  {| id := "e7"; subject := "RUSH order 42"; from := "Bob Stone <bob@acme.test>";
     to := "me@shop.test"; date := "2024-01-15T09:30:00.000Z";
     body := "Need 500 flyers by Friday.";
     status := st_processed;
     parsed := Some {| parsed_type := order; parsed_data := JNull;
                       parsed_confidence := 8 # 10 |};
     classification := cls_inbox;
     senderEmail := Some "bob@acme.test";
     attachments := [ {| filename := "art.pdf"; contentType := "application/pdf";
                         size := 1024; data := Some "%PDF" |} ] |}.

Definition ollamaSettings : Settings :=
  {| username := "me@shop.test"; useAiProcessing := true; aiProvider := ollama;
     googleApiKey := None; orderKeywords := None; estimateKeywords := None;
     classificationInstructions := None;
     _whitelistMap := None; _blacklistMap := None |}.

Definition noRefetch (_ : Email) (_ : Settings) : Result Email :=
  Throw "IMAP connection refused".

Definition googleDown (_ : Email) (_ : Extractor.TargetType) : Result string :=
  Throw "fetch failed".

Definition ollamaBare (_ : Email) (_ : Extractor.TargetType) : Result string :=
  Ok replyBare.

Definition diskFull (_ : Email) (_ : Settings) (_ : option JSON)
  : Result Extractor.EmailFileData :=
  Throw "ENOSPC: no space left on device".

Definition noJsonFile (_ : string) (_ : JSON) (_ : Extractor.TargetType)
  : Result string :=
  Throw "ENOSPC: no space left on device".

(** Job and stop scenarios. *)
Definition twoSubmissions : list JobQueue.Event :=
  [ JobQueue.Submit JobQueue.email_processing plainSettings;
    JobQueue.Submit JobQueue.email_processing plainSettings;
    JobQueue.Resume 1 100;
    JobQueue.Resume 2 101 ].

Definition firstFinishes : list JobQueue.Event :=
  [ JobQueue.Settle 1 200 (Ok {| Pipeline.processedCount := 0; Pipeline.errors := [] |});
    JobQueue.Finally 1 ].

Definition idle : StopFlag.Flags :=
  {| StopFlag.shouldStop := false; StopFlag.shouldStopParsing := false;
     StopFlag.timers := [] |}.

Definition stopRequested : StopFlag.World :=
  {| StopFlag.flags := StopFlag.POST 0 idle; StopFlag.db := emptyStore |}.

Definition allUpdated (_ : Email) : StopFlag.Outcome := StopFlag.Updated.

Definition namedSender : string := "Acme Print & Sign <orders@acme.test>".

Definition storedAs (newId : string) (sender : string) (c : Classification)
  : Email :=
  {| id := newId; subject := "Job"; from := sender; to := "shop@parseflow.test";
     date := "2024-05-01T10:00:00.000Z"; body := "Please print";
     status := st_unprocessed; parsed := None; classification := c;
     senderEmail := Some sender; attachments := [] |}.

Definition threeStored : DataStore :=
  {| emails := [ storedAs "1" "ann@acme.test" cls_inbox;
                 storedAs "2" "bob@spam.test" cls_unsorted;
                 storedAs "3" "cy@old.test" cls_pending ];
     idCounter := 3 |}.

Definition readOnlyDisk (table : list Rule) : Result unit := Throw "EROFS".

Definition spamRule : Rule :=
  {| rule_id := "temp"; rule_type := blacklist; pattern := "spam.test";
     description := "bulk mail"; active := false |}.

Definition mixedRules : list Rule :=
  [ {| rule_id := "r1"; rule_type := whitelist; pattern := "acme.test";
       description := "customer"; active := true |};
    spamRule ].

(** A clock for the archive clean-up: the cut-off in milliseconds, and
    the time of the two dates that the stored e-mails carry. *)
Definition cutoffMay (retention : nat) : Result Z := Ok 1714000000000%Z.

Definition monthOf (d : string) : option Z :=
  if String.eqb d "2024-05-01T10:00:00.000Z" then Some 1714557600000%Z
  else if String.eqb d "2024-01-15T00:00:00.000Z" then Some 1705276800000%Z
  else None.

Definition agedStore : DataStore :=
  {| emails := [ storedAs "1" "ann@acme.test" cls_inbox;
                 storedAs "2" "bob@spam.test" cls_pending;
                 withId "3" (mailFrom "Cy <cy@old.test>" "cy@old.test") ];
     idCounter := 3 |}.

Definition finishedJob (n : nat) : JobQueue.Job :=
  {| JobQueue.job_id := n; JobQueue.job_type := JobQueue.email_processing;
     JobQueue.job_status := JobQueue.completed; JobQueue.progress := 100;
     JobQueue.startTime := Some n; JobQueue.endTime := Some (S n);
     JobQueue.result := Some {| Pipeline.processedCount := 0; Pipeline.errors := [] |};
     JobQueue.error := None; JobQueue.settings := None;
     JobQueue.currentOperation := None; JobQueue.totalEmails := None;
     JobQueue.processedEmails := None |}.

Definition elevenFinished : JobQueue.Queue :=
  {| JobQueue.jobs := List.map (fun n => (n, finishedJob n)) (seq 1 11);
     JobQueue.currentJob := None;
     JobQueue.jobIdCounter := 11 |}.

(** A provider that cannot be reached, with AI processing switched on. *)
Definition noJson (text : string) : Result JSON := Throw "Unexpected token".

Definition plainRender (value : JSON) : string := "[object Object]".

Definition noReply (email : Email) (settings : Settings)
  : Result (option string) := Throw "fetch failed".

Definition aiSettings : Settings :=
  {| username := "me@shop.test"; useAiProcessing := true; aiProvider := ollama;
     googleApiKey := None; orderKeywords := None;
     estimateKeywords := Some "quote,estimate";
     classificationInstructions := None;
     _whitelistMap := None; _blacklistMap := None |}.

(** Keywords written with capitals, blanks and an empty entry. *)
Definition shoutedSettings : Settings :=
  {| username := "me@shop.test"; useAiProcessing := false; aiProvider := ollama;
     googleApiKey := None; orderKeywords := Some "Purchase Order, PO#";
     estimateKeywords := Some " Quote , ESTIMATE,, bid ";
     classificationInstructions := None;
     _whitelistMap := None; _blacklistMap := None |}.

Definition shoutedMail : Email :=
  {| id := "e7"; subject := "RE: QUOTE needed"; from := "Bob <bob@acme.test>";
     to := "me@shop.test"; date := "2024-01-15T00:00:00.000Z";
     body := "Could you Estimate 40 signs?";
     status := st_processed; parsed := None; classification := cls_unsorted;
     senderEmail := Some "bob@acme.test"; attachments := [] |}.

End Scenarios.

(** * Properties *)

(** ** Rule matcher *)

Module RuleMatcherFacts.

Import RuleMatcher Scenarios.

Lemma try_catch_resolves {A : Type} (body : Result A) (h : string -> A) :
  resolves (try_catch body (fun m => Ok (h m))).
Proof. destruct body as [a | m]; simpl; [exists a | exists (h m)]; reflexivity. Qed.

Lemma includes_refl s : JS.includes s s = true.
Proof.
  assert (H : forall t, JS.startsWith t t = true).
  { induction t as [| c t IH]; simpl; [reflexivity |].
    rewrite Ascii.eqb_refl, IH. reflexivity. }
  destruct s; simpl; [reflexivity | rewrite Ascii.eqb_refl, H; reflexivity].
Qed.

Lemma exact_is_contained sender rule :
  String.eqb (JS.toLowerCase (pattern rule)) sender = true ->
  containsEither sender rule = true.
Proof.
  intros H. apply String.eqb_eq in H. unfold containsEither.
  rewrite H, includes_refl. reflexivity.
Qed.

Lemma exactScan_some sender rules r :
  exactScan sender rules = Some r ->
  exists rule, In rule rules /\ route_of (rule_type rule) = r
               /\ containsEither sender rule = true.
Proof.
  induction rules as [| rule rest IH]; simpl; [discriminate |].
  destruct (String.eqb (JS.toLowerCase (pattern rule)) sender) eqn:E.
  - intros [= <-]. exists rule. auto using exact_is_contained.
  - intros H. destruct (IH H) as (x & Hin & Hr & Hc). exists x. auto.
Qed.

Lemma patternScan_some sender rules r :
  patternScan sender rules = Some r ->
  exists rule, In rule rules /\ route_of (rule_type rule) = r
               /\ containsEither sender rule = true.
Proof.
  induction rules as [| rule rest IH]; simpl; [discriminate |].
  destruct (containsEither sender rule) eqn:E.
  - intros [= <-]. exists rule. auto.
  - intros H. destruct (IH H) as (x & Hin & Hr & Hc). exists x. auto.
Qed.

Lemma patternScan_none sender rules :
  patternScan sender rules = None <->
  forall rule, In rule rules -> containsEither sender rule = false.
Proof.
  induction rules as [| rule rest IH]; simpl.
  - split; [intros _ ? [] | reflexivity].
  - destruct (containsEither sender rule) eqn:E.
    + split; [discriminate |]. intros H. specialize (H rule (or_introl eq_refl)).
      congruence.
    + rewrite IH. split.
      * intros H x [<- | Hin]; auto.
      * intros H x Hin. apply H. auto.
Qed.

(** The linear scan answers with the type of some accepted rule, and
    with [unsorted] only when no rule is accepted. *)
Lemma linearScan_cases sender rules :
  (exists rule, In rule rules /\ containsEither sender rule = true
                /\ linearScan sender rules = route_of (rule_type rule))
  \/ ((forall rule, In rule rules -> containsEither sender rule = false)
      /\ linearScan sender rules = unsorted).
Proof.
  unfold linearScan. destruct (exactScan sender rules) as [r |] eqn:E.
  - left. destruct (exactScan_some _ _ _ E) as (x & Hin & Hr & Hc).
    exists x. auto.
  - destruct (patternScan sender rules) as [r |] eqn:P.
    + left. destruct (patternScan_some _ _ _ P) as (x & Hin & Hr & Hc).
      exists x. auto.
    + right. split; [| reflexivity]. apply patternScan_none. exact P.
Qed.

(** Linear scan: a sender accepted only by whitelist rules goes to the
    inbox; a sender accepted by no rule is unsorted. *)
Lemma linearScan_only_whitelist sender rules :
  matchesSome whitelist sender rules ->
  ~ matchesSome blacklist sender rules ->
  linearScan sender rules = inbox.
Proof.
  intros (w & Hw & Htw & Hcw) Hnb.
  destruct (linearScan_cases sender rules) as [(x & Hin & Hc & ->) | [Hnone _]].
  - destruct (rule_type x) eqn:T; [reflexivity |].
    exfalso. apply Hnb. exists x. auto.
  - rewrite (Hnone w Hw) in Hcw. discriminate.
Qed.

Lemma linearScan_no_rule sender rules :
  ~ matchesSome whitelist sender rules ->
  ~ matchesSome blacklist sender rules ->
  linearScan sender rules = unsorted.
Proof.
  intros Hnw Hnb.
  destruct (linearScan_cases sender rules) as [(x & Hin & Hc & _) | [_ H]];
    [| exact H].
  exfalso. destruct (rule_type x) eqn:T; [apply Hnw | apply Hnb]; exists x; auto.
Qed.

(** Set lookup: the blacklist set is consulted first. *)
Lemma setLookup_spec sender (wl bl : gset string) :
  (sender ∈ bl -> setLookup sender wl bl = skip)
  /\ (sender ∉ bl -> sender ∈ wl -> setLookup sender wl bl = inbox)
  /\ (sender ∉ bl -> sender ∉ wl -> setLookup sender wl bl = unsorted).
Proof.
  unfold setLookup. repeat split; intros; repeat case_bool_decide; tauto.
Qed.

Lemma setLookup_skip_iff sender (wl bl : gset string) :
  setLookup sender wl bl = skip <-> sender ∈ bl.
Proof.
  unfold setLookup. repeat case_bool_decide; split; intros; try tauto; discriminate.
Qed.

Lemma checkWhitelistStatus_resolves getRules email settings :
  resolves (checkWhitelistStatus getRules email settings).
Proof. apply (try_catch_resolves _ (fun _ => unsorted)). Qed.

(** C2 (rule precedence).  The sender a@x.com is listed by an active
    whitelist rule and by an active blacklist rule.  The set lookup of an
    optimized job answers [skip]; the linear scan of a plain job answers
    [inbox], because the whitelist rule comes first in the store and the
    scan returns at the first accepted rule. *)
Theorem C2_linear_scan_returns_at_first_rule :
  matchesSome whitelist "a@x.com" bothListed
  /\ matchesSome blacklist "a@x.com" bothListed
  /\ checkWhitelistStatus (Ok bothListed) (mailFrom "A <a@x.com>" "a@x.com")
       (optimizedSettings bothListed plainSettings) = Ok skip
  /\ checkWhitelistStatus (Ok bothListed) (mailFrom "A <a@x.com>" "a@x.com")
       plainSettings = Ok inbox.
Proof.
  split; [| split; [| split]].
  - eexists. split; [left; reflexivity |]. split; reflexivity.
  - eexists. split; [right; left; reflexivity |]. split; reflexivity.
  - vm_compute. reflexivity.
  - vm_compute. reflexivity.
Qed.

(** The linear scan does not read [active]: a rule that is switched off
    still routes its sender, whereas the rule sets of an optimized job are
    built from the active rules only. *)
Lemma linear_scan_ignores_active :
  checkWhitelistStatus (Ok dormantRule) (mailFrom "A <a@x.com>" "a@x.com")
    plainSettings = Ok skip
  /\ checkWhitelistStatus (Ok dormantRule) (mailFrom "A <a@x.com>" "a@x.com")
       (optimizedSettings dormantRule plainSettings) = Ok unsorted.
Proof. split; vm_compute; reflexivity. Qed.

(** C10 ([checkWhitelistStatus] never rejects).  The call always
    resolves; whenever the evaluation of the rules throws, whatever the
    error, it resolves to [unsorted]; in particular a rule store that throws
    makes the linear scan answer [unsorted], never [skip] or [inbox]. *)
Theorem C10_checkWhitelistStatus_never_rejects
    (getRules : Result (list Rule)) (email : Email) (settings : Settings) :
  resolves (checkWhitelistStatus getRules email settings)
  /\ (forall m, checkWhitelistStatus_try getRules email settings = Throw m ->
                checkWhitelistStatus getRules email settings = Ok unsorted)
  /\ (forall m, getRules = Throw m ->
                _whitelistMap settings = None \/ _blacklistMap settings = None ->
                checkWhitelistStatus getRules email settings = Ok unsorted).
Proof.
  split; [apply checkWhitelistStatus_resolves |]. split.
  - intros m H. unfold checkWhitelistStatus. rewrite H. reflexivity.
  - intros m -> H. unfold checkWhitelistStatus, checkWhitelistStatus_try.
    destruct H as [-> | ->]; [reflexivity |].
    destruct (_whitelistMap settings); reflexivity.
Qed.

Lemma C10_witness :
  checkWhitelistStatus_try (Throw "EIO: rules.json") (mailFrom "A <a@x.com>" "a@x.com")
    plainSettings = Throw "EIO: rules.json"
  /\ checkWhitelistStatus (Throw "EIO: rules.json") (mailFrom "A <a@x.com>" "a@x.com")
       plainSettings = Ok unsorted.
Proof.
  split; [reflexivity |].
  destruct (C10_checkWhitelistStatus_never_rejects
              (Throw "EIO: rules.json") (mailFrom "A <a@x.com>" "a@x.com")
              plainSettings) as (_ & H1 & H2).
  rewrite (H1 "EIO: rules.json" eq_refl).
  symmetry. apply (H2 "EIO: rules.json" eq_refl). left. reflexivity.
Defined.

End RuleMatcherFacts.


(** ** Classifier *)

Module ClassifierFacts.

Import Classifier KeywordSpec Scenarios.

Lemma score_counts_hits content keywords :
  score content keywords = length (List.filter (hit content) keywords).
Proof.
  induction keywords as [| k rest IH]; simpl; [reflexivity |].
  destruct (hit content k); simpl; rewrite IH; reflexivity.
Qed.

Lemma classifyByKeywords_cases email settings :
  let content := content_of email in
  let o := score content (keywordList (orderKeywords settings)) in
  let e := score content (keywordList (estimateKeywords settings)) in
  let r := classifyByKeywords email settings in
  ((e < o)%nat -> cr_type r = order /\ cr_confidence r = keywordConfidence o)
  /\ ((o < e)%nat -> cr_type r = estimate /\ cr_confidence r = keywordConfidence e)
  /\ (o = e -> cr_type r = other /\ cr_confidence r = 5 # 10).
Proof.
  cbv zeta. unfold classifyByKeywords.
  set (o := score _ (keywordList (orderKeywords settings))).
  set (e := score _ (keywordList (estimateKeywords settings))).
  split; [| split]; intros Hcmp.
  - assert (E1 : (e <? o)%nat = true) by (apply Nat.ltb_lt; exact Hcmp).
    assert (E2 : (0 <? o)%nat = true) by (apply Nat.ltb_lt; lia).
    rewrite E1, E2. split; reflexivity.
  - assert (E1 : (e <? o)%nat = false) by (apply Nat.ltb_ge; lia).
    assert (E2 : (o <? e)%nat = true) by (apply Nat.ltb_lt; exact Hcmp).
    assert (E3 : (0 <? e)%nat = true) by (apply Nat.ltb_lt; lia).
    rewrite E1, E2, E3. split; reflexivity.
  - assert (E1 : (e <? o)%nat = false) by (apply Nat.ltb_ge; lia).
    assert (E2 : (o <? e)%nat = false) by (apply Nat.ltb_ge; lia).
    rewrite E1, E2. split; reflexivity.
Qed.

Lemma startsWith_ignoring_case text word :
  JS.startsWith (JS.toLowerCase text) (JS.toLowerCase word)
  = startsWithIgnoringCase text word.
Proof.
  revert text. induction word as [| c word IH]; intros text;
    destruct text as [| d text]; try reflexivity.
  simpl. rewrite IH. reflexivity.
Qed.

Lemma includes_ignoring_case text word :
  JS.includes (JS.toLowerCase text) (JS.toLowerCase word)
  = occursIgnoringCase text word.
Proof.
  induction text as [| d text IH].
  - pose proof (startsWith_ignoring_case EmptyString word) as H.
    destruct word; simpl in *; rewrite ?orb_false_r; [reflexivity | exact H].
  - pose proof (startsWith_ignoring_case (String d text) word) as H.
    destruct word as [| c word].
    + reflexivity.
    + change (JS.includes (JS.toLowerCase (String d text))
                (JS.toLowerCase (String c word)))
        with (JS.startsWith (JS.toLowerCase (String d text))
                (JS.toLowerCase (String c word))
              || JS.includes (JS.toLowerCase text) (JS.toLowerCase (String c word))).
      rewrite H, IH. reflexivity.
Qed.

Lemma truthy_toLowerCase word : JS.truthy (JS.toLowerCase word) = JS.truthy word.
Proof. destruct word; reflexivity. Qed.

Lemma score_is_hitCount setting text :
  score (JS.toLowerCase text) (keywordList setting) = hitCount setting text.
Proof.
  unfold hitCount, keywords, keywordList.
  destruct setting as [s |]; [| reflexivity].
  induction (JS.split "," s) as [| k rest IH]; [reflexivity |].
  cbn [List.map score List.filter]. unfold hit at 1.
  rewrite truthy_toLowerCase, includes_ignoring_case, IH.
  destruct (JS.truthy (JS.trim k)); [| reflexivity].
  cbn [andb List.filter].
  destruct (occursIgnoringCase text (JS.trim k)); reflexivity.
Qed.

(** C9 (keyword stage).  The keywords of a list are its comma-separated
    entries without the blanks around them, empty entries left out; the
    score of a list is the number of its keywords that occur in the subject,
    a space and the body when the case of letters is ignored.  The list with
    the strictly higher score gives the type, with confidence
    min(0.8, 0.3 + 0.1 * score); equal scores (also zero hits) give [other]
    at 0.5.  For the subject Quote for widgets with estimate keywords
    quote,estimate, no order hit, no occurrence of estimate, a sender that
    is not a bulk-transfer service and AI switched off, the estimate list
    scores one hit and [classifyEmail] answers estimate at 0.4.  In binary64,
    where the program computes the confidence, the value differs from the
    rational one by at most 2^-53 for every score up to 1000: it is the
    double 0.4 at one hit, the double 0.6000000000000001 at three hits and
    the double 0.8 from five hits on. *)
Theorem C9_keyword_stage
    (classifyWithAI : Email -> Settings -> ClassificationResult)
    (email : Email) (settings : Settings) :
  let text := subject email +:+ " " +:+ body email in
  let o := hitCount (orderKeywords settings) text in
  let e := hitCount (estimateKeywords settings) text in
  let r := classifyByKeywords email settings in
  ((e < o)%nat ->
     cr_type r = order
     /\ cr_confidence r = Qmin (8 # 10) ((3 # 10) + inject_Z (Z.of_nat o) * (1 # 10)))
  /\ ((o < e)%nat ->
     cr_type r = estimate
     /\ cr_confidence r = Qmin (8 # 10) ((3 # 10) + inject_Z (Z.of_nat e) * (1 # 10)))
  /\ (o = e -> cr_type r = other /\ cr_confidence r = 5 # 10)
  /\ (subject email = "Quote for widgets" ->
      estimateKeywords settings = Some "quote,estimate" ->
      o = 0%nat ->
      occursIgnoringCase text "estimate" = false ->
      isWeTransferEmail email = false ->
      useAiProcessing settings = false ->
      e = 1%nat
      /\ exists res,
           classifyEmail classifyWithAI email settings = Ok res
           /\ cr_type res = estimate /\ cr_confidence res == 4 # 10)
  /\ (forallb (fun n => Binary64.within (1 # 2 ^ 53)
                          (Binary64.keywordConfidence n)
                          (Qmin (8 # 10) ((3 # 10) + inject_Z (Z.of_nat n) * (1 # 10))))
              (seq 0 1001) = true
      /\ (Binary64.keywordConfidence 1 =? 0.4)%float = true
      /\ (Binary64.keywordConfidence 3 =? 0.6000000000000001)%float = true
      /\ forallb (fun n => Binary64.keywordConfidence n =? 0.8)%float (seq 5 996) = true).
Proof.
  cbv zeta. rewrite <- !score_is_hitCount.
  destruct (classifyByKeywords_cases email settings) as (Ho & He & Hoe).
  cbv zeta in Ho, He, Hoe. unfold content_of in Ho, He, Hoe.
  split; [exact Ho |]. split; [exact He |]. split; [exact Hoe |].
  split; [| repeat split; vm_compute; reflexivity].
  intros Hs Hk Hz Hne Hw Hai.
  rewrite <- (includes_ignoring_case _ "estimate") in Hne.
  change (JS.toLowerCase "estimate") with "estimate" in Hne.
  assert (E : score (JS.toLowerCase (subject email +:+ " " +:+ body email))
                    (keywordList (estimateKeywords settings)) = 1%nat).
  { rewrite Hk. rewrite Hs in Hne |- *.
    change (keywordList (Some "quote,estimate")) with ["quote"; "estimate"].
    cbn [score]. unfold hit at 2. rewrite Hne. cbn. reflexivity. }
  split; [exact E |].
  destruct He as [Ht Hc]; [rewrite Hz, E; lia |].
  exists (classifyByKeywords email settings).
  split; [| split].
  - unfold classifyEmail, classifyEmail_try. rewrite Hw, Hc, E, Hai.
    reflexivity.
  - exact Ht.
  - rewrite Hc, E. reflexivity.
Qed.

Lemma C9_witness :
  (hitCount (estimateKeywords quoteSettings)
     (subject quoteMail +:+ " " +:+ body quoteMail) = 1%nat
   /\ exists res,
        classifyEmail noAI quoteMail quoteSettings = Ok res
        /\ cr_type res = estimate /\ cr_confidence res == 4 # 10)
  /\ (hitCount (orderKeywords shoutedSettings)
        (subject shoutedMail +:+ " " +:+ body shoutedMail) = 0%nat
      /\ hitCount (estimateKeywords shoutedSettings)
           (subject shoutedMail +:+ " " +:+ body shoutedMail) = 2%nat
      /\ cr_type (classifyByKeywords shoutedMail shoutedSettings) = estimate
      /\ cr_confidence (classifyByKeywords shoutedMail shoutedSettings) == 5 # 10).
Proof.
  destruct (C9_keyword_stage noAI quoteMail quoteSettings)
    as (_ & _ & _ & Scene & _).
  destruct (C9_keyword_stage noAI shoutedMail shoutedSettings)
    as (_ & He & _).
  split; [apply Scene; reflexivity |].
  split; [reflexivity |]. split; [reflexivity |].
  destruct He as [Ht Hc]; [vm_compute; lia |].
  split; [exact Ht |]. rewrite Hc. reflexivity.
Defined.

End ClassifierFacts.


(** ** Ingestion pipeline *)

Module PipelineFacts.

Import RuleMatcher Pipeline Scenarios.

Section Pass.

Variable classifyWithAI : Email -> Settings -> ClassificationResult.
Variable getRules : Result (list Rule).
Variable now : string.
Variable settings : Settings.

#[local] Abbreviation classifyMessage := (classifyMessage classifyWithAI getRules now settings).
#[local] Abbreviation iteration := (iteration classifyWithAI getRules now settings).
#[local] Abbreviation runLoop := (runLoop classifyWithAI getRules now settings).
#[local] Abbreviation isStored := (isStored classifyWithAI getRules now settings).
#[local] Abbreviation isSkipped := (isSkipped classifyWithAI getRules now settings).
#[local] Abbreviation throws := (throws classifyWithAI getRules now settings).
#[local] Abbreviation errorsFrom := (errorsFrom classifyWithAI getRules now settings).
#[local] Abbreviation storable := (storable getRules settings).

(** Routing reads nothing but the sender address. *)
Lemma checkWhitelistStatus_sender (e1 e2 : Email) :
  senderEmail e1 = senderEmail e2 ->
  checkWhitelistStatus getRules e1 settings = checkWhitelistStatus getRules e2 settings.
Proof.
  intros H. unfold checkWhitelistStatus, checkWhitelistStatus_try, normalizedSender.
  rewrite H. reflexivity.
Qed.

Lemma isWeTransferEmail_sender (e1 e2 : Email) :
  senderEmail e1 = senderEmail e2 -> from e1 = from e2 ->
  isWeTransferEmail e1 = isWeTransferEmail e2.
Proof. intros H1 H2. unfold isWeTransferEmail. rewrite H1, H2. reflexivity. Qed.

Lemma classifyEmail_resolves email :
  resolves (Classifier.classifyEmail classifyWithAI email settings).
Proof.
  unfold Classifier.classifyEmail.
  apply (RuleMatcherFacts.try_catch_resolves _
           (fun _ => {| cr_type := other; cr_confidence := 0;
                        cr_reasoning := "Classification failed due to error" |})).
Qed.

(** What [processEmailClassification] hands back for storing. *)
Lemma processEmailClassification_some email e :
  processEmailClassification classifyWithAI getRules email settings = Ok (Some e) ->
  senderEmail e = senderEmail email /\ from e = from email
  /\ routedToStore getRules settings email.
Proof.
  unfold processEmailClassification, processEmailClassification_try, routedToStore.
  destruct (RuleMatcherFacts.checkWhitelistStatus_resolves getRules email settings)
    as [route ->].
  destruct (classifyEmail_resolves email) as [cr Hcr].
  destruct route; simpl; try rewrite Hcr; simpl; intros [= <-]; simpl; auto.
Qed.

Lemma processEmailClassification_none email :
  processEmailClassification classifyWithAI getRules email settings = Ok None <->
  checkWhitelistStatus getRules email settings = Ok skip.
Proof.
  unfold processEmailClassification, processEmailClassification_try.
  destruct (RuleMatcherFacts.checkWhitelistStatus_resolves getRules email settings)
    as [route ->].
  destruct (classifyEmail_resolves email) as [cr Hcr].
  destruct route; simpl; try rewrite Hcr; simpl; split; intros H;
    try discriminate; try reflexivity.
Qed.

Lemma routedToStore_sender (e1 e2 : Email) :
  senderEmail e1 = senderEmail e2 ->
  routedToStore getRules settings e1 -> routedToStore getRules settings e2.
Proof.
  intros H. unfold routedToStore.
  rewrite (checkWhitelistStatus_sender e1 e2 H). tauto.
Qed.

Lemma classifyMessage_some message e :
  classifyMessage message = Ok (Some e) -> storable e.
Proof.
  unfold Pipeline.classifyMessage.
  destruct (simpleParser message) as [p | m]; simpl; [| discriminate].
  destruct (isWeTransferEmail (emailOfParsed now settings p)) eqn:W.
  - intros [= <-]. left. rewrite <- W. apply isWeTransferEmail_sender; reflexivity.
  - intros H. right. apply processEmailClassification_some in H.
    destruct H as (Hs & _ & Hr).
    apply (routedToStore_sender (emailOfParsed now settings p)); [symmetry |]; assumption.
Qed.

Lemma storable_withId newId e : storable e -> storable (withId newId e).
Proof.
  intros [W | R]; [left | right].
  - rewrite <- W. apply isWeTransferEmail_sender; reflexivity.
  - apply (routedToStore_sender e); [reflexivity | exact R].
Qed.

(** One iteration: counters, error entries and the growth of the table. *)
Lemma iteration_spec st message :
  let st' := iteration st message in
  count st' = (count st + (if isStored message then 1 else 0))%nat
  /\ errs st' = errs st ++ errorsFrom (messageCount st) [message]
  /\ messageCount st' = S (messageCount st)
  /\ exists added,
       emails (store st') = emails (store st) ++ added
       /\ Forall storable added.
Proof.
  cbv zeta.
  unfold Pipeline.iteration, Pipeline.isStored, Pipeline.errorsFrom.
  destruct (classifyMessage message) as [[e |] | m] eqn:C; simpl.
  - split; [lia |]. split; [rewrite app_nil_r; reflexivity |]. split; [reflexivity |].
    eexists. split; [reflexivity |].
    constructor; [| constructor].
    apply storable_withId. apply (classifyMessage_some message). exact C.
  - split; [lia |]. split; [rewrite app_nil_r; reflexivity |]. split; [reflexivity |].
    exists []. rewrite app_nil_r. split; [reflexivity | constructor].
  - split; [lia |]. split; [reflexivity |]. split; [reflexivity |].
    exists []. rewrite app_nil_r. split; [reflexivity | constructor].
Qed.

Lemma errorsFrom_cons n message rest :
  errorsFrom n (message :: rest) = errorsFrom n [message] ++ errorsFrom (S n) rest.
Proof. simpl. destruct (classifyMessage message); reflexivity. Qed.

(** The loop. *)
Lemma runLoop_spec messages st :
  let final := runLoop messages st in
  count final = (count st + length (List.filter isStored messages))%nat
  /\ errs final = errs st ++ errorsFrom (messageCount st) messages
  /\ messageCount final = (messageCount st + length messages)%nat
  /\ exists added,
       emails (store final) = emails (store st) ++ added
       /\ Forall storable added.
Proof.
  revert st. induction messages as [| message rest IH]; intros st; cbv zeta.
  - simpl. rewrite !Nat.add_0_r, app_nil_r.
    split; [reflexivity |]. split; [reflexivity |]. split; [reflexivity |].
    exists []. rewrite app_nil_r. split; [reflexivity | constructor].
  - change (runLoop (message :: rest) st) with (runLoop rest (iteration st message)).
    destruct (IH (iteration st message)) as (Hc & He & Hm & added & Ha & Hf).
    destruct (iteration_spec st message) as (Hc1 & He1 & Hm1 & added1 & Ha1 & Hf1).
    rewrite Hc, He, Hm, Ha, Hc1, He1, Hm1, Ha1.
    split; [| split; [| split]].
    + simpl List.filter. destruct (isStored message); simpl; lia.
    + rewrite (errorsFrom_cons _ message rest), app_assoc. reflexivity.
    + simpl. lia.
    + exists (added1 ++ added). split; [rewrite app_assoc; reflexivity |].
      apply Forall_app. auto.
Qed.

Lemma errorsFrom_clean n messages :
  Forall (fun x => throws x = false) messages -> errorsFrom n messages = [].
Proof.
  revert n. induction messages as [| x rest IH]; intros n H; simpl; [reflexivity |].
  inversion H as [| ? ? Hx Hrest]; subst.
  unfold Pipeline.throws in Hx.
  destruct (classifyMessage x); [apply IH; exact Hrest | discriminate].
Qed.

Lemma errorsFrom_app n pre post :
  errorsFrom n (pre ++ post) = errorsFrom n pre ++ errorsFrom (n + length pre) post.
Proof.
  revert n. induction pre as [| x rest IH]; intros n; simpl.
  - rewrite Nat.add_0_r. reflexivity.
  - rewrite IH, <- Nat.add_succ_comm.
    destruct (classifyMessage x); reflexivity.
Qed.

(** Every message is stored, skipped or in error. *)
Lemma outcome_partition messages :
  (length (List.filter isStored messages)
   + length (List.filter isSkipped messages)
   + length (List.filter throws messages) = length messages)%nat.
Proof.
  induction messages as [| x rest IH]; simpl; [reflexivity |].
  unfold Pipeline.isStored, Pipeline.isSkipped, Pipeline.throws in *.
  destruct (classifyMessage x) as [[e |] | m]; simpl; lia.
Qed.

Lemma filter_throws_clean messages :
  Forall (fun x => throws x = false) messages -> List.filter throws messages = [].
Proof.
  induction 1 as [| x rest Hx _ IH]; simpl; [reflexivity |].
  rewrite Hx. exact IH.
Qed.

End Pass.

(** C1, as stated, fails: a bulk-transfer notice is stored without being
    routed.  Its sender is an active blacklist pattern, the rule matcher
    answers [skip] for it, and after the pass the e-mail is in the store. *)
Lemma C1_blacklisted_notice_is_stored :
  exists e,
    emails (snd (processEmails noAI (Ok transferBlacklist) clock transferSettings
                   (Ok [transferNotice]) emptyStore)) = [e]
    /\ senderEmail e = Some "noreply@wetransfer.com"
    /\ matchesSome blacklist "noreply@wetransfer.com"
         (List.filter active transferBlacklist)
    /\ checkWhitelistStatus (Ok transferBlacklist) e transferSettings = Ok skip.
Proof.
  eexists. split; [vm_compute; reflexivity |].
  split; [reflexivity |]. split.
  - eexists. split; [left; reflexivity |]. split; reflexivity.
  - vm_compute. reflexivity.
Qed.

(** In the linear scan a sender that some blacklist rule accepts and no
    whitelist rule accepts is routed to [skip]. *)
Lemma linearScan_only_blacklist sender rules :
  matchesSome blacklist sender rules ->
  ~ matchesSome whitelist sender rules ->
  linearScan sender rules = skip.
Proof.
  intros (b & Hb & Htb & Hcb) Hnw.
  destruct (RuleMatcherFacts.linearScan_cases sender rules)
    as [(x & Hin & Hc & ->) | [Hnone _]].
  - destruct (rule_type x) eqn:T; [| reflexivity].
    exfalso. apply Hnw. exists x. auto.
  - rewrite (Hnone b Hb) in Hcb. discriminate.
Qed.

(** C1, amended.  A pass only appends to the e-mail table, and every
    e-mail it appends is a bulk-transfer notice (these bypass the rule
    matcher) or was routed to the inbox or to the unsorted list: an e-mail
    routed to [skip] is never handed to [addEmail].  For an optimized job no
    appended e-mail other than a bulk-transfer notice has a sender in the set
    of active blacklist patterns.  For a plain job, whose rules are read
    from the store, no appended e-mail other than a bulk-transfer notice has
    a sender that a blacklist rule accepts (by equality or by containment
    either way), unless a whitelist rule accepts it too. *)
Theorem C1_skipped_mail_is_never_stored
    (classifyWithAI : Email -> Settings -> ClassificationResult)
    (getRules : Result (list Rule)) (now : string) (settings : Settings)
    (fetched : Result (list FetchedMessage)) (db : DataStore) :
  exists added,
    emails (snd (processEmails classifyWithAI getRules now settings fetched db))
      = emails db ++ added
    /\ Forall (storable getRules settings) added
    /\ (forall wl bl,
          _whitelistMap settings = Some wl -> _blacklistMap settings = Some bl ->
          Forall (fun e => isWeTransferEmail e = true \/ normalizedSender e ∉ bl)
                 added)
    /\ (forall rules,
          getRules = Ok rules ->
          _whitelistMap settings = None \/ _blacklistMap settings = None ->
          Forall (fun e =>
                    isWeTransferEmail e = true
                    \/ (matchesSome blacklist (normalizedSender e) rules ->
                        matchesSome whitelist (normalizedSender e) rules))
                 added).
Proof.
  assert (G : exists added,
    emails (snd (processEmails classifyWithAI getRules now settings fetched db))
      = emails db ++ added
    /\ Forall (storable getRules settings) added).
  { unfold processEmails. destruct fetched as [messages | m]; simpl.
    - destruct (runLoop_spec classifyWithAI getRules now settings messages
                  {| store := db; count := 0; errs := []; messageCount := 0 |})
        as (_ & _ & _ & added & Ha & Hf).
      exists added. auto.
    - exists []. rewrite app_nil_r. split; [reflexivity | constructor]. }
  destruct G as (added & Ha & Hf). exists added.
  split; [exact Ha |]. split; [exact Hf |]. split.
  - intros wl bl Hwl Hbl. eapply List.Forall_impl; [| exact Hf].
    intros e [W | R]; [left; exact W | right].
    intros Hin. apply (RuleMatcherFacts.setLookup_skip_iff _ wl bl) in Hin.
    unfold routedToStore, checkWhitelistStatus, checkWhitelistStatus_try in R.
    rewrite Hwl, Hbl in R. simpl in R. rewrite Hin in R.
    destruct R; discriminate.
  - intros rules Hrules Hplain. eapply List.Forall_impl; [| exact Hf].
    intros e [W | R]; [left; exact W | right].
    intros Hb.
    assert (L : linearScan (normalizedSender e) rules = inbox
                \/ linearScan (normalizedSender e) rules = unsorted).
    { unfold routedToStore, checkWhitelistStatus, checkWhitelistStatus_try in R.
      rewrite Hrules in R.
      destruct Hplain as [H | H]; rewrite H in R;
        [| destruct (_whitelistMap settings)]; cbn in R;
        destruct R as [R | R]; injection R as R; auto. }
    destruct (RuleMatcherFacts.linearScan_cases (normalizedSender e) rules)
      as [(x & Hin & Hc & Hx) | [Hnone _]].
    + destruct (rule_type x) eqn:T; [exists x; auto |].
      rewrite Hx in L. cbn in L. destruct L; discriminate.
    + destruct Hb as (b & Hinb & _ & Hcb).
      rewrite (Hnone b Hinb) in Hcb. discriminate.
Qed.

Lemma C1_witness :
  (exists added,
     emails (snd (processEmails noAI (Ok promoBlacklist) clock promoSettings
                    (Ok [promoMessage; customerMessage]) emptyStore))
       = emails emptyStore ++ added
     /\ Forall (fun e => isWeTransferEmail e = true
                         \/ normalizedSender e ∉ patternSet blacklist promoBlacklist)
               added)
  /\ (exists added,
        emails (snd (processEmails noAI (Ok promoBlacklist) clock plainSettings
                       (Ok [promoMessage; customerMessage]) emptyStore))
          = emails emptyStore ++ added
        /\ List.map senderEmail added = [Some "bob@acme.test"]
        /\ Forall (fun e =>
                     isWeTransferEmail e = true
                     \/ (matchesSome blacklist (normalizedSender e) promoBlacklist ->
                         matchesSome whitelist (normalizedSender e) promoBlacklist))
                  added).
Proof.
  split.
  - destruct (C1_skipped_mail_is_never_stored noAI (Ok promoBlacklist) clock
                promoSettings (Ok [promoMessage; customerMessage]) emptyStore)
      as (added & Ha & _ & Hb & _).
    exists added. split; [exact Ha |].
    apply (Hb (patternSet whitelist promoBlacklist)); reflexivity.
  - destruct (C1_skipped_mail_is_never_stored noAI (Ok promoBlacklist) clock
                plainSettings (Ok [promoMessage; customerMessage]) emptyStore)
      as (added & Ha & _ & _ & Hp).
    exists added. split; [exact Ha |]. split.
    + change (emails emptyStore ++ added) with added in Ha. rewrite <- Ha.
      vm_compute. reflexivity.
    + apply (Hp promoBlacklist); [reflexivity | left; reflexivity].
Defined.

(** C5, as stated, fails: of two fetched messages the first is
    blacklisted and the second cannot be parsed; exactly one message throws,
    yet [processedCount] is 0 and not N - 1 = 1. *)
Lemma C5_skipped_mail_is_not_counted :
  throws noAI (Ok promoBlacklist) clock plainSettings promoMessage = false
  /\ throws noAI (Ok promoBlacklist) clock plainSettings brokenMessage = true
  /\ fst (processEmails noAI (Ok promoBlacklist) clock plainSettings
            (Ok [promoMessage; brokenMessage]) emptyStore)
     = Ok {| processedCount := 0;
             errors := ["Failed to process message 2 (UID: 12): Invalid MIME structure"] |}
  /\ (length [promoMessage; brokenMessage] - 1 = 1)%nat.
Proof. repeat split; vm_compute; reflexivity. Qed.

(** C5, amended.  When exactly one fetched message throws during its
    processing, the pass still returns: [errors] has the single entry of that
    message (its position and UID), and every other message is either stored
    and counted or blacklisted and not counted, so that
    processedCount = N - 1 - (number of blacklisted messages); it is N - 1
    when no message is blacklisted. *)
Theorem C5_one_failing_message
    (classifyWithAI : Email -> Settings -> ClassificationResult)
    (getRules : Result (list Rule)) (now : string) (settings : Settings)
    (pre post : list FetchedMessage) (bad : FetchedMessage) (m : string)
    (db : DataStore) :
  classifyMessage classifyWithAI getRules now settings bad = Throw m ->
  Forall (fun x => throws classifyWithAI getRules now settings x = false)
         (pre ++ post) ->
  exists result,
    fst (processEmails classifyWithAI getRules now settings
           (Ok (pre ++ bad :: post)) db) = Ok result
    /\ errors result = [errorMsg (S (length pre)) bad m]
    /\ (processedCount result
        + length (List.filter (isSkipped classifyWithAI getRules now settings)
                              (pre ++ post))
        + 1 = length (pre ++ bad :: post))%nat
    /\ (Forall (fun x => isSkipped classifyWithAI getRules now settings x = false)
               (pre ++ post) ->
        processedCount result = (length (pre ++ bad :: post) - 1)%nat).
Proof.
  intros Hbad Hclean.
  apply Forall_app in Hclean. destruct Hclean as [Hpre Hpost].
  unfold processEmails. simpl fst.
  eexists. split; [reflexivity |]. simpl errors. simpl processedCount.
  destruct (runLoop_spec classifyWithAI getRules now settings (pre ++ bad :: post)
              {| store := db; count := 0; errs := []; messageCount := 0 |})
    as (Hc & He & _ & _).
  simpl in Hc, He. rewrite Hc, He. clear Hc He.
  assert (Hsk : isSkipped classifyWithAI getRules now settings bad = false)
    by (unfold isSkipped; rewrite Hbad; reflexivity).
  assert (Hth : throws classifyWithAI getRules now settings bad = true)
    by (unfold throws; rewrite Hbad; reflexivity).
  assert (Hcount :
    (length (List.filter (isStored classifyWithAI getRules now settings)
                         (pre ++ bad :: post))
     + length (List.filter (isSkipped classifyWithAI getRules now settings)
                           (pre ++ post))
     + 1 = length (pre ++ bad :: post))%nat).
  { pose proof (outcome_partition classifyWithAI getRules now settings
                  (pre ++ bad :: post)) as P.
    rewrite (List.filter_app (throws _ _ _ _)) in P. simpl in P.
    rewrite Hth in P.
    rewrite (filter_throws_clean _ _ _ _ pre Hpre) in P.
    rewrite (filter_throws_clean _ _ _ _ post Hpost) in P.
    rewrite (List.filter_app (isSkipped _ _ _ _) pre (bad :: post)) in P.
    simpl in P. rewrite Hsk in P.
    rewrite (List.filter_app (isSkipped _ _ _ _) pre post).
    rewrite !length_app in *. simpl in *. lia. }
  split; [| split].
  - rewrite errorsFrom_app. simpl. rewrite Hbad.
    rewrite (errorsFrom_clean _ _ _ _ _ pre Hpre).
    rewrite (errorsFrom_clean _ _ _ _ _ post Hpost). reflexivity.
  - exact Hcount.
  - intros Hnone.
    assert (Z : List.filter (isSkipped classifyWithAI getRules now settings)
                            (pre ++ post) = []).
    { clear -Hnone. induction Hnone as [| x l Hx _ IH]; simpl; [reflexivity |].
      rewrite Hx. exact IH. }
    rewrite Z in Hcount. simpl in Hcount. lia.
Qed.

Lemma C5_witness :
  exists result,
    fst (processEmails noAI (Ok promoBlacklist) clock plainSettings
           (Ok ([customerMessage] ++ brokenMessage :: [customerMessage]))
           emptyStore) = Ok result
    /\ errors result = [errorMsg 2 brokenMessage "Invalid MIME structure"]
    /\ processedCount result = 2%nat.
Proof.
  destruct (C5_one_failing_message noAI (Ok promoBlacklist) clock plainSettings
              [customerMessage] [customerMessage] brokenMessage
              "Invalid MIME structure" emptyStore)
    as (result & Hr & He & _ & Hn).
  - reflexivity.
  - repeat constructor.
  - exists result. split; [exact Hr |]. split; [exact He |].
    apply Hn. repeat constructor.
Defined.

End PipelineFacts.


(** ** Structured extractor *)

Module ExtractorFacts.

Import Extractor Scenarios.

Local Open Scope Q_scope.

Lemma replyConfidence_bounds present required bonus :
  1 # 10 <= replyConfidence present required bonus
  /\ replyConfidence present required bonus <= 95 # 100.
Proof.
  unfold replyConfidence. split.
  - apply Q.le_max_l.
  - apply Q.max_lub; [discriminate | apply Q.le_min_l].
Qed.

(** A reply that parses is an object with an [items] array, and its
    confidence is computed from the populated required fields. *)
Lemma parseAIParsingResponse_ok JSON_parse response t d :
  parseAIParsingResponse JSON_parse response t = Ok d ->
  exists fields bonus,
    r_data d = JObj fields /\ r_type d = t
    /\ r_confidence d =
         replyConfidence (length (presentFields fields t))
                         (length (requiredFields t)) bonus.
Proof.
  unfold parseAIParsingResponse, parseAIParsingResponse_try.
  destruct (JSON_parse _) as [parsed | m]; simpl; [| discriminate].
  destruct parsed as [| b | n | s | items | fields]; simpl; try discriminate.
  destruct (lookupKey "items" fields) as [[| b | n | s | items | fs] |];
    simpl; try discriminate.
  destruct (firstItemDescribed items) as [bonus | m]; simpl; [| discriminate].
  intros [= <-]. exists fields, bonus. simpl. auto.
Qed.

Lemma populatedFields_ok JSON_parse response t d :
  parseAIParsingResponse JSON_parse response t = Ok d ->
  exists bonus,
    r_confidence d =
      replyConfidence (length (populatedFields d)) (length (requiredFields t)) bonus.
Proof.
  intros H. destruct (parseAIParsingResponse_ok _ _ _ _ H) as (fields & bonus & Hd & Ht & Hc).
  exists bonus. unfold populatedFields. rewrite Hd, Ht. exact Hc.
Qed.

Lemma parseAIParsingResponse_bounds JSON_parse response t d :
  parseAIParsingResponse JSON_parse response t = Ok d ->
  1 # 10 <= r_confidence d /\ r_confidence d <= 95 # 100.
Proof.
  intros H. destruct (parseAIParsingResponse_ok _ _ _ _ H) as (fields & bonus & _ & _ & ->).
  apply replyConfidence_bounds.
Qed.

Section Services.

Variable JSON_parse : string -> Result JSON.
Variable refetchEmailWithAttachments : Email -> Settings -> Result Email.
Variable generateGoogle generateOllama : Email -> TargetType -> Result string.
Variable saveEmailWithFiles : Email -> Settings -> option JSON -> Result EmailFileData.
Variable saveParsedDataJson : string -> JSON -> TargetType -> Result string.

#[local] Abbreviation extract :=
  (parseEmailWithAI JSON_parse refetchEmailWithAttachments generateGoogle
     generateOllama saveEmailWithFiles saveParsedDataJson).
#[local] Abbreviation extract_try :=
  (parseEmailWithAI_try JSON_parse refetchEmailWithAttachments generateGoogle
     generateOllama saveEmailWithFiles saveParsedDataJson).

(** What the [try] block returns when the provider answers and the
    answer parses. *)
Lemma extract_try_ok email settings saveFiles r :
  extract_try email settings saveFiles = Ok r ->
  exists response d,
    callAI generateGoogle generateOllama
      (fullEmailFor refetchEmailWithAttachments email settings saveFiles)
      (resolveType email) settings = Ok response
    /\ parseAIParsingResponse JSON_parse response (resolveType email) = Ok d
    /\ type r = r_type d /\ data r = FromReply (r_data d)
    /\ confidence r = r_confidence d /\ reasoning r = r_reasoning d.
Proof.
  unfold parseEmailWithAI_try.
  destruct (callAI _ _ _ _ _) as [response | m] eqn:A; simpl; [| discriminate].
  destruct (parseAIParsingResponse _ _ _) as [d | m] eqn:P; simpl; [| discriminate].
  destruct (if saveFiles then _ else _) as [files saved].
  intros [= <-]. exists response, d. simpl. repeat split; reflexivity || assumption.
Qed.

(** C3 (extraction never throws).  Whatever the provider, the reply, the
    re-fetch and the archiver do, [parseEmailWithAI] resolves, and the
    confidence of what it returns lies between 0.1 and 0.95. *)
Theorem C3_extraction_never_rejects
    (email : Email) (settings : Settings) (saveFiles : bool) :
  exists r,
    extract email settings saveFiles = Ok r
    /\ 1 # 10 <= confidence r /\ confidence r <= 95 # 100.
Proof.
  unfold parseEmailWithAI.
  destruct (extract_try email settings saveFiles) as [r | m] eqn:E; simpl.
  - exists r. split; [reflexivity |].
    destruct (extract_try_ok _ _ _ _ E) as (response & d & _ & P & _ & _ & -> & _).
    apply (parseAIParsingResponse_bounds _ _ _ _ P).
  - eexists. split; [reflexivity |]. simpl. split; discriminate.
Qed.

(** C4, amended.  A failure of the provider call or of the parsing of its
    reply is not propagated: the result is the fallback record built from
    the message of the error.  A failure of the archiver is not propagated
    either, but then the parsed reply is returned with its own confidence
    and without files.  The fallback record has the type resolved from the
    e-mail, confidence 0.1, the error text in its reasoning, no saved
    attachments and one placeholder item made from the subject; an order
    fallback has [rushOrder] set exactly when the lower-cased subject
    contains rush and carries the first 500 characters of the body as
    special instructions, an estimate fallback carries them as notes. *)
Theorem C4_fallback_on_provider_or_reply_failure
    (email : Email) (settings : Settings) (saveFiles : bool) :
  let t := resolveType email in
  let full := fullEmailFor refetchEmailWithAttachments email settings saveFiles in
  match callAI generateGoogle generateOllama full t settings with
  | Throw m => extract email settings saveFiles = Ok (fallbackRecord email m)
  | Ok response =>
      match parseAIParsingResponse JSON_parse response t with
      | Throw m => extract email settings saveFiles = Ok (fallbackRecord email m)
      | Ok d =>
          exists r,
            extract email settings saveFiles = Ok r
            /\ type r = t /\ data r = FromReply (r_data d)
            /\ confidence r = r_confidence d
            /\ match saveFiles,
                     saveEmailWithFiles full settings (folderNumber (r_data d)) with
               | true, Ok files => attachmentsSaved r = attachmentFiles files
               | _, _ => attachmentsSaved r = [] /\ emailFiles r = None
               end
      end
  end
  /\ forall m,
       let fb := fallbackRecord email m in
       type fb = t
       /\ confidence fb = 1 # 10
       /\ reasoning fb = ("AI parsing failed: " +:+ m)%string
       /\ attachmentsSaved fb = []
       /\ emailFiles fb = None
       /\ match data fb with
          | FallbackOrder o =>
              t = for_order
              /\ o_items o = [ {| item_description :=
                                    ("Order from email: " +:+ subject email)%string;
                                  quantity := 1 |} ]
              /\ rushOrder o = JS.includes (JS.toLowerCase (subject email)) "rush"
              /\ specialInstructions o = JS.take 500 (body email)
              /\ (String.length (specialInstructions o) <= 500)%nat
          | FallbackEstimate e =>
              t = for_estimate
              /\ e_items e = [ {| item_description :=
                                    ("Estimate request from email: "
                                     +:+ subject email)%string;
                                  quantity := 1 |} ]
              /\ projectDescription e = subject email
              /\ notes e = JS.take 500 (body email)
              /\ (String.length (notes e) <= 500)%nat
          | FromReply _ => False
          end.
Proof.
  cbv zeta. split.
  - unfold parseEmailWithAI, parseEmailWithAI_try.
    destruct (callAI _ _ _ _ _) as [response | m]; simpl; [| reflexivity].
    destruct (parseAIParsingResponse _ _ _) as [d | m] eqn:P; simpl; [| reflexivity].
    destruct (parseAIParsingResponse_ok _ _ _ _ P) as (fields & bonus & _ & Ht & _).
    unfold archive. destruct saveFiles.
    + destruct (saveEmailWithFiles _ _ _) as [files | m]; simpl.
      * destruct (JS.truthy (folderPath files));
          [destruct (saveParsedDataJson _ _ _) |];
          eexists; (split; [reflexivity |]); simpl; repeat split; auto.
      * eexists. split; [reflexivity |]. simpl. repeat split; auto.
    + eexists. split; [reflexivity |]. simpl. repeat split; auto.
  - intros m.
    assert (L : forall n s, (String.length (JS.take n s) <= n)%nat).
    { induction n as [| n IH]; intros [| c s]; simpl; try lia.
      specialize (IH s). lia. }
    unfold fallbackRecord, fallbackData, createFallbackOrderData,
      createFallbackEstimateData.
    destruct (resolveType email);
      cbn [type data confidence reasoning attachmentsSaved emailFiles
           o_items rushOrder specialInstructions e_items projectDescription notes];
      repeat split; try reflexivity; apply L.
Qed.

(** C4, as stated, fails for the archiver: the provider answers, the reply
    parses, saving the files fails, and the result is the parsed reply at
    confidence 0.6, not the fallback record at 0.1. *)
Lemma C4_archive_failure_keeps_the_parsed_reply :
  diskFull orderMail ollamaSettings None = Throw "ENOSPC: no space left on device"
  /\ parseEmailWithAI parseKnown noRefetch googleDown ollamaBare diskFull noJsonFile
       orderMail ollamaSettings true
     = Ok {| type := for_order;
             data := FromReply (JObj [("items", JArr [])]);
             confidence := 120 # 200;
             reasoning := "Successfully parsed 0 items with 1/2 required fields";
             attachmentsSaved := [];
             emailFiles := None |}
  /\ ~ (120 # 200 == 1 # 10)
  /\ forall m,
       parseEmailWithAI parseKnown noRefetch googleDown ollamaBare diskFull noJsonFile
         orderMail ollamaSettings true <> Ok (fallbackRecord orderMail m).
Proof.
  split; [reflexivity |]. split; [vm_compute; reflexivity |].
  split; [discriminate |].
  intros m H. vm_compute in H. discriminate H.
Qed.

End Services.

Lemma filter_length_le {A : Type} (f g : A -> bool) (l : list A) :
  (forall x, In x l -> f x = true -> g x = true) ->
  (length (List.filter f l) <= length (List.filter g l))%nat.
Proof.
  induction l as [| h t IH]; intros H; simpl; [lia |].
  assert (IH' := IH (fun x Hx => H x (or_intror Hx))).
  destruct (f h) eqn:F.
  - rewrite (H h (or_introl eq_refl) F). simpl. lia.
  - destruct (g h); simpl; lia.
Qed.

Lemma filter_length_lt {A : Type} (f g : A -> bool) (l : list A) :
  (forall x, In x l -> f x = true -> g x = true) ->
  (exists x, In x l /\ g x = true /\ f x = false) ->
  (length (List.filter f l) < length (List.filter g l))%nat.
Proof.
  induction l as [| h t IH]; intros H (x & Hin & Hg & Hf); [destruct Hin |].
  assert (Hle := filter_length_le f g t (fun y Hy => H y (or_intror Hy))).
  simpl. destruct Hin as [-> | Hin].
  - rewrite Hf, Hg. simpl. lia.
  - assert (IH' := IH (fun y Hy => H y (or_intror Hy))
                      (ex_intro _ x (conj Hin (conj Hg Hf)))).
    destruct (f h) eqn:F.
    + rewrite (H h (or_introl eq_refl) F). simpl. lia.
    + destruct (g h); simpl; lia.
Qed.

Lemma replyConfidence_mono pA pB required bA bB :
  required = 2%nat \/ required = 3%nat ->
  (pA < pB)%nat -> (pB <= required)%nat ->
  replyConfidence pA required bA <= replyConfidence pB required bB.
Proof.
  intros Hr Hlt Hle.
  assert (HB : (pB = 1 \/ pB = 2 \/ pB = 3)%nat) by lia.
  assert (HA : (pA = 0 \/ pA = 1 \/ pA = 2)%nat) by lia.
  destruct Hr as [-> | ->];
    destruct HB as [-> | [-> | ->]]; destruct HA as [-> | [-> | ->]];
    try lia; destruct bA, bB; apply Qle_bool_iff; vm_compute; reflexivity.
Qed.

(** C8 (confidence monotonicity).  Of two replies that parse for the same
    target type, the one whose populated required fields strictly include
    those of the other has a confidence at least as high. *)
Theorem C8_confidence_monotone
    (JSON_parse : string -> Result JSON) (responseA responseB : string)
    (t : TargetType) (dA dB : ReplyData) :
  parseAIParsingResponse JSON_parse responseA t = Ok dA ->
  parseAIParsingResponse JSON_parse responseB t = Ok dB ->
  (forall field, In field (populatedFields dA) -> In field (populatedFields dB)) ->
  (exists field, In field (populatedFields dB) /\ ~ In field (populatedFields dA)) ->
  r_confidence dA <= r_confidence dB.
Proof.
  intros HA HB Hsub (field & HinB & HninA).
  destruct (parseAIParsingResponse_ok _ _ _ _ HA) as (fA & bA & DA & TA & CA).
  destruct (parseAIParsingResponse_ok _ _ _ _ HB) as (fB & bB & DB & TB & CB).
  unfold populatedFields in *. rewrite DA, TA in *. rewrite DB, TB in *.
  rewrite CA, CB. unfold presentFields in *.
  apply replyConfidence_mono.
  - destruct t; [left | right]; reflexivity.
  - apply filter_length_lt.
    + intros x Hx Fx.
      assert (Hin : In x (List.filter
                (fun f => truthyField (lookupKey f fB)) (requiredFields t))).
      { apply Hsub. apply List.filter_In. split; assumption. }
      apply List.filter_In in Hin. apply Hin.
    + exists field. apply List.filter_In in HinB. destruct HinB as [Hl Hg].
      split; [exact Hl |]. split; [exact Hg |].
      destruct (truthyField (lookupKey field fA)) eqn:F; [| reflexivity].
      exfalso. apply HninA. apply List.filter_In. split; assumption.
  - apply List.filter_length_le.
Qed.

Lemma C8_witness :
  exists dA dB,
    parseAIParsingResponse parseKnown replyBare for_order = Ok dA
    /\ parseAIParsingResponse parseKnown replyNamed for_order = Ok dB
    /\ populatedFields dA = ["items"%string]
    /\ populatedFields dB = ["customerName"%string; "items"%string]
    /\ r_confidence dA <= r_confidence dB.
Proof.
  eexists. eexists.
  split; [vm_compute; reflexivity |]. split; [vm_compute; reflexivity |].
  split; [reflexivity |]. split; [reflexivity |].
  apply (C8_confidence_monotone parseKnown replyBare replyNamed for_order).
  - vm_compute. reflexivity.
  - vm_compute. reflexivity.
  - simpl. intros field [<- | []]. right. left. reflexivity.
  - exists "customerName"%string. simpl. split; [left; reflexivity |].
    intros [H | []]. discriminate H.
Defined.

End ExtractorFacts.

(** ** Job runner *)

Module JobQueueFacts.

Import JobQueue Scenarios.

(** While the job in the [currentJob] slot is running, a submission is
    answered with the conflict and nothing is created or changed. *)
Lemma POST_rejects_while_current_job_runs t s q c :
  currentJob q = Some c -> isRunning c = true ->
  POST t s q = (Conflict c, q, None).
Proof.
  intros Hc Hr. unfold POST, getCurrentJob. rewrite Hc, Hr. reflexivity.
Qed.

(** C6 (single job).  Two submissions are handled back to back: the
    second handler runs while the first call of [processJob] is suspended at
    its first [await], when the job in the slot is still [pending].  Both
    pass the guard, and once both calls have resumed the table holds two
    running jobs.  When the first job then finishes, its [finally] block
    empties the slot, and a third submission is accepted although job 2 is
    still running. *)
Theorem C6_two_jobs_running_after_interleaved_submissions :
  exists sv sv',
    run initial twoSubmissions = Some sv
    /\ List.map job_id (runningJobs (queue sv)) = [1; 2]%nat
    /\ run sv firstFinishes = Some sv'
    /\ List.map job_id (runningJobs (queue sv')) = [2]%nat
    /\ currentJob (queue sv') = None
    /\ exists job q',
         POST email_processing plainSettings (queue sv') = (Created job, q', Some 3%nat).
Proof.
  eexists. eexists.
  split; [vm_compute; reflexivity |].
  split; [vm_compute; reflexivity |].
  split; [vm_compute; reflexivity |].
  split; [vm_compute; reflexivity |].
  split; [vm_compute; reflexivity |].
  eexists. eexists. vm_compute. reflexivity.
Qed.

(** *** The job table as a map *)

Lemma key_in_keys (m : list (nat * Job)) k j :
  In (k, j) m -> In k (List.map fst m).
Proof. intros H. apply (List.in_map fst) in H. exact H. Qed.

Lemma mapGet_In m k j :
  List.NoDup (List.map fst m) -> (mapGet k m = Some j <-> In (k, j) m).
Proof.
  induction m as [| [k' v'] rest IH]; simpl; intros Hnd.
  - split; [discriminate | intros []].
  - inversion Hnd as [| ? ? Hnotin Hrest]; subst.
    destruct (k' =? k)%nat eqn:E.
    + apply Nat.eqb_eq in E. subst k'. split.
      * intros [= ->]. left. reflexivity.
      * intros [[= ->] | Hin]; [reflexivity |].
        exfalso. apply Hnotin. apply (key_in_keys _ _ _ Hin).
    + apply Nat.eqb_neq in E. rewrite (IH Hrest). split.
      * intros Hin. right. exact Hin.
      * intros [[= -> ->] | Hin]; [congruence | exact Hin].
Qed.

Lemma mapSet_keys m k v x :
  In x (List.map fst (mapSet k v m)) -> x = k \/ In x (List.map fst m).
Proof.
  induction m as [| [k' v'] rest IH]; simpl.
  - intros [<- | []]. left. reflexivity.
  - destruct (k' =? k)%nat eqn:E; simpl.
    + intros [<- | Hin]; [left; reflexivity | right; right; exact Hin].
    + intros [<- | Hin]; [right; left; reflexivity |].
      destruct (IH Hin) as [-> | H]; [left; reflexivity | right; right; exact H].
Qed.

Lemma mapSet_NoDup m k v :
  List.NoDup (List.map fst m) -> List.NoDup (List.map fst (mapSet k v m)).
Proof.
  induction m as [| [k' v'] rest IH]; simpl; intros Hnd.
  - constructor; [intros [] | constructor].
  - inversion Hnd as [| ? ? Hnotin Hrest]; subst.
    destruct (k' =? k)%nat eqn:E; simpl.
    + apply Nat.eqb_eq in E. subst k'. constructor; assumption.
    + apply Nat.eqb_neq in E. constructor; [| apply IH; exact Hrest].
      intros Hin. destruct (mapSet_keys _ _ _ _ Hin) as [-> | H]; [congruence |].
      apply Hnotin. exact H.
Qed.

Lemma mapSet_In m k v k' v' :
  List.NoDup (List.map fst m) ->
  (In (k', v') (mapSet k v m)
   <-> (k' = k /\ v' = v) \/ (k' <> k /\ In (k', v') m)).
Proof.
  induction m as [| [k0 v0] rest IH]; simpl; intros Hnd.
  - split.
    + intros [[= <- <-] | []]. left. split; reflexivity.
    + intros [[-> ->] | [_ []]]. left. reflexivity.
  - inversion Hnd as [| ? ? Hnotin Hrest]; subst.
    destruct (k0 =? k)%nat eqn:E; simpl.
    + apply Nat.eqb_eq in E. subst k0. split.
      * intros [[= <- <-] | Hin]; [left; split; reflexivity |].
        right. split; [| right; exact Hin].
        intros ->. apply Hnotin. apply (key_in_keys _ _ _ Hin).
      * intros [[-> ->] | [Hne [[= -> ->] | Hin]]];
          [left; reflexivity | congruence | right; exact Hin].
    + apply Nat.eqb_neq in E. rewrite (IH Hrest). split.
      * intros [[= <- <-] | [H | [Hne Hin]]].
        -- right. split; [congruence | left; reflexivity].
        -- left. exact H.
        -- right. split; [exact Hne | right; exact Hin].
      * intros [H | [Hne [[= -> ->] | Hin]]].
        -- right. left. exact H.
        -- left. reflexivity.
        -- right. right. split; assumption.
Qed.

Lemma mapDelete_In m k k' v' :
  In (k', v') (mapDelete k m) <-> k' <> k /\ In (k', v') m.
Proof.
  unfold mapDelete. rewrite List.filter_In. simpl. split.
  - intros [Hin Hne]. split; [| exact Hin].
    apply Bool.negb_true_iff, Nat.eqb_neq in Hne. exact Hne.
  - intros [Hne Hin]. split; [exact Hin |].
    apply Bool.negb_true_iff, Nat.eqb_neq. exact Hne.
Qed.

Lemma filter_keys_NoDup (p : nat * Job -> bool) m :
  List.NoDup (List.map fst m) -> List.NoDup (List.map fst (List.filter p m)).
Proof.
  induction m as [| kv rest IH]; simpl; intros Hnd; [constructor |].
  inversion Hnd as [| ? ? Hnotin Hrest]; subst.
  destruct (p kv); simpl; [| apply IH; exact Hrest].
  constructor; [| apply IH; exact Hrest].
  intros Hin. apply Hnotin.
  apply List.in_map_iff in Hin. destruct Hin as (x & Hx & Hin).
  apply List.filter_In in Hin. rewrite <- Hx. apply List.in_map. apply Hin.
Qed.

Lemma insertByStart_In j sorted x :
  In x (insertByStart j sorted) -> x = j \/ In x sorted.
Proof.
  induction sorted as [| h t IH]; simpl.
  - intros [<- | []]. left. reflexivity.
  - destruct (startKey h <? startKey j)%nat; simpl.
    + intros [<- | H]; [left; reflexivity | right; exact H].
    + intros [<- | H]; [right; left; reflexivity |].
      destruct (IH H) as [-> | H']; [left; reflexivity | right; right; exact H'].
Qed.

Lemma getAllJobs_In q x : In x (getAllJobs q) -> In x (List.map snd (jobs q)).
Proof.
  unfold getAllJobs.
  assert (G : forall l acc,
             In x (fold_left (fun acc j => insertByStart j acc) l acc) ->
             In x l \/ In x acc).
  { induction l as [| j rest IH]; simpl; intros acc H; [right; exact H |].
    destruct (IH _ H) as [H1 | H1]; [left; right; exact H1 |].
    destruct (insertByStart_In _ _ _ H1) as [-> | H2];
      [left; left; reflexivity | right; exact H2]. }
  intros H. destruct (G _ _ H) as [H1 | []]. exact H1.
Qed.

Lemma fold_delete_In (dels : list Job) m k j :
  In (k, j) (fold_left (fun m j' => mapDelete (job_id j') m) dels m)
  <-> In (k, j) m /\ forall j', In j' dels -> job_id j' <> k.
Proof.
  revert m. induction dels as [| d rest IH]; simpl; intros m.
  - split; [intros H; split; [exact H | intros ? []] | intros [H _]; exact H].
  - rewrite IH, mapDelete_In. split.
    + intros [[Hne Hin] Hrest]. split; [exact Hin |].
      intros j' [<- | Hj']; [congruence | apply Hrest; exact Hj'].
    + intros [Hin Hall]. split; [split; [| exact Hin] |].
      * intros E. apply (Hall d); [left; reflexivity | congruence].
      * intros j' Hj'. apply Hall. right. exact Hj'.
Qed.

Lemma fold_delete_NoDup (dels : list Job) m :
  List.NoDup (List.map fst m) ->
  List.NoDup (List.map fst (fold_left (fun m j' => mapDelete (job_id j') m) dels m)).
Proof.
  revert m. induction dels as [| d rest IH]; simpl; intros m H; [exact H |].
  apply IH. apply filter_keys_NoDup. exact H.
Qed.

(** [cleanupJobs] removes settled jobs only. *)
Lemma cleanupJobs_spec q :
  List.NoDup (List.map fst (jobs q)) ->
  (forall k j, In (k, j) (jobs q) -> job_id j = k) ->
  currentJob (cleanupJobs q) = currentJob q
  /\ jobIdCounter (cleanupJobs q) = jobIdCounter q
  /\ List.NoDup (List.map fst (jobs (cleanupJobs q)))
  /\ (forall k j, In (k, j) (jobs (cleanupJobs q)) -> In (k, j) (jobs q))
  /\ (forall k j, In (k, j) (jobs q) -> isSettled j = false ->
                  In (k, j) (jobs (cleanupJobs q))).
Proof.
  intros Hnd Hid. unfold cleanupJobs.
  destruct (10 <? length (List.filter isSettled (getAllJobs q)))%nat; simpl.
  - split; [reflexivity |]. split; [reflexivity |].
    split; [apply fold_delete_NoDup; exact Hnd |]. split.
    + intros k j H. apply fold_delete_In in H. apply H.
    + intros k j Hin Hns. apply fold_delete_In. split; [exact Hin |].
      intros j' Hj' E.
      assert (Hs : In j' (List.filter isSettled (getAllJobs q))).
      { clear -Hj'. revert Hj'. generalize (List.filter isSettled (getAllJobs q)).
        intros l. generalize 10%nat. intros n. revert l.
        induction n as [| n IH]; intros [| h t]; simpl; auto. }
      apply List.filter_In in Hs. destruct Hs as [Hall Hset].
      apply getAllJobs_In, List.in_map_iff in Hall.
      destruct Hall as ([k' j''] & Hsnd & Hin'). simpl in Hsnd. subst j''.
      assert (k' = k) by (rewrite <- (Hid _ _ Hin'); exact E). subst k'.
      assert (j' = j).
      { apply (mapGet_In _ _ _ Hnd) in Hin. apply (mapGet_In _ _ _ Hnd) in Hin'.
        congruence. }
      subst j'. congruence.
  - repeat split; auto.
Qed.

(** *** Uninterrupted runs keep the server calm *)

Lemma updateJob_present q k j u :
  List.NoDup (List.map fst (jobs q)) -> In (k, j) (jobs q) ->
  updateJob k u q
  = {| jobs := mapSet k (spread j u) (jobs q);
       currentJob :=
         match currentJob q with
         | Some c => if (job_id c =? k)%nat then Some (spread j u) else Some c
         | None => None
         end;
       jobIdCounter := jobIdCounter q |}.
Proof.
  intros Hnd Hin. unfold updateJob.
  rewrite (proj2 (mapGet_In _ _ _ Hnd) Hin). reflexivity.
Qed.

Lemma update_current q j u :
  List.NoDup (List.map fst (jobs q)) ->
  (forall k j0, In (k, j0) (jobs q) -> job_id j0 = k /\ (k <= jobIdCounter q)%nat) ->
  (forall k j0, In (k, j0) (jobs q) -> isRunning j0 = true -> currentJob q = Some j0) ->
  currentJob q = Some j -> In (job_id j, j) (jobs q) ->
  let q' := updateJob (job_id j) u q in
  List.NoDup (List.map fst (jobs q'))
  /\ (forall k j0, In (k, j0) (jobs q') ->
                   job_id j0 = k /\ (k <= jobIdCounter q')%nat)
  /\ (forall k j0, In (k, j0) (jobs q') -> isRunning j0 = true -> j0 = spread j u)
  /\ currentJob q' = Some (spread j u)
  /\ In (job_id j, spread j u) (jobs q').
Proof.
  intros Hnd Hid Hrun Hcur Hin. cbv zeta.
  rewrite (updateJob_present _ _ _ u Hnd Hin). cbn [jobs currentJob jobIdCounter].
  rewrite Hcur, Nat.eqb_refl.
  split; [apply mapSet_NoDup; exact Hnd |].
  split; [| split; [| split; [reflexivity |]]].
  - intros k j0 H. apply (mapSet_In _ _ _ _ _ Hnd) in H.
    destruct H as [[-> ->] | [_ H]]; [| apply Hid; exact H].
    split; [reflexivity |]. apply (Hid _ _ Hin).
  - intros k j0 H Hr. apply (mapSet_In _ _ _ _ _ Hnd) in H.
    destruct H as [[_ ->] | [Hne H]]; [reflexivity |].
    exfalso. apply Hne. pose proof (Hrun _ _ H Hr) as E.
    rewrite Hcur in E. injection E as ->. symmetry. apply (Hid _ _ H).
  - apply (mapSet_In _ _ _ _ _ Hnd). left. split; reflexivity.
Qed.

Lemma report_calm sv k operation p total processed sv' :
  calm sv -> run sv [Progress k operation p total processed] = Some sv' -> calm sv'.
Proof.
  destruct sv as [q w]. intros (Hnd & Hid & Hrun & Hw). simpl in *.
  destruct Hw as [[-> _] | (j & -> & Hcur & Hr & Hin)]; simpl; [discriminate |].
  destruct (job_id j =? k)%nat eqn:E; [| discriminate].
  apply Nat.eqb_eq in E. subst k. intros [= <-].
  unfold calm, progressCallback. cbn [queue waiting].
  match goal with |- context [updateJob _ ?u q] =>
    destruct (update_current q j u Hnd Hid Hrun Hcur Hin) as (N & I & R & C & M)
  end.
  split; [exact N |]. split; [exact I |]. split.
  - intros k j0 H Hr0. rewrite C. f_equal. symmetry. apply (R _ _ H Hr0).
  - right. match type of C with _ = Some ?x => exists x end.
    split; [reflexivity |]. split; [exact C |].
    split; [| exact M]. unfold isRunning, spread in *. simpl. exact Hr.
Qed.

Lemma settle_calm sv k now outcome sv' :
  calm sv -> run sv [Settle k now outcome; Finally k] = Some sv' -> calm sv'.
Proof.
  destruct sv as [q w]. intros (Hnd & Hid & Hrun & Hw). simpl in *.
  destruct Hw as [[-> _] | (j & -> & Hcur & Hr & Hin)]; simpl; [discriminate |].
  destruct (job_id j =? k)%nat eqn:E; [| discriminate].
  apply Nat.eqb_eq in E. subst k. simpl. rewrite Nat.eqb_refl. simpl.
  intros [= <-].
  unfold calm, processJob_finally, processJob_settle.
  cbn [queue waiting jobs currentJob jobIdCounter].
  assert (G : forall u, isRunning (spread j u) = false ->
    let q' := updateJob (job_id j) u q in
    List.NoDup (List.map fst (jobs q'))
    /\ (forall k j0, In (k, j0) (jobs q') ->
                     job_id j0 = k /\ (k <= jobIdCounter q')%nat)
    /\ (forall k j0, In (k, j0) (jobs q') -> isRunning j0 = true ->
                     @None Job = Some j0)
    /\ (([] : list (nat * Suspended)) = [] /\ @None Job = None
        \/ exists j1, ([] : list (nat * Suspended)) = [(job_id j1, InPass)]
                      /\ @None Job = Some j1 /\ isRunning j1 = true
                      /\ In (job_id j1, j1) (jobs q'))).
  { intros u Hu. cbv zeta.
    destruct (update_current q j u Hnd Hid Hrun Hcur Hin) as (N & I & R & C & M).
    split; [exact N |]. split; [exact I |]. split.
    - intros k j0 H Hr0. rewrite (R _ _ H Hr0) in Hr0. congruence.
    - left. split; reflexivity. }
  destruct outcome as [r | m]; apply G; reflexivity.
Qed.

Lemma submit_calm sv t s now sv' :
  calm sv -> run sv (expand sv (SubmitAndStart t s now)) = Some sv' -> calm sv'.
Proof.
  destruct sv as [q w]. intros (Hnd & Hid & Hrun & Hw). cbn [queue waiting] in *.
  unfold expand. cbn [queue].
  destruct Hw as [[-> Hcur] | (j & -> & Hcur & Hr & Hin)].
  - (* the slot is empty: the job is created, started and marked running *)
    unfold POST, getCurrentJob, createJob, processJob_enter.
    rewrite Hcur. cbn [currentJob jobs jobIdCounter job_id].
    set (n := S (jobIdCounter q)).
    set (job := {| job_id := n; job_type := t; job_status := pending;
                   progress := 0; startTime := None; endTime := None;
                   result := None; error := None; settings := Some s;
                   currentOperation := None; totalEmails := None;
                   processedEmails := None |}).
    set (q2 := {| jobs := mapSet n job (jobs q); currentJob := Some job;
                  jobIdCounter := n |}).
    cbn [run step queue waiting]. unfold POST, getCurrentJob, createJob,
      processJob_enter. rewrite Hcur. cbn [currentJob jobs jobIdCounter job_id].
    fold n. fold job. fold q2.
    cbn [moveTo waiting queue]. cbn [List.filter app suspendedAt fst].
    rewrite Nat.eqb_refl. cbn [negb List.filter app]. intros [= <-].
    assert (N2 : List.NoDup (List.map fst (jobs q2)))
      by (apply mapSet_NoDup; exact Hnd).
    assert (I2 : forall k j0, In (k, j0) (jobs q2) ->
                   job_id j0 = k /\ (k <= jobIdCounter q2)%nat).
    { intros k j0 H. apply (mapSet_In _ _ _ _ _ Hnd) in H.
      destruct H as [[-> ->] | [_ H]]; [split; [reflexivity | simpl; lia] |].
      destruct (Hid _ _ H) as [E L]. split; [exact E | simpl; unfold n; lia]. }
    assert (R2 : forall k j0, In (k, j0) (jobs q2) -> isRunning j0 = false).
    { intros k j0 H. apply (mapSet_In _ _ _ _ _ Hnd) in H.
      destruct H as [[_ ->] | [_ H]]; [reflexivity |].
      destruct (isRunning j0) eqn:Rj; [| reflexivity].
      pose proof (Hrun _ _ H Rj) as E. congruence. }
    assert (M2 : In (n, job) (jobs q2))
      by (apply (mapSet_In _ _ _ _ _ Hnd); left; split; reflexivity).
    destruct (cleanupJobs_spec q2 N2 (fun k j0 H => proj1 (I2 k j0 H)))
      as (C3 & K3 & N3 & S3 & P3).
    assert (I3 : forall k j0, In (k, j0) (jobs (cleanupJobs q2)) ->
                   job_id j0 = k /\ (k <= jobIdCounter (cleanupJobs q2))%nat).
    { intros k j0 H. rewrite K3. apply I2. apply S3. exact H. }
    assert (R3 : forall k j0, In (k, j0) (jobs (cleanupJobs q2)) ->
                   isRunning j0 = true -> currentJob (cleanupJobs q2) = Some j0).
    { intros k j0 H Hr. rewrite (R2 _ _ (S3 _ _ H)) in Hr. discriminate. }
    assert (M3 : In (job_id job, job) (jobs (cleanupJobs q2)))
      by (apply P3; [exact M2 | reflexivity]).
    unfold calm, processJob_start. cbn [queue waiting].
    match goal with |- context [updateJob n ?u _] =>
      destruct (update_current (cleanupJobs q2) job u N3 I3 R3 C3 M3)
        as (N & I & R & C & M)
    end.
    change (job_id job) with n in *.
    split; [exact N |]. split; [exact I |]. split.
    + intros k j0 H Hr0. rewrite C. f_equal. symmetry. apply (R _ _ H Hr0).
    + right. match type of C with _ = Some ?x => exists x end.
      split; [reflexivity |]. split; [exact C |].
      split; [reflexivity | exact M].
  - (* a job is running: the submission is turned down *)
    unfold POST, getCurrentJob. rewrite Hcur, Hr.
    cbn [run step queue waiting]. unfold POST, getCurrentJob. rewrite Hcur, Hr.
    intros [= <-]. unfold calm. cbn [queue waiting].
    split; [exact Hnd |]. split; [exact Hid |]. split; [exact Hrun |].
    right. exists j. auto.
Qed.

Lemma initial_calm : calm initial.
Proof.
  unfold calm, initial. simpl. split; [constructor |].
  split; [intros ? ? [] |]. split; [intros ? ? [] |]. left. auto.
Qed.

Lemma calm_single_job sv : calm sv -> (length (runningJobs (queue sv)) <= 1)%nat.
Proof.
  intros (Hnd & Hid & Hrun & _). unfold runningJobs.
  assert (G : forall m,
    List.NoDup (List.map fst m) ->
    (forall k j, In (k, j) m -> job_id j = k) ->
    (forall k j, In (k, j) m -> isRunning j = true -> currentJob (queue sv) = Some j) ->
    (length (List.filter isRunning (List.map snd m)) <= 1)%nat).
  { induction m as [| [k j] rest IH]; simpl; intros N I R; [lia |].
    inversion N as [| ? ? Hnotin Hrest]; subst.
    assert (IHr := IH Hrest (fun k' j' H => I k' j' (or_intror H))
                      (fun k' j' H => R k' j' (or_intror H))).
    destruct (isRunning j) eqn:Rj; [| exact IHr]. simpl.
    assert (E : List.filter isRunning (List.map snd rest) = []).
    { destruct (List.filter isRunning (List.map snd rest)) as [| x l] eqn:F;
        [reflexivity |].
      exfalso.
      assert (Hx : In x (List.filter isRunning (List.map snd rest)))
        by (rewrite F; left; reflexivity).
      apply List.filter_In in Hx. destruct Hx as [Hx Rx].
      apply List.in_map_iff in Hx. destruct Hx as ([k' x'] & Hs & Hin).
      simpl in Hs. subst x'.
      pose proof (R k j (or_introl eq_refl) Rj) as C1.
      pose proof (R k' x (or_intror Hin) Rx) as C2.
      assert (x = j) by congruence. subst x.
      pose proof (I k j (or_introl eq_refl)) as K1.
      pose proof (I k' j (or_intror Hin)) as K2.
      apply Hnotin. apply (key_in_keys rest k j). congruence. }
    rewrite E. simpl. lia. }
  apply G; [exact Hnd | intros k j H; apply (Hid _ _ H) | exact Hrun].
Qed.

(** In an uninterrupted run at most one job is running at any time, and
    a submission made while a job is running changes nothing. *)
Lemma uninterrupted_single_job stretches sv :
  runUninterrupted initial stretches = Some sv ->
  calm sv /\ (length (runningJobs (queue sv)) <= 1)%nat.
Proof.
  assert (G : forall l sv0, calm sv0 -> runUninterrupted sv0 l = Some sv -> calm sv).
  { induction l as [| e rest IH]; simpl; intros sv0 H0.
    - intros [= <-]. exact H0.
    - destruct (run sv0 (expand sv0 e)) as [sv1 |] eqn:E; [| discriminate].
      apply IH. destruct e.
      + apply (submit_calm _ _ _ _ _ H0 E).
      + apply (report_calm _ _ _ _ _ _ _ H0 E).
      + apply (settle_calm _ _ _ _ _ H0 E). }
  intros H. pose proof (G _ _ initial_calm H) as C.
  split; [exact C | apply calm_single_job; exact C].
Qed.

End JobQueueFacts.

(** ** Soft stop *)

Module StopFlagFacts.

Import StopFlag Scenarios.

Lemma POST_sets_the_flag now f : getShouldStopParsing (POST now f) = true.
Proof. reflexivity. Qed.

Lemma resets_clear (l : list N) f :
  l <> [] ->
  shouldStopParsing (fold_left (fun acc _ => resetFlags acc) l f) = false.
Proof.
  revert f. induction l as [| t rest IH]; intros f H; [congruence |].
  simpl. destruct rest as [| t' rest']; [reflexivity |].
  apply IH. discriminate.
Qed.

Section Loop.

Variable outcome : Email -> Outcome.

Lemma parseLoop_stopped work f r :
  getShouldStopParsing f = true -> parseLoop outcome work f r = (r, f).
Proof. intros H. destruct work as [| [email during] rest]; simpl; [| rewrite H]; reflexivity. Qed.

(** The loop of the parse route reads the flag before every e-mail: a
    batch that finds it set stops there and returns the results gathered so
    far.  A stop request that arrives while an e-mail is being handled lets
    that e-mail finish; the loop stops before the next e-mail when the flag
    is still set at that moment.  A stop request sets the flag, and the
    timer it starts clears the flag once 5000 ms have passed. *)
Lemma parse_loop_polls_the_stop_flag
    (email : Email) (during : list Interrupt) (rest : list (Email * list Interrupt))
    (f : Flags) (r : Results) (now later : N) :
  (getShouldStopParsing f = true ->
     parseLoop outcome ((email, during) :: rest) f r = (r, f))
  /\ (getShouldStopParsing f = false ->
      getShouldStopParsing (fold_left interrupt during f) = true ->
      parseLoop outcome ((email, during) :: rest) f r
      = (handle outcome email r, fold_left interrupt during f))
  /\ getShouldStopParsing (POST now f) = true
  /\ ((now + 5000 <= later)%N ->
      getShouldStopParsing (tick later (POST now f)) = false).
Proof.
  split; [apply parseLoop_stopped |].
  split; [| split; [reflexivity |]].
  - intros H0 H1. simpl. rewrite H0. apply parseLoop_stopped. exact H1.
  - intros Hdue. unfold tick. cbn [shouldStopParsing].
    apply resets_clear. unfold POST. cbn [timers setShouldStopParsing].
    rewrite List.filter_app. simpl. unfold resetDelay.
    destruct (now + 5000 <=? later)%N eqn:E.
    + intros H. apply app_eq_nil in H. destruct H as [_ H]. discriminate H.
    + apply N.leb_gt in E. lia.
Qed.

End Loop.

(** A mailbox pass takes nothing from the flags and leaves them as they
    are: its result and the table it leaves are the same whatever the flags
    hold. *)
Lemma mailbox_pass_reads_no_flag
    (classifyWithAI : Email -> Settings -> ClassificationResult)
    (getRules : Result (list Rule)) (clock : string) (settings : Settings)
    (fetched : Result (list Pipeline.FetchedMessage)) (f f' : Flags)
    (table : DataStore) :
  let before := mailboxPass classifyWithAI getRules clock settings fetched
                  {| flags := f; db := table |} in
  let after := mailboxPass classifyWithAI getRules clock settings fetched
                 {| flags := f'; db := table |} in
  fst before = fst after
  /\ db (snd before) = db (snd after)
  /\ flags (snd before) = f.
Proof.
  cbv zeta. unfold mailboxPass. cbn [db flags].
  destruct (Pipeline.processEmails _ _ _ _ _ _). repeat split.
Qed.

(** In the parse route a stop request is lost when the e-mail in hand
    takes longer than the reset delay: the request arrives at 1000 ms, the
    timer clears the flag at 6000 ms while the first e-mail is still being
    handled, and the second e-mail is handled too. *)
Lemma stop_request_lost_after_the_reset :
  parseLoop allUpdated
    [(quoteMail, [StopRequest 1000; Tick 6000]); (orderMail, [])] idle noResults
  = (handle allUpdated orderMail (handle allUpdated quoteMail noResults), idle).
Proof. vm_compute. reflexivity. Qed.

(** C7 (soft stop).  The stop route has set both stop flags and its reset
    timer, due at 5000 ms, has not fired.  A mailbox pass over two fetched
    messages that runs in this state handles and stores both messages and
    reports processedCount 2: it does not stop before the next message, and
    it leaves the flags set.  The loop of the parse route, started in the
    same state, stops before its first e-mail. *)
Theorem C7_mailbox_pass_ignores_the_stop_flag :
  getShouldStopParsing (flags stopRequested) = true
  /\ shouldStop (flags stopRequested) = true
  /\ timers (flags stopRequested) = [5000%N]
  /\ fst (mailboxPass noAI (Ok []) clock plainSettings
            (Ok [customerMessage; customerMessage]) stopRequested)
     = Ok {| Pipeline.processedCount := 2; Pipeline.errors := [] |}
  /\ length (emails (db (snd (mailboxPass noAI (Ok []) clock plainSettings
                               (Ok [customerMessage; customerMessage])
                               stopRequested)))) = 2%nat
  /\ flags (snd (mailboxPass noAI (Ok []) clock plainSettings
                   (Ok [customerMessage; customerMessage]) stopRequested))
     = flags stopRequested
  /\ parseLoop allUpdated [(quoteMail, []); (orderMail, [])]
       (flags stopRequested) noResults
     = (noResults, flags stopRequested).
Proof. repeat split; vm_compute; reflexivity. Qed.

End StopFlagFacts.


(** ** The confidence formulas in double precision *)

Module Binary64Facts.

Import Binary64.

Local Open Scope float_scope.

(** One keyword hit gives exactly the double 0.4. *)
Lemma binary64_one_hit : (keywordConfidence 1 =? 0.4) = true.
Proof. vm_compute. reflexivity. Qed.

(** The keyword confidence never exceeds 0.8 and is 0.8 from five hits on
    (checked up to twelve hits). *)
Lemma binary64_keyword_cap :
  forallb (fun n => keywordConfidence n <=? 0.8) (seq 0 13) = true
  /\ forallb (fun n => keywordConfidence n =? 0.8) (seq 5 8) = true.
Proof. split; vm_compute; reflexivity. Qed.

(** For two or three required fields the reply confidence stays within
    0.1 and 0.95, and one more populated field never lowers it. *)
Lemma binary64_reply_bounds (present required : nat) (bonus : bool) :
  required = 2%nat \/ required = 3%nat -> (present <= required)%nat ->
  (0.1 <=? replyConfidence present required bonus) = true
  /\ (replyConfidence present required bonus <=? 0.95) = true.
Proof.
  intros Hr Hp.
  assert (H : (present = 0 \/ present = 1 \/ present = 2 \/ present = 3)%nat) by lia.
  destruct Hr as [-> | ->]; destruct H as [-> | [-> | [-> | ->]]]; try lia;
    destruct bonus; split; vm_compute; reflexivity.
Qed.

Lemma binary64_reply_mono (pA pB required : nat) (bA bB : bool) :
  required = 2%nat \/ required = 3%nat ->
  (pA < pB)%nat -> (pB <= required)%nat ->
  (replyConfidence pA required bA <=? replyConfidence pB required bB) = true.
Proof.
  intros Hr Hlt Hle.
  assert (HB : (pB = 1 \/ pB = 2 \/ pB = 3)%nat) by lia.
  assert (HA : (pA = 0 \/ pA = 1 \/ pA = 2)%nat) by lia.
  destruct Hr as [-> | ->];
    destruct HB as [-> | [-> | ->]]; destruct HA as [-> | [-> | ->]];
    try lia; destruct bA, bB; vm_compute; reflexivity.
Qed.

End Binary64Facts.

(** ** File archiver *)

Module ArchiverFacts.
Import Archiver.

Lemma append_nil (b : string) : EmptyString +:+ b = b.
Proof. reflexivity. Qed.

Lemma append_cons (x : ascii) (a b : string) :
  String x a +:+ b = String x (a +:+ b).
Proof. reflexivity. Qed.

Lemma append_assoc (a b c : string) : (a +:+ b) +:+ c = a +:+ (b +:+ c).
Proof.
  induction a as [| x a IH]; [reflexivity |].
  now rewrite !append_cons, IH.
Qed.

Lemma replaceChar_app (c : ascii) (rep a b : string) :
  replaceChar c rep (a +:+ b) = replaceChar c rep a +:+ replaceChar c rep b.
Proof.
  induction a as [| x a IH]; [reflexivity |].
  rewrite append_cons. cbn [replaceChar]. now rewrite IH, append_assoc.
Qed.

Lemma entity_passes (c : ascii) :
  replaceChar squote "&#39;"
    (replaceChar Extractor.dquote "&quot;"
      (replaceChar ">" "&gt;"
        (replaceChar "<" "&lt;"
          (if Ascii.eqb c "&" then "&amp;" else String c EmptyString))))
  = entity c.
Proof. destruct c as [[] [] [] [] [] [] [] []]; reflexivity. Qed.

Lemma escapeHtml_cons (c : ascii) (s : string) :
  escapeHtml (String c s) = entity c +:+ escapeHtml s.
Proof.
  unfold escapeHtml.
  change (replaceChar "&" "&amp;" (String c s))
    with ((if Ascii.eqb c "&" then "&amp;" else String c EmptyString)
          +:+ replaceChar "&" "&amp;" s).
  rewrite !replaceChar_app. now rewrite entity_passes.
Qed.

(** X1.  [escapeHtml] replaces every character by its entity exactly once:
    the five chained replacements never escape the ampersand of an entity
    that an earlier replacement wrote. *)
Theorem escapeHtml_one_pass (text : string) : escapeHtml text = entities text.
Proof.
  induction text as [| c s IH]; [reflexivity |].
  rewrite escapeHtml_cons, IH. reflexivity.
Qed.

Lemma startsWith_nil (s : string) : JS.startsWith s EmptyString = true.
Proof. destruct s; reflexivity. Qed.

Lemma includes_char_app (a b : string) (c : ascii) :
  JS.includes (a +:+ b) (String c EmptyString)
  = JS.includes a (String c EmptyString) || JS.includes b (String c EmptyString).
Proof.
  induction a as [| x a IH].
  - rewrite append_nil. destruct b; reflexivity.
  - rewrite append_cons. cbn [JS.includes JS.startsWith]. rewrite IH.
    rewrite !startsWith_nil. destruct (Ascii.eqb c x); reflexivity.
Qed.

Lemma entity_no_markup (c : ascii) :
  JS.includes (entity c) "<" = false /\ JS.includes (entity c) ">" = false
  /\ JS.includes (entity c) (String Extractor.dquote EmptyString) = false
  /\ JS.includes (entity c) (String squote EmptyString) = false.
Proof. destruct c as [[] [] [] [] [] [] [] []]; repeat split; reflexivity. Qed.

(** X2.  The text that [escapeHtml] returns holds no [<], no [>], no double
    quote and no single quote. *)
Theorem escapeHtml_no_markup (text : string) :
  JS.includes (escapeHtml text) "<" = false
  /\ JS.includes (escapeHtml text) ">" = false
  /\ JS.includes (escapeHtml text) (String Extractor.dquote EmptyString) = false
  /\ JS.includes (escapeHtml text) (String squote EmptyString) = false.
Proof.
  induction text as [| c s (IH1 & IH2 & IH3 & IH4)].
  - repeat split; reflexivity.
  - destruct (entity_no_markup c) as (E1 & E2 & E3 & E4).
    rewrite escapeHtml_cons, !includes_char_app.
    rewrite IH1, IH2, IH3, IH4, E1, E2, E3, E4. repeat split; reflexivity.
Qed.

Lemma allChars_replaceOutside (keep : ascii -> bool) (s : string) :
  keep "_"%char = true -> allChars keep (replaceOutside keep s) = true.
Proof.
  intros K. induction s as [| c s IH]; [reflexivity |].
  cbn [replaceOutside allChars]. rewrite IH.
  destruct (keep c) eqn:E; [rewrite E | rewrite K]; reflexivity.
Qed.

Lemma length_replaceOutside (keep : ascii -> bool) (s : string) :
  String.length (replaceOutside keep s) = String.length s.
Proof. induction s as [| c s IH]; simpl; [reflexivity | now rewrite IH]. Qed.

Lemma allChars_excludes (p : ascii -> bool) (c : ascii) (s : string) :
  allChars p s = true -> p c = false ->
  JS.includes s (String c EmptyString) = false.
Proof.
  intros A P. induction s as [| d s IH]; [reflexivity |].
  cbn [allChars] in A. apply andb_prop in A as [Pd A].
  cbn [JS.includes JS.startsWith]. rewrite (IH A), startsWith_nil.
  destruct (Ascii.eqb c d) eqn:E; [| reflexivity].
  apply Ascii.eqb_eq in E. subst d. congruence.
Qed.

Lemma length_append (a b : string) :
  String.length (a +:+ b) = String.length a + String.length b.
Proof.
  induction a as [| x a IH]; [reflexivity |].
  rewrite append_cons. simpl. now rewrite IH.
Qed.

(** X3.  Whatever the customer name, the date and the order number are, the
    folder name of [saveEmailWithFiles] is made of letters, digits, [_] and
    [-] only: it holds no path separator and no dot, and it is as long as
    its three parts and the two underscores between them. *)
Theorem folderName_is_one_path_segment (customerName isoDate orderVar : string) :
  let folder := folderName customerName isoDate orderVar in
  allChars folderChar folder = true
  /\ JS.includes folder "/" = false
  /\ JS.includes folder "\" = false
  /\ JS.includes folder "." = false
  /\ String.length folder
     = String.length customerName + String.length isoDate
       + String.length orderVar + 2.
Proof.
  intros folder.
  assert (A : allChars folderChar folder = true)
    by (apply allChars_replaceOutside; reflexivity).
  split; [exact A |].
  repeat split; try (apply (allChars_excludes folderChar); [exact A | reflexivity]).
  unfold folder, folderName.
  rewrite length_replaceOutside, !length_append. simpl. lia.
Qed.

(** X4.  The file name under which [saveEmailAttachments] writes an
    attachment holds no path separator, is as long as the original name, and
    is left as it is by a second sanitisation. *)
Theorem attachment_name_has_no_separator (name : string) :
  let filename := replaceOutside fileChar name in
  allChars fileChar filename = true
  /\ JS.includes filename "/" = false
  /\ JS.includes filename "\" = false
  /\ String.length filename = String.length name
  /\ replaceOutside fileChar filename = filename.
Proof.
  intros filename.
  assert (A : allChars fileChar filename = true)
    by (apply allChars_replaceOutside; reflexivity).
  split; [exact A |].
  repeat split; try (apply (allChars_excludes fileChar); [exact A | reflexivity]).
  - apply length_replaceOutside.
  - clear A. subst filename. induction name as [| c s IH]; [reflexivity |].
    cbn [replaceOutside]. rewrite IH.
    destruct (fileChar c) eqn:E; [rewrite E | ]; reflexivity.
Qed.

Lemma space_not_alnum (c : ascii) : JS.is_space c = true -> isAlnum c = false.
Proof. destruct c as [[] [] [] [] [] [] [] []]; simpl; intros H; try reflexivity; discriminate H. Qed.

Lemma collapse_chars (s : string) : forall inRun,
  allChars nameChar (collapseSpaces inRun (keepWordChars s)) = true.
Proof.
  induction s as [| c s IH]; intros inRun; [reflexivity |].
  cbn [keepWordChars].
  destruct (isAlnum c) eqn:A; cbn [orb].
  - cbn [collapseSpaces].
    destruct (JS.is_space c) eqn:S.
    + apply space_not_alnum in S. congruence.
    + cbn [allChars]. unfold nameChar at 1. rewrite A. apply IH.
  - destruct (JS.is_space c) eqn:S; [| apply IH].
    cbn [collapseSpaces]. rewrite S.
    destruct inRun; [apply IH |]. cbn [allChars]. rewrite IH. reflexivity.
Qed.

Lemma collapse_no_double (s : string) : forall inRun,
  JS.includes (collapseSpaces inRun (keepWordChars s)) "__" = false
  /\ (inRun = true ->
      JS.startsWith (collapseSpaces inRun (keepWordChars s)) "_" = false).
Proof.
  induction s as [| c s IH]; intros inRun; [split; [reflexivity | intros _; reflexivity] |].
  cbn [keepWordChars].
  destruct (isAlnum c) eqn:A; cbn [orb].
  - cbn [collapseSpaces].
    destruct (JS.is_space c) eqn:S.
    + apply space_not_alnum in S. congruence.
    + destruct (IH false) as [I _].
      assert (N : Ascii.eqb "_" c = false).
      { destruct (Ascii.eqb "_" c) eqn:E; [| reflexivity].
        apply Ascii.eqb_eq in E. subst c. discriminate A. }
      split.
      * cbn [JS.includes JS.startsWith]. rewrite N, I. reflexivity.
      * intros _. cbn [JS.startsWith]. rewrite N. reflexivity.
  - destruct (JS.is_space c) eqn:S; [| apply IH].
    cbn [collapseSpaces]. rewrite S.
    destruct inRun; [apply IH |].
    destruct (IH true) as [I St]. specialize (St eq_refl).
    split; [| intros H; discriminate H].
    cbn [JS.includes]. rewrite I.
    change (JS.startsWith (String "_" ?x) "__") with (JS.startsWith x "_").
    rewrite St. reflexivity.
Qed.

(** X5.  When the from field has a display name, the customer name of the
    archiver is made of letters, digits and underscores, with no two
    underscores in a row. *)
Theorem display_name_becomes_a_word (fromField name : string) :
  Extractor.matchDisplayName fromField = Some name ->
  let customerName := extractCustomerName fromField in
  allChars nameChar customerName = true
  /\ JS.includes customerName "__" = false.
Proof.
  intros M customerName. unfold customerName, extractCustomerName. rewrite M.
  split; [apply collapse_chars | apply collapse_no_double].
Qed.

Lemma display_name_witness :
  Extractor.matchDisplayName Scenarios.namedSender = Some "Acme Print & Sign "
  /\ allChars nameChar (extractCustomerName Scenarios.namedSender) = true
  /\ JS.includes (extractCustomerName Scenarios.namedSender) "__" = false.
Proof.
  split; [reflexivity |].
  apply (display_name_becomes_a_word Scenarios.namedSender "Acme Print & Sign ").
  reflexivity.
Defined.

Section FileSystem.

Variable toISODate : string -> Result string.
Variable path_join : string -> string -> string.
Variable mkdir : string -> Result unit.
Variable writeFile : string -> Result unit.
Variable decodedLength : string -> N.

Lemma saveAttachment_step (dir : string) (m : Q) (saved : list string)
    (a : StoredAttachment) :
  saveAttachment path_join writeFile decodedLength dir m saved a = saved
  \/ (saveAttachment path_join writeFile decodedLength dir m saved a
        = saved ++ [path_join dir (replaceOutside fileChar (sa_filename a))]
      /\ savedFrom path_join writeFile decodedLength dir m [a]
           (path_join dir (replaceOutside fileChar (sa_filename a)))).
Proof.
  unfold saveAttachment, savedFrom, payloadLength.
  destruct (sa_data a) as [n | s | |] eqn:D; try (left; reflexivity).
  - unfold writeWithin. destruct (exceeds n m) eqn:E; [left; reflexivity |].
    destruct (writeFile _) as [u |] eqn:W; [| left; reflexivity].
    right. split; [reflexivity |].
    exists a, n.
    split; [left; reflexivity |]. split; [reflexivity |].
    split; [rewrite D; reflexivity |]. split; [exact E | exists u; reflexivity].
  - destruct s as [| c s]; [left; reflexivity |].
    unfold writeWithin.
    destruct (exceeds (decodedLength (String c s)) m) eqn:E; [left; reflexivity |].
    destruct (writeFile _) as [u |] eqn:W; [| left; reflexivity].
    right. split; [reflexivity |].
    exists a, (decodedLength (String c s)).
    split; [left; reflexivity |]. split; [reflexivity |].
    split; [rewrite D; reflexivity |]. split; [exact E | exists u; reflexivity].
Qed.

Lemma saveLoop_spec (dir : string) (m : Q) (attachments : list StoredAttachment) :
  forall saved,
  exists added,
    fold_left (saveAttachment path_join writeFile decodedLength dir m)
              attachments saved = saved ++ added
    /\ List.Forall
         (savedFrom path_join writeFile decodedLength dir m attachments) added
    /\ length added <= length attachments.
Proof.
  induction attachments as [| a rest IH]; intros saved.
  - exists []. rewrite app_nil_r. repeat split; [constructor | simpl; lia].
  - cbn [fold_left].
    assert (W : forall p,
               savedFrom path_join writeFile decodedLength dir m rest p ->
               savedFrom path_join writeFile decodedLength dir m (a :: rest) p).
    { intros p (x & n & I & H). exists x, n. split; [right; exact I | exact H]. }
    destruct (saveAttachment_step dir m saved a) as [E | [E S]]; rewrite E.
    + destruct (IH saved) as (added & F & A & L).
      exists added. repeat split; [exact F | | simpl; lia].
      eapply List.Forall_impl; [exact W | exact A].
    + destruct (IH (saved ++ [path_join dir (replaceOutside fileChar (sa_filename a))]))
        as (added & F & A & L).
      exists (path_join dir (replaceOutside fileChar (sa_filename a)) :: added).
      repeat split.
      * rewrite F, <- app_assoc. reflexivity.
      * constructor.
        -- destruct S as (x & n & [I | []] & H). exists x, n.
           split; [left; exact I | exact H].
        -- eapply List.Forall_impl; [exact W | exact A].
      * simpl; lia.
Qed.

(** X6.  Once the attachments directory is made, [saveEmailAttachments]
    resolves whatever the writes do, and every path it returns is the file
    of an attachment that has data within the size limit and whose write
    succeeded; it rejects only when the directory cannot be made. *)
Theorem saveEmailAttachments_skips_what_it_cannot_write
    (attachments : list StoredAttachment) (folder : string) (maxAttachmentSize : Q) :
  let attachmentsDir := path_join folder "attachments" in
  let outcome :=
    saveEmailAttachments path_join mkdir writeFile decodedLength
      (Some attachments) folder maxAttachmentSize in
  match mkdir attachmentsDir with
  | Throw message => outcome = Throw message \/ attachments = []
  | Ok _ =>
      exists savedFiles,
        outcome = Ok savedFiles
        /\ List.Forall
             (savedFrom path_join writeFile decodedLength attachmentsDir
                        maxAttachmentSize attachments)
             savedFiles
        /\ length savedFiles <= length attachments
  end.
Proof.
  intros attachmentsDir outcome. unfold outcome, saveEmailAttachments.
  destruct attachments as [| a rest].
  - destruct (mkdir attachmentsDir); [| right; reflexivity].
    exists []. repeat split; [constructor | simpl; lia].
  - fold attachmentsDir. destruct (mkdir attachmentsDir) as [u | message]; cbn [bindR].
    + destruct (saveLoop_spec attachmentsDir maxAttachmentSize (a :: rest) [])
        as (added & F & A & L).
      exists added. rewrite F. repeat split; assumption.
    + left; reflexivity.
Qed.

(** X7.  [saveEmailWithFiles] resolves exactly when the date is valid, the
    folder can be made, the HTML and the JSON file can be written and, when
    there are attachments, their directory can be made: the write of an
    attachment never decides it. *)
Theorem saveEmailWithFiles_resolves_iff (email : Email)
    (stored : option (list StoredAttachment)) (storagePath : option string)
    (maxAttachmentSize : Q) (orderNumber : option string) :
  resolves (saveEmailWithFiles toISODate path_join mkdir writeFile decodedLength
              email stored storagePath maxAttachmentSize orderNumber)
  <->
  exists isoDate,
    toISODate (date email) = Ok isoDate
    /\ let folder :=
         path_join (JS.orElse storagePath "./data/email_files")
           (folderName (extractCustomerName (from email)) isoDate
                       (JS.orElse orderNumber "ORDER_VAR")) in
       resolves (mkdir folder)
       /\ resolves (writeFile (path_join folder "email_content.html"))
       /\ resolves (writeFile (path_join folder "email_metadata.json"))
       /\ (stored = None \/ stored = Some []
           \/ resolves (mkdir (path_join folder "attachments"))).
Proof.
  unfold saveEmailWithFiles, saveEmailHtml, saveEmailJson, saveEmailAttachments.
  split.
  - intros [files R].
    destruct (toISODate (date email)) as [isoDate |]; [| discriminate R].
    exists isoDate. split; [reflexivity |]. cbn [bindR] in R. cbv zeta.
    destruct (mkdir _) as [u1 |]; [| discriminate R]. cbn [bindR] in R.
    destruct (writeFile (path_join _ "email_content.html")) as [u2 |];
      [| discriminate R]. cbn [bindR] in R.
    destruct (writeFile (path_join _ "email_metadata.json")) as [u3 |];
      [| discriminate R]. cbn [bindR] in R.
    repeat split; try (eexists; reflexivity).
    destruct stored as [[| a rest] |]; [right; left; reflexivity | | left; reflexivity].
    right; right.
    destruct (mkdir (path_join _ "attachments")) as [u4 |]; [| discriminate R].
    eexists; reflexivity.
  - intros (isoDate & D & [u1 M] & [u2 H] & [u3 J] & A).
    rewrite D. cbn [bindR]. rewrite M. cbn [bindR]. rewrite H. cbn [bindR].
    rewrite J. cbn [bindR].
    destruct stored as [[| a rest] |]; try (eexists; reflexivity).
    destruct A as [A | [A | [u4 A]]]; try discriminate A.
    rewrite A. eexists; reflexivity.
Qed.

End FileSystem.

End ArchiverFacts.

(** ** Data store *)

Module StoreFacts.
Import Store.

Lemma findIndex_none {A : Type} (p : A -> bool) (l : list A) :
  findIndex p l = None <-> List.Forall (fun x => p x = false) l.
Proof.
  induction l as [| x l IH]; simpl.
  - split; [constructor | reflexivity].
  - destruct (p x) eqn:P.
    + split; [discriminate | intros H; inversion H; congruence].
    + destruct (findIndex p l); simpl.
      * split; [discriminate | intros H; inversion H; subst].
        destruct IH as [_ IH]. specialize (IH H3). discriminate IH.
      * split; [intros _; constructor; [exact P | now apply IH] | reflexivity].
Qed.

(** Where [findIndex] points: the elements before fail the test, the
    element there passes it. *)
Lemma findIndex_some {A : Type} (p : A -> bool) (l : list A) (index : nat) :
  findIndex p l = Some index ->
  exists before x after,
    l = before ++ x :: after /\ length before = index
    /\ p x = true /\ List.Forall (fun y => p y = false) before.
Proof.
  revert index. induction l as [| x l IH]; intros index; simpl; [discriminate |].
  destruct (p x) eqn:P.
  - intros [= <-]. exists [], x, l. repeat split; [exact P | constructor].
  - destruct (findIndex p l) as [k |]; simpl; [| discriminate].
    intros [= <-]. destruct (IH k eq_refl) as (before & y & after & -> & L & Py & F).
    exists (x :: before), y, after. repeat split; simpl; try congruence.
    constructor; assumption.
Qed.

Lemma lookup_middle {A : Type} (before : list A) (x : A) (after : list A) :
  (before ++ x :: after) !! length before = Some x.
Proof. induction before; simpl; [reflexivity | assumption]. Qed.

Lemma insert_middle {A : Type} (before : list A) (x y : A) (after : list A) :
  <[length before := y]> (before ++ x :: after) = before ++ y :: after.
Proof. induction before; simpl; [reflexivity | now f_equal]. Qed.

Lemma delete_middle {A : Type} (before : list A) (x : A) (after : list A) :
  delete (length before) (before ++ x :: after) = before ++ after.
Proof. induction before; simpl; [reflexivity | now f_equal]. Qed.

Lemma deleteEmail_cases (wanted : string) (db : DataStore) :
  (List.Forall (fun e => hasId wanted e = false) (emails db)
   /\ deleteEmail wanted db = (false, db))
  \/ exists before email after,
       emails db = before ++ email :: after
       /\ id email = wanted
       /\ List.Forall (fun e => hasId wanted e = false) before
       /\ deleteEmail wanted db = (true, withEmails (before ++ after) db).
Proof.
  unfold deleteEmail.
  destruct (findIndex (hasId wanted) (emails db)) as [index |] eqn:F.
  - right. destruct (findIndex_some _ _ _ F) as (before & x & after & E & L & P & B).
    exists before, x, after. repeat split; try assumption.
    + now apply String.eqb_eq.
    + rewrite E, <- L, delete_middle. reflexivity.
  - left. split; [now apply findIndex_none | reflexivity].
Qed.

Lemma updateEmail_cases (wanted : string) (updates : EmailUpdates) (db : DataStore) :
  (List.Forall (fun e => hasId wanted e = false) (emails db)
   /\ updateEmail wanted updates db = (None, db))
  \/ exists before email after,
       emails db = before ++ email :: after
       /\ id email = wanted
       /\ List.Forall (fun e => hasId wanted e = false) before
       /\ updateEmail wanted updates db
          = (Some (spread email updates),
             withEmails (before ++ spread email updates :: after) db).
Proof.
  unfold updateEmail.
  destruct (findIndex (hasId wanted) (emails db)) as [index |] eqn:F.
  - right. destruct (findIndex_some _ _ _ F) as (before & x & after & E & L & P & B).
    exists before, x, after. repeat split; try assumption.
    + now apply String.eqb_eq.
    + rewrite E, <- L, lookup_middle, insert_middle. reflexivity.
  - left. split; [now apply findIndex_none | reflexivity].
Qed.

Lemma filter_all_false {A : Type} (p : A -> bool) (l : list A) :
  List.Forall (fun x => p x = true) l -> List.filter p l = l.
Proof.
  induction 1 as [| x l P _ IH]; simpl; [reflexivity |]. now rewrite P, IH.
Qed.

Lemma not_hasId_of_NoDup (wanted : string) (l : list Email) :
  ~ In wanted (List.map id l) ->
  List.Forall (fun e => negb (hasId wanted e) = true) l.
Proof.
  intros N. apply List.Forall_forall. intros e I.
  unfold hasId. destruct (String.eqb (id e) wanted) eqn:E; [| reflexivity].
  apply String.eqb_eq in E. exfalso. apply N. rewrite <- E. now apply in_map.
Qed.

(** With unique ids, a deletion is a filter. *)
Lemma deleteEmail_filter (wanted : string) (db : DataStore) :
  List.NoDup (List.map id (emails db)) ->
  snd (deleteEmail wanted db)
  = withEmails (List.filter (fun e => negb (hasId wanted e)) (emails db)) db.
Proof.
  intros U.
  destruct (deleteEmail_cases wanted db)
    as [[F ->] | (before & x & after & E & I & B & ->)]; cbn [snd].
  - rewrite filter_all_false; [destruct db; reflexivity |].
    eapply List.Forall_impl; [| exact F]. intros e ->. reflexivity.
  - rewrite E in *. rewrite List.filter_app. cbn [List.filter].
    assert (H : hasId wanted x = true) by (now apply String.eqb_eq).
    rewrite H. cbn [negb].
    rewrite List.map_app in U. cbn [List.map] in U.
    apply List.NoDup_remove_2 in U. rewrite I in U.
    rewrite !filter_all_false; [reflexivity | |].
    + apply not_hasId_of_NoDup. intros C. apply U, in_or_app. now right.
    + eapply List.Forall_impl; [| exact B]. intros e ->. reflexivity.
Qed.

Lemma NoDup_filter_ids (p : Email -> bool) (l : list Email) :
  List.NoDup (List.map id l) -> List.NoDup (List.map id (List.filter p l)).
Proof.
  induction l as [| e l IH]; simpl; [trivial |].
  intros U. inversion U as [| ? ? N U']; subst.
  destruct (p e); simpl; [constructor |]; auto.
  intros C. apply N. apply List.in_map_iff in C as (y & E & I).
  apply List.filter_In in I as [I _]. rewrite <- E. now apply in_map.
Qed.


Lemma deleteEmail_unique (wanted : string) (db : DataStore) :
  List.NoDup (List.map id (emails db)) ->
  let kept := List.filter (fun e => negb (hasId wanted e)) (emails db) in
  exists found,
    deleteEmail wanted db = (found, withEmails kept db)
    /\ length (emails db) = length kept + (if found then 1 else 0).
Proof.
  intros U kept. pose proof (deleteEmail_filter wanted db U) as S.
  fold kept in S.
  destruct (deleteEmail_cases wanted db)
    as [[F E] | (before & x & after & E & I & B & D)].
  - exists false. rewrite E in *. cbn [snd] in S. split; [now rewrite <- S |].
    rewrite S at 1. cbn [emails withEmails]. lia.
  - exists true. rewrite D in *. cbn [snd] in S. split; [now rewrite <- S |].
    apply (f_equal emails) in S. cbn [emails withEmails] in S.
    rewrite <- S, E, !length_app. simpl. lia.
Qed.

Lemma filter_twice {A : Type} (p q : A -> bool) (l : list A) :
  List.filter q (List.filter p l) = List.filter (fun x => p x && q x) l.
Proof.
  induction l as [| x l IH]; simpl; [reflexivity |].
  destruct (p x); simpl; [destruct (q x); now rewrite IH | exact IH].
Qed.

Lemma withEmails_same (db : DataStore) : withEmails (emails db) db = db.
Proof. destruct db; reflexivity. Qed.

Lemma deleteEach_from (ids : list string) : forall (n : nat) (db : DataStore),
  List.NoDup (List.map id (emails db)) ->
  let kept := List.filter (fun e => negb (includesId ids (id e))) (emails db) in
  fold_left (fun st wanted =>
               let '(found, store') := deleteEmail wanted (snd st) in
               (if found then S (fst st) else fst st, store'))
            ids (n, db)
  = ((n + (length (emails db) - length kept))%nat, withEmails kept db).
Proof.
  induction ids as [| i ids IH]; intros n db U kept.
  - cbn [fold_left]. subst kept. cbn [includesId existsb negb].
    rewrite filter_all_false by (apply List.Forall_forall; reflexivity).
    rewrite withEmails_same. f_equal. lia.
  - cbn [fold_left snd fst].
    destruct (deleteEmail_unique i db U) as (found & -> & L).
    set (l1 := List.filter (fun e => negb (hasId i e)) (emails db)) in *.
    assert (U1 : List.NoDup (List.map id (emails (withEmails l1 db))))
      by (cbn [emails withEmails]; now apply NoDup_filter_ids).
    pose proof (IH (if found then S n else n) _ U1) as R. cbv zeta in R.
    rewrite R. clear R.
    cbn [emails withEmails].
    assert (K : List.filter (fun e => negb (includesId ids (id e))) l1 = kept).
    { unfold l1, kept. rewrite filter_twice. apply List.filter_ext. intros e.
      cbn [includesId existsb]. unfold hasId, includesId.
      now rewrite negb_orb. }
    rewrite K.
    pose proof (List.filter_length_le (fun e => negb (includesId ids (id e))) l1) as B.
    rewrite K in B.
    f_equal. destruct found; lia.
Qed.

(** X8.  When the ids of the stored e-mails are unique, deleting a list of
    ids one by one with [deleteEmail] leaves the same table and the same
    count as [bulkDeleteEmails] does. *)
Theorem bulkDelete_is_repeated_delete (ids : list string) (db : DataStore) :
  List.NoDup (List.map id (emails db)) ->
  deleteEach ids db = bulkDeleteEmails ids db.
Proof.
  intros U. unfold deleteEach, bulkDeleteEmails.
  now rewrite (deleteEach_from ids 0 db U).
Qed.

Lemma bulkDelete_witness :
  List.NoDup (List.map id (emails Scenarios.threeStored))
  /\ deleteEach ["3"; "1"; "7"] Scenarios.threeStored
     = bulkDeleteEmails ["3"; "1"; "7"] Scenarios.threeStored.
Proof.
  assert (U : List.NoDup (List.map id (emails Scenarios.threeStored))).
  { repeat constructor; simpl; intuition discriminate. }
  split; [exact U | exact (bulkDelete_is_repeated_delete _ _ U)].
Defined.

(** X9.  [deleteEmail] answers true exactly when an e-mail with the id is
    stored; it then takes one e-mail out of the table, and the e-mails with
    another id stay as they are and in their order. *)
Theorem deleteEmail_removes_one (wanted : string) (db : DataStore) :
  let other := fun e => negb (hasId wanted e) in
  fst (deleteEmail wanted db) = existsb (hasId wanted) (emails db)
  /\ List.filter other (emails (snd (deleteEmail wanted db)))
     = List.filter other (emails db)
  /\ length (emails db)
     = (length (emails (snd (deleteEmail wanted db)))
        + (if fst (deleteEmail wanted db) then 1 else 0))%nat.
Proof.
  intros other.
  assert (Keep : forall l, List.Forall (fun e => hasId wanted e = false) l ->
                           existsb (hasId wanted) l = false
                           /\ List.filter other l = l).
  { intros l F. split.
    - induction F as [| e l P _ IH]; simpl; [reflexivity | now rewrite P, IH].
    - apply filter_all_false. eapply List.Forall_impl; [| exact F].
      intros e E. unfold other. now rewrite E. }
  destruct (deleteEmail_cases wanted db)
    as [[F ->] | (before & x & after & E & I & B & ->)]; cbn [fst snd].
  - destruct (Keep _ F) as [-> _]. repeat split; lia.
  - cbn [emails withEmails]. rewrite E.
    assert (H : hasId wanted x = true) by (now apply String.eqb_eq).
    rewrite existsb_app. cbn [existsb]. rewrite H, orb_true_r.
    rewrite !List.filter_app. cbn [List.filter].
    replace (other x) with false by (unfold other; now rewrite H).
    rewrite !length_app. simpl. repeat split; lia.
Qed.

(** X10.  [updateEmail] with an update that carries no id leaves the ids of
    the table as they are, position by position; it answers null exactly
    when no stored e-mail has the id, and otherwise the record it returns
    is in the table and has the id. *)
Theorem updateEmail_keeps_the_ids (wanted : string) (updates : EmailUpdates)
    (db : DataStore) :
  u_id updates = None ->
  List.map id (emails (snd (updateEmail wanted updates db)))
  = List.map id (emails db)
  /\ match fst (updateEmail wanted updates db) with
     | None => ~ In wanted (List.map id (emails db))
               /\ snd (updateEmail wanted updates db) = db
     | Some email => In email (emails (snd (updateEmail wanted updates db)))
                     /\ id email = wanted
     end.
Proof.
  intros N.
  destruct (updateEmail_cases wanted updates db)
    as [[F ->] | (before & x & after & E & I & B & ->)]; cbn [fst snd].
  - repeat split. intros C. apply List.in_map_iff in C as (e & Ie & He).
    rewrite List.Forall_forall in F. specialize (F e He).
    unfold hasId in F. rewrite Ie, String.eqb_refl in F. discriminate F.
  - cbn [emails withEmails]. rewrite E.
    assert (K : id (spread x updates) = id x) by (cbn; now rewrite N).
    repeat split.
    + rewrite !List.map_app. cbn [List.map]. now rewrite K.
    + apply in_or_app. right. now left.
    + now rewrite K.
Qed.

Lemma updateEmail_witness :
  u_id (Reclassify.onlyClassification cls_inbox) = None
  /\ List.map id (emails (snd (updateEmail "2"
        (Reclassify.onlyClassification cls_inbox) Scenarios.threeStored)))
     = List.map id (emails Scenarios.threeStored).
Proof.
  split; [reflexivity |].
  apply (updateEmail_keeps_the_ids "2" (Reclassify.onlyClassification cls_inbox)
           Scenarios.threeStored eq_refl).
Defined.


Lemma hasId_by_ids (wanted : string) (l l' : list Email) :
  List.map id l = List.map id l' ->
  existsb (hasId wanted) l = existsb (hasId wanted) l'.
Proof.
  revert l'. induction l as [| e l IH]; intros [| e' l'] E; try discriminate E.
  - reflexivity.
  - injection E as E1 E2. cbn [existsb]. unfold hasId at 1 3.
    now rewrite E1, (IH l' E2).
Qed.

Lemma bulkUpdate_from (updates : list (string * EmailUpdates)) :
  forall (n : nat) (db : DataStore),
  let stored := fun u : string * EmailUpdates =>
                  existsb (hasId (fst u)) (emails db) in
  fst (fold_left bulkUpdateStep updates (n, db))
  = (n + length (List.filter stored updates))%nat
  /\ List.map id (emails (snd (fold_left bulkUpdateStep updates (n, db))))
     = List.map id (emails db).
Proof.
  induction updates as [| u updates IH]; intros n db stored.
  - cbn. split; [lia | reflexivity].
  - cbn [fold_left List.filter]. unfold bulkUpdateStep at 2 4.
    destruct (updateEmail_cases (fst u) (withoutId (snd u)) db)
      as [[F ->] | (before & x & after & E & I & B & ->)].
    + assert (St : stored u = false).
      { unfold stored. clear - F.
        induction F as [| e l P _ IHF]; simpl; [reflexivity | now rewrite P, IHF]. }
      rewrite St. apply IH.
    + assert (St : stored u = true).
      { unfold stored. rewrite E, existsb_app. cbn [existsb].
        unfold hasId at 2. rewrite I, String.eqb_refl. apply orb_true_r. }
      rewrite St.
      set (db' := withEmails (before ++ spread x (withoutId (snd u)) :: after) db).
      assert (K : List.map id (emails db') = List.map id (emails db)).
      { unfold db'. cbn [emails withEmails]. rewrite E, !List.map_app.
        reflexivity. }
      destruct (IH (S n) db') as [C M]. rewrite M, K. split; [| reflexivity].
      rewrite C. cbn [length].
      rewrite (List.filter_ext
                 (fun u0 : string * EmailUpdates => existsb (hasId (fst u0)) (emails db'))
                 stored); [lia |].
      intros u0. apply hasId_by_ids. exact K.
Qed.

(** X11.  [bulkUpdateEmails] counts the updates whose id is stored, and it
    leaves the ids of the table as they are: the id that an update names
    is never written into a record. *)
Theorem bulkUpdateEmails_counts_the_stored_ids
    (updates : list (string * EmailUpdates)) (db : DataStore) :
  fst (bulkUpdateEmails updates db)
  = length (List.filter (fun u => existsb (hasId (fst u)) (emails db)) updates)
  /\ List.map id (emails (snd (bulkUpdateEmails updates db)))
     = List.map id (emails db).
Proof. unfold bulkUpdateEmails. apply (bulkUpdate_from updates 0 db). Qed.

(** X12.  When the rules file cannot be written, [addRule] and [deleteRule]
    reject, and yet the table in memory is already changed: the new rule is
    in it, and the rule to delete is gone from it. *)
Theorem rules_change_before_the_write (saveRulesToFile : list Rule -> Result unit)
    (errorMessage newId : string) (rule : Rule) (rules : list Rule) :
  (forall table, saveRulesToFile table = Throw errorMessage) ->
  fst (addRule saveRulesToFile newId rule rules) = Throw "Failed to persist rule"
  /\ In (withRuleId newId rule) (snd (addRule saveRulesToFile newId rule rules))
  /\ forall wanted,
       In wanted (List.map rule_id rules) ->
       fst (deleteRule saveRulesToFile wanted rules)
       = Throw "Failed to persist rule deletion"
       /\ (length (snd (deleteRule saveRulesToFile wanted rules)) + 1)%nat
          = length rules.
Proof.
  intros Fail. unfold addRule, deleteRule. cbn [fst snd]. rewrite Fail.
  split; [reflexivity |]. split; [apply in_or_app; right; now left |].
  intros wanted I.
  destruct (findIndex _ rules) as [index |] eqn:F.
  - cbn [fst snd]. rewrite Fail. split; [reflexivity |].
    destruct (findIndex_some _ _ _ F) as (before & x & after & -> & <- & _ & _).
    rewrite delete_middle, !length_app. simpl. lia.
  - exfalso. apply findIndex_none in F. rewrite List.Forall_forall in F.
    apply List.in_map_iff in I as (r & E & Ir). specialize (F r Ir).
    cbn in F. rewrite E, String.eqb_refl in F. discriminate F.
Qed.

Lemma rules_write_witness :
  (forall table : list Rule, Scenarios.readOnlyDisk table = Throw "EROFS")
  /\ fst (addRule Scenarios.readOnlyDisk "9" Scenarios.spamRule [])
     = Throw "Failed to persist rule"
  /\ In (withRuleId "9" Scenarios.spamRule)
        (snd (addRule Scenarios.readOnlyDisk "9" Scenarios.spamRule [])).
Proof.
  assert (D : forall table : list Rule,
              Scenarios.readOnlyDisk table = Throw "EROFS")
    by reflexivity.
  split; [exact D |].
  pose proof (rules_change_before_the_write Scenarios.readOnlyDisk "EROFS" "9"
                Scenarios.spamRule [] D) as (A & B & _).
  split; [exact A | exact B].
Defined.

(** X13.  [addLog] puts the new entry first and keeps the first 1000
    entries: the log never holds more than 1000. *)
Theorem addLog_keeps_the_newest (log : Log) (logs : list Log) :
  addLog log logs = firstn 1000 (log :: logs)
  /\ (length (addLog log logs) <= 1000)%nat
  /\ exists older, addLog log logs = log :: older.
Proof.
  assert (E : addLog log logs = firstn 1000 (log :: logs)).
  { unfold addLog. cbv zeta.
    destruct (1000 <? length (log :: logs))%nat eqn:C; [reflexivity |].
    apply Nat.ltb_ge in C. symmetry. now apply List.firstn_all2. }
  split; [exact E |]. rewrite E. split.
  - apply List.firstn_le_length.
  - exists (firstn 999 logs). reflexivity.
Qed.

End StoreFacts.

(** ** Re-classification *)

Module ReclassifyFacts.
Import Store Reclassify.

Lemma same_id_same_email (l : list Email) (a b : Email) :
  List.NoDup (List.map id l) -> In a l -> In b l -> id a = id b -> a = b.
Proof.
  induction l as [| e l IH]; simpl; intros U Ia Ib E; [contradiction |].
  inversion U as [| ? ? N U']; subst.
  destruct Ia as [-> | Ia], Ib as [-> | Ib]; auto.
  - exfalso. apply N. rewrite E. now apply in_map.
  - exfalso. apply N. rewrite <- E. now apply in_map.
Qed.

Lemma map_unchanged {A : Type} (g : A -> A) (l : list A) :
  List.Forall (fun x => g x = x) l -> List.map g l = l.
Proof. induction 1 as [| x l E _ IH]; simpl; [reflexivity | now rewrite E, IH]. Qed.

(** With unique ids, an update that carries no id is a map over the table. *)
Lemma updateEmail_map (wanted : string) (u : EmailUpdates) (db : DataStore) :
  List.NoDup (List.map id (emails db)) ->
  emails (snd (updateEmail wanted u db))
  = List.map (fun e => if hasId wanted e then spread e u else e) (emails db).
Proof.
  intros U.
  assert (Same : forall l, List.Forall (fun e => hasId wanted e = false) l ->
            List.map (fun e => if hasId wanted e then spread e u else e) l = l).
  { intros l F. apply map_unchanged. eapply List.Forall_impl; [| exact F].
    intros e ->. reflexivity. }
  destruct (StoreFacts.updateEmail_cases wanted u db)
    as [[F ->] | (before & x & after & E & I & B & ->)]; cbn [snd].
  - now rewrite Same.
  - cbn [emails withEmails]. rewrite E in *. rewrite List.map_app. cbn [List.map].
    assert (H : hasId wanted x = true) by (now apply String.eqb_eq).
    rewrite H, (Same before B).
    rewrite List.map_app in U. cbn [List.map] in U.
    apply List.NoDup_remove_2 in U. rewrite I in U.
    rewrite Same; [reflexivity |].
    apply List.Forall_forall. intros e Ie.
    unfold hasId. destruct (String.eqb (id e) wanted) eqn:C; [| reflexivity].
    apply String.eqb_eq in C. exfalso. apply U, in_or_app. right.
    rewrite <- C. now apply in_map.
Qed.

Section Loop.

Variables whitelistRules blacklistRules : list Rule.
Variable table : list Email.
Hypothesis unique : List.NoDup (List.map id table).

#[local] Abbreviation f := (reclassified whitelistRules blacklistRules).

Lemma loop_spec (todo : list Email) :
  forall (h : Email -> Email) (st : LoopState),
  List.NoDup (List.map id todo) ->
  (forall x, In x todo -> In x table) ->
  emails (store st) = List.map h table ->
  (forall e, id (h e) = id e) ->
  (forall x, In x todo -> h x = x) ->
  let st' := fold_left (turn whitelistRules blacklistRules) todo st in
  (exists h',
     emails (store st') = List.map h' table
     /\ (forall e, id (h' e) = id e)
     /\ (forall e, In e table -> In e todo -> h' e = f e)
     /\ (forall e, In e table -> ~ In e todo -> h' e = h e))
  /\ emailsToDelete st'
     = emailsToDelete st
       ++ List.map id (List.filter (isRemove whitelistRules blacklistRules) todo)
  /\ updatedCount st'
     = (updatedCount st
        + length (List.filter (isMove whitelistRules blacklistRules) todo))%nat.
Proof.
  induction todo as [| x rest IH]; intros h st Ut Sub E Hid Hfix st'.
  - subst st'. cbn. rewrite app_nil_r. repeat split; [| lia].
    exists h. repeat split; auto. intros e _ [].
  - subst st'. cbn [fold_left].
    inversion Ut as [| ? ? Nx Ur]; subst.
    assert (Subr : forall y, In y rest -> In y table)
      by (intros y Iy; apply Sub; now right).
    assert (Ix : In x table) by (apply Sub; now left).
    assert (Nr : ~ In x rest) by (intros C; apply Nx; now apply in_map).
    cbn [List.filter]. unfold isRemove at 1, isMove at 1.
    assert (T : turn whitelistRules blacklistRules st x
                = match verdict whitelistRules blacklistRules x with
                  | Remove =>
                      {| store := store st; updatedCount := updatedCount st;
                         emailsToDelete := emailsToDelete st ++ [id x] |}
                  | Move c =>
                      {| store := snd (updateEmail (id x) (onlyClassification c)
                                                   (store st));
                         updatedCount := S (updatedCount st);
                         emailsToDelete := emailsToDelete st |}
                  | Leave => st
                  end) by reflexivity.
    rewrite T. clear T.
    assert (Fx : verdict whitelistRules blacklistRules x = Remove
                 \/ verdict whitelistRules blacklistRules x = Leave -> f x = x)
      by (unfold reclassified; intros [-> | ->]; reflexivity).
    destruct (verdict whitelistRules blacklistRules x) as [| c |] eqn:V.
    + destruct (IH h {| store := store st; updatedCount := updatedCount st;
                        emailsToDelete := emailsToDelete st ++ [id x] |}
                  Ur Subr E Hid (fun y Iy => Hfix y (or_intror Iy)))
        as ((h' & E' & Hid' & Hin & Hout) & D & C).
      split; [| split].
      * exists h'. repeat split; auto.
        -- intros e Ie [<- | Ir]; [| now apply Hin].
           rewrite (Hout x Ix Nr), Fx by (now left). apply Hfix. now left.
        -- intros e Ie No. apply Hout; [exact Ie | intros C'; apply No; now right].
      * rewrite D. cbn [emailsToDelete List.map]. now rewrite <- app_assoc.
      * rewrite C. reflexivity.
    + set (u := onlyClassification c).
      set (h1 := fun e => if hasId (id x) e then spread (h e) u else h e).
      assert (E1 : emails (store
                     {| store := snd (updateEmail (id x) u (store st));
                        updatedCount := S (updatedCount st);
                        emailsToDelete := emailsToDelete st |})
                   = List.map h1 table).
      { cbn [store]. rewrite updateEmail_map.
        - rewrite E, List.map_map. apply List.map_ext. intros e.
          unfold h1, hasId. now rewrite Hid.
        - rewrite E, List.map_map.
          rewrite (List.map_ext (fun e => id (h e)) id Hid). exact unique. }
      assert (Hid1 : forall e, id (h1 e) = id e).
      { intros e. unfold h1. destruct (hasId (id x) e); [cbn |]; apply Hid. }
      assert (Other : forall e, In e table -> e <> x -> h1 e = h e).
      { intros e Ie Ne. unfold h1, hasId.
        destruct (String.eqb (id e) (id x)) eqn:C; [| reflexivity].
        apply String.eqb_eq in C. exfalso. apply Ne.
        now apply (same_id_same_email table). }
      assert (Hfix1 : forall y, In y rest -> h1 y = y).
      { intros y Iy. rewrite Other; [apply Hfix; now right | now apply Subr |].
        intros ->. contradiction. }
      destruct (IH h1 _ Ur Subr E1 Hid1 Hfix1)
        as ((h' & E' & Hid' & Hin & Hout) & D & C).
      split; [| split].
      * exists h'. repeat split; auto.
        -- intros e Ie [<- | Ir]; [| now apply Hin].
           rewrite (Hout x Ix Nr). unfold h1, hasId.
           rewrite String.eqb_refl, (Hfix x (or_introl eq_refl)).
           unfold reclassified. now rewrite V.
        -- intros e Ie No. rewrite Hout.
           ++ apply Other; [exact Ie | intros ->; apply No; now left].
           ++ exact Ie.
           ++ intros C'. apply No. now right.
      * rewrite D. reflexivity.
      * rewrite C. cbn [updatedCount length]. lia.
    + destruct (IH h st Ur Subr E Hid (fun y Iy => Hfix y (or_intror Iy)))
        as ((h' & E' & Hid' & Hin & Hout) & D & C).
      split; [| split].
      * exists h'. repeat split; auto.
        -- intros e Ie [<- | Ir]; [| now apply Hin].
           rewrite (Hout x Ix Nr), Fx by (now right). apply Hfix. now left.
        -- intros e Ie No. apply Hout; [exact Ie | intros C'; apply No; now right].
      * exact D.
      * exact C.
Qed.

End Loop.


Lemma delete_all (ids : list string) : forall db : DataStore,
  List.NoDup (List.map id (emails db)) ->
  emails (fold_left (fun s wanted => snd (deleteEmail wanted s)) ids db)
  = List.filter (fun e => negb (includesId ids (id e))) (emails db).
Proof.
  induction ids as [| i ids IH]; intros db U; cbn [fold_left].
  - symmetry. apply StoreFacts.filter_all_false.
    apply List.Forall_forall. reflexivity.
  - rewrite (StoreFacts.deleteEmail_filter i db U), IH
      by (cbn [emails withEmails]; now apply StoreFacts.NoDup_filter_ids).
    cbn [emails withEmails]. rewrite StoreFacts.filter_twice.
    apply List.filter_ext. intros e. cbn [includesId existsb].
    unfold hasId, includesId. now rewrite negb_orb.
Qed.

Lemma filter_map_swap {A B : Type} (g : A -> B) (p : B -> bool) (l : list A) :
  List.filter p (List.map g l) = List.map g (List.filter (fun x => p (g x)) l).
Proof.
  induction l as [| x l IH]; simpl; [reflexivity |].
  destruct (p (g x)); simpl; now rewrite IH.
Qed.

Lemma filter_length_perm {A : Type} (p : A -> bool) (l l' : list A) :
  Permutation l l' -> length (List.filter p l) = length (List.filter p l').
Proof.
  induction 1 as [| x l l' _ IH | x y l | l l' l'' _ IH1 _ IH2]; simpl.
  - reflexivity.
  - destruct (p x); simpl; now rewrite IH.
  - destruct (p x), (p y); reflexivity.
  - now rewrite IH1.
Qed.

Lemma spread_same_classification (e : Email) :
  spread e (onlyClassification (classification e)) = e.
Proof. destruct e; reflexivity. Qed.

Lemma Classification_eqb_eq (a b : Classification) :
  Classification_eqb a b = true <-> a = b.
Proof. destruct a, b; simpl; split; congruence. Qed.

(** The three loops of the handler amount to one decision. *)
Lemma verdict_spec (whitelistRules blacklistRules : list Rule) (e : Email) :
  let sender := senderOf e in
  let target := if existsb (ruleMatches sender) whitelistRules
                then cls_inbox else cls_unsorted in
  verdict whitelistRules blacklistRules e
  = if existsb (ruleMatches sender) blacklistRules then Remove
    else if Classification_eqb target (classification e) then Leave
         else Move target.
Proof.
  cbv zeta. unfold verdict. cbv zeta. rewrite existsb_app.
  destruct (existsb (ruleMatches (senderOf e)) blacklistRules); [reflexivity |].
  destruct (existsb (ruleMatches (senderOf e)) whitelistRules);
    destruct (classification e); reflexivity.
Qed.

Lemma isRemove_blacklisted (whitelistRules blacklistRules : list Rule) (e : Email) :
  isRemove whitelistRules blacklistRules e
  = existsb (ruleMatches (senderOf e)) blacklistRules.
Proof.
  unfold isRemove. rewrite verdict_spec.
  destruct (existsb (ruleMatches (senderOf e)) blacklistRules); [reflexivity |].
  now destruct (Classification_eqb _ (classification e)).
Qed.

(** What the loop leaves on an e-mail that no blacklist rule matches. *)
Lemma reclassified_target (whitelistRules blacklistRules : list Rule) (e : Email) :
  existsb (ruleMatches (senderOf e)) blacklistRules = false ->
  reclassified whitelistRules blacklistRules e
  = spread e (onlyClassification
                (if existsb (ruleMatches (senderOf e)) whitelistRules
                 then cls_inbox else cls_unsorted)).
Proof.
  intros B. unfold reclassified. rewrite verdict_spec, B.
  destruct (Classification_eqb _ (classification e)) eqn:C; [| reflexivity].
  apply Classification_eqb_eq in C. rewrite C.
  symmetry. apply spread_same_classification.
Qed.

Section Handler.

Variable sortByDate : list Email -> list Email.
Hypothesis sorted_copy : forall l, Permutation (sortByDate l) l.

Lemma POST_table (rules : list Rule) (db : DataStore) :
  List.NoDup (List.map id (emails db)) ->
  emails (snd (POST sortByDate rules db))
  = List.map (fun e => spread e (onlyClassification
                                   (if whitelisted rules e
                                    then cls_inbox else cls_unsorted)))
             (List.filter (fun e => negb (blacklisted rules e)) (emails db)).
Proof.
  intros U. unfold POST. cbv zeta.
  set (wl := getRules (Some whitelist) rules).
  set (bl := getRules (Some blacklist) rules).
  set (snapshot := sortByDate (emails db)).
  assert (P : Permutation snapshot (emails db)) by apply sorted_copy.
  destruct (length snapshot =? 0)%nat eqn:L.
  - apply Nat.eqb_eq in L. apply Permutation_length in P. rewrite L in P.
    cbn [snd]. destruct (emails db); [reflexivity | discriminate P].
  - cbn [snd].
    assert (Us : List.NoDup (List.map id snapshot)).
    { eapply Permutation_NoDup; [| exact U].
      apply Permutation_map. now apply Permutation_sym. }
    destruct (loop_spec wl bl (emails db) U snapshot (fun e => e)
                {| store := db; updatedCount := 0; emailsToDelete := [] |} Us)
      as ((h' & E' & Hid' & Hin & _) & D & _).
    + intros x Ix. eapply Permutation_in; [exact P | exact Ix].
    + cbn [store]. now rewrite List.map_id.
    + reflexivity.
    + reflexivity.
    + rewrite delete_all.
      2:{ rewrite E', List.map_map.
          rewrite (List.map_ext (fun e => id (h' e)) id Hid'). exact U. }
      rewrite E', D. cbn [emailsToDelete app].
      rewrite filter_map_swap.
      assert (K : forall e, In e (emails db) ->
                  includesId (List.map id (List.filter (isRemove wl bl) snapshot))
                             (id e)
                  = blacklisted rules e).
      { intros e Ie. unfold blacklisted. fold bl.
        rewrite <- (isRemove_blacklisted wl bl e).
        destruct (isRemove wl bl e) eqn:R.
        - unfold includesId. apply existsb_exists. exists (id e).
          split; [| apply String.eqb_refl].
          apply in_map. apply List.filter_In. split; [| exact R].
          eapply Permutation_in; [apply Permutation_sym; exact P | exact Ie].
        - destruct (includesId _ (id e)) eqn:C; [| reflexivity].
          unfold includesId in C. apply existsb_exists in C as (i & Ii & Ei).
          apply String.eqb_eq in Ei. subst i.
          apply List.in_map_iff in Ii as (x & Ex & Ix).
          apply List.filter_In in Ix as [Ix Rx].
          assert (x = e).
          { apply (same_id_same_email (emails db)); auto.
            eapply Permutation_in; [exact P | exact Ix]. }
          subst x. congruence. }
      rewrite (List.filter_ext_in _ (fun e => negb (blacklisted rules e))).
      2:{ intros e Ie. now rewrite Hid', (K e Ie). }
      apply List.map_ext_in. intros e Ie.
      apply List.filter_In in Ie as [Ie Be].
      rewrite Hin; [| exact Ie |
                    eapply Permutation_in; [apply Permutation_sym; exact P | exact Ie]].
      apply reclassified_target. apply negb_true_iff in Be. exact Be.
Qed.


Lemma POST_response (rules : list Rule) (db : DataStore) :
  List.NoDup (List.map id (emails db)) ->
  fst (POST sortByDate rules db)
  = match emails db with
    | [] => NothingToReclassify
    | _ =>
        Reclassified
          (length (List.filter (isMove (getRules (Some whitelist) rules)
                                       (getRules (Some blacklist) rules))
                               (emails db)))
          (length (List.filter (blacklisted rules) (emails db)))
          (length (emails db))
    end.
Proof.
  intros U. unfold POST. cbv zeta.
  set (wl := getRules (Some whitelist) rules).
  set (bl := getRules (Some blacklist) rules).
  set (snapshot := sortByDate (emails db)).
  assert (P : Permutation snapshot (emails db)) by apply sorted_copy.
  pose proof (Permutation_length P) as PL.
  destruct (length snapshot =? 0)%nat eqn:L.
  - apply Nat.eqb_eq in L. rewrite L in PL.
    cbn [fst]. destruct (emails db); [reflexivity | discriminate PL].
  - cbn [fst].
    assert (Us : List.NoDup (List.map id snapshot)).
    { eapply Permutation_NoDup; [| exact U].
      apply Permutation_map. now apply Permutation_sym. }
    destruct (loop_spec wl bl (emails db) U snapshot (fun e => e)
                {| store := db; updatedCount := 0; emailsToDelete := [] |} Us)
      as (_ & D & C).
    + intros x Ix. eapply Permutation_in; [exact P | exact Ix].
    + cbn [store]. now rewrite List.map_id.
    + reflexivity.
    + reflexivity.
    + rewrite D, C. cbn [emailsToDelete updatedCount app Nat.add].
      rewrite length_map, PL.
      rewrite (filter_length_perm (isMove wl bl) _ _ P).
      rewrite (filter_length_perm (isRemove wl bl) _ _ P).
      rewrite (List.filter_ext (isRemove wl bl) (blacklisted rules))
        by (intros e; apply isRemove_blacklisted).
      apply Nat.eqb_neq in L. rewrite PL in L.
      destruct (emails db); [contradiction | reflexivity].
Qed.

End Handler.

Lemma blacklisted_spread (rules : list Rule) (e : Email) (c : Classification) :
  blacklisted rules (spread e (onlyClassification c)) = blacklisted rules e.
Proof. reflexivity. Qed.

(** X14.  When the ids of the stored e-mails are unique, the reclassify
    route leaves no e-mail whose sender matches a blacklist rule, active or
    not and whatever the whitelist rules are; the table shrinks by the
    number of such e-mails. *)
Theorem reclassify_leaves_no_blacklisted_mail
    (sortByDate : list Email -> list Email) (rules : list Rule) (db : DataStore) :
  (forall l, Permutation (sortByDate l) l) ->
  List.NoDup (List.map id (emails db)) ->
  let db' := snd (POST sortByDate rules db) in
  List.Forall (fun e => blacklisted rules e = false) (emails db')
  /\ (length (emails db')
      + length (List.filter (blacklisted rules) (emails db)))%nat
     = length (emails db).
Proof.
  intros P U db'. unfold db'. rewrite (POST_table sortByDate P rules db U).
  split.
  - apply List.Forall_forall. intros e' I.
    apply List.in_map_iff in I as (e & <- & I).
    apply List.filter_In in I as [_ B]. rewrite blacklisted_spread.
    now apply negb_true_iff.
  - rewrite length_map. clear.
    induction (emails db) as [| e l IH]; simpl; [reflexivity |].
    destruct (blacklisted rules e); simpl; lia.
Qed.

(** X15.  When the ids of the stored e-mails are unique, the table after
    the reclassify route is the old one, in its order, without the e-mails
    that match a blacklist rule, each remaining e-mail classified inbox
    when a whitelist rule matches its sender and unsorted otherwise; no
    other field changes. *)
Theorem reclassify_sorts_the_rest
    (sortByDate : list Email -> list Email) (rules : list Rule) (db : DataStore) :
  (forall l, Permutation (sortByDate l) l) ->
  List.NoDup (List.map id (emails db)) ->
  emails (snd (POST sortByDate rules db))
  = List.map (fun e => spread e (onlyClassification
                                   (if whitelisted rules e
                                    then cls_inbox else cls_unsorted)))
             (List.filter (fun e => negb (blacklisted rules e)) (emails db)).
Proof. intros P U. exact (POST_table sortByDate P rules db U). Qed.

(** X16.  The counts that the reclassify route reports: deleted is the
    number of stored e-mails that match a blacklist rule, updated the
    number of the others whose classification changes, total the size of
    the table; an empty table is reported as nothing to do. *)
Theorem reclassify_reports_its_counts
    (sortByDate : list Email -> list Email) (rules : list Rule) (db : DataStore) :
  (forall l, Permutation (sortByDate l) l) ->
  List.NoDup (List.map id (emails db)) ->
  fst (POST sortByDate rules db)
  = match emails db with
    | [] => NothingToReclassify
    | _ =>
        Reclassified
          (length (List.filter
                     (fun e => negb (blacklisted rules e)
                               && negb (Classification_eqb
                                          (if whitelisted rules e
                                           then cls_inbox else cls_unsorted)
                                          (classification e)))
                     (emails db)))
          (length (List.filter (blacklisted rules) (emails db)))
          (length (emails db))
    end.
Proof.
  intros P U. rewrite (POST_response sortByDate P rules db U).
  destruct (emails db) as [| e l]; [reflexivity |].
  f_equal. f_equal. apply List.filter_ext. intros x.
  unfold isMove, blacklisted, whitelisted. rewrite verdict_spec.
  destruct (existsb _ (getRules (Some blacklist) rules)); [reflexivity |].
  now destruct (Classification_eqb _ (classification x)).
Qed.

Lemma reverse_is_a_sorted_copy (l : list Email) : Permutation (rev l) l.
Proof. apply Permutation_sym, Permutation_rev. Qed.

Lemma threeStored_unique :
  List.NoDup (List.map id (emails Scenarios.threeStored)).
Proof. repeat constructor; simpl; intuition discriminate. Qed.

Lemma reclassify_blacklist_witness :
  (forall l : list Email, Permutation (rev l) l)
  /\ List.NoDup (List.map id (emails Scenarios.threeStored))
  /\ List.Forall (fun e => blacklisted Scenarios.mixedRules e = false)
        (emails (snd (POST (@rev Email) Scenarios.mixedRules Scenarios.threeStored))).
Proof.
  split; [exact reverse_is_a_sorted_copy |]. split; [exact threeStored_unique |].
  apply (reclassify_leaves_no_blacklisted_mail (@rev Email) Scenarios.mixedRules
           Scenarios.threeStored reverse_is_a_sorted_copy threeStored_unique).
Defined.

Lemma reclassify_table_witness :
  (forall l : list Email, Permutation (rev l) l)
  /\ List.NoDup (List.map id (emails Scenarios.threeStored))
  /\ List.map (fun e => (id e, classification e))
        (emails (snd (POST (@rev Email) Scenarios.mixedRules Scenarios.threeStored)))
     = [("1", cls_inbox); ("3", cls_unsorted)].
Proof.
  split; [exact reverse_is_a_sorted_copy |]. split; [exact threeStored_unique |].
  rewrite (reclassify_sorts_the_rest (@rev Email) Scenarios.mixedRules
             Scenarios.threeStored reverse_is_a_sorted_copy threeStored_unique).
  reflexivity.
Defined.

Lemma reclassify_counts_witness :
  (forall l : list Email, Permutation (rev l) l)
  /\ List.NoDup (List.map id (emails Scenarios.threeStored))
  /\ fst (POST (@rev Email) Scenarios.mixedRules Scenarios.threeStored)
     = Reclassified 1 1 3.
Proof.
  split; [exact reverse_is_a_sorted_copy |]. split; [exact threeStored_unique |].
  rewrite (reclassify_reports_its_counts (@rev Email) Scenarios.mixedRules
             Scenarios.threeStored reverse_is_a_sorted_copy threeStored_unique).
  reflexivity.
Defined.

End ReclassifyFacts.

(** ** Archive clean-up *)

Module CleanupFacts.
Import Store Cleanup.

Section Clock.

Variable timeOf : string -> option Z.
Variable cutoffTime : nat -> Result Z.
Variable sortByDate : list Email -> list Email.

#[local] Abbreviation run := (performArchiveCleanup timeOf cutoffTime sortByDate).

Lemma deleteOne_step (r : CleanupResult) (d : DataStore) (x : Email) :
  let out := deleteOne (r, d) x in
  (deletedCount (fst out) + length (errors (fst out)))%nat
  = (deletedCount r + length (errors r) + 1)%nat
  /\ totalChecked (fst out) = totalChecked r
  /\ (length (emails (snd out)) + deletedCount (fst out))%nat
     = (length (emails d) + deletedCount r)%nat
  /\ idCounter (snd out) = idCounter d.
Proof.
  unfold deleteOne.
  destruct (StoreFacts.deleteEmail_cases (id x) d)
    as [[_ ->] | (before & y & after & E & _ & _ & ->)];
    cbn [fst snd deletedCount errors totalChecked emails withEmails idCounter].
  - rewrite length_app. cbn [length]. repeat split; lia.
  - rewrite E, !length_app. cbn [length]. repeat split; lia.
Qed.

Lemma deleteOne_counts (todo : list Email) :
  forall (r : CleanupResult) (d : DataStore),
  let out := fold_left deleteOne todo (r, d) in
  (deletedCount (fst out) + length (errors (fst out)))%nat
  = (deletedCount r + length (errors r) + length todo)%nat
  /\ totalChecked (fst out) = totalChecked r
  /\ (length (emails (snd out)) + deletedCount (fst out))%nat
     = (length (emails d) + deletedCount r)%nat
  /\ idCounter (snd out) = idCounter d.
Proof.
  induction todo as [| x rest IH]; intros r d out; subst out.
  - cbn. repeat split; lia.
  - cbn [fold_left].
    pose proof (deleteOne_step r d x) as S1. cbv zeta in S1.
    destruct (deleteOne (r, d) x) as [r1 d1].
    destruct S1 as (A1 & B1 & C1 & D1).
    destruct (IH r1 d1) as (A & B & C & D).
    cbn [fst snd length] in *. repeat split; lia || congruence.
Qed.

(** X17.  The counts of [performArchiveCleanup] add up, whatever the table
    holds: when the clean-up is switched off nothing is deleted; when the
    cut-off date is invalid the error is reported and nothing is deleted;
    otherwise every old archived e-mail is counted as deleted or as an
    error, and the table shrinks by the number of deletions. *)
Theorem cleanup_counts_add_up (autoCleanupEnabled : bool)
    (cleanupRetentionDays : nat) (db : DataStore) :
  let result := fst (run autoCleanupEnabled cleanupRetentionDays db) in
  let db' := snd (run autoCleanupEnabled cleanupRetentionDays db) in
  if autoCleanupEnabled then
    match cutoffTime (retentionDays cleanupRetentionDays) with
    | Throw errorMessage =>
        result = {| deletedCount := 0; errors := [errorMessage];
                    totalChecked := 0 |}
        /\ db' = db
    | Ok cutoff =>
        (deletedCount result + length (errors result))%nat
        = length (List.filter (isOldArchived timeOf cutoff)
                              (sortByDate (emails db)))
        /\ totalChecked result = length (sortByDate (emails db))
        /\ (length (emails db') + deletedCount result)%nat = length (emails db)
        /\ idCounter db' = idCounter db
    end
  else result = {| deletedCount := 0; errors := []; totalChecked := 0 |}
       /\ db' = db.
Proof.
  cbv zeta. unfold performArchiveCleanup.
  destruct autoCleanupEnabled; cbn [negb]; [| split; reflexivity].
  destruct (cutoffTime (retentionDays cleanupRetentionDays)) as [cutoff | m];
    [| split; reflexivity].
  cbv zeta.
  destruct (length (List.filter _ (sortByDate (emails db))) =? 0)%nat eqn:L.
  - apply Nat.eqb_eq in L. rewrite L. cbn. repeat split; lia.
  - pose proof (deleteOne_counts
                  (List.filter (isOldArchived timeOf cutoff) (sortByDate (emails db)))
                  {| deletedCount := 0; errors := [];
                     totalChecked := length (sortByDate (emails db)) |} db) as H.
    cbv zeta in H. cbn [deletedCount errors totalChecked length] in H.
    destruct H as (A & B & C & D). repeat split; lia || congruence.
Qed.

Lemma deleteOne_all (todo : list Email) :
  forall (r : CleanupResult) (d : DataStore),
  List.NoDup (List.map id (emails d)) ->
  List.NoDup (List.map id todo) ->
  (forall x, In x todo -> In x (emails d)) ->
  fold_left deleteOne todo (r, d)
  = ({| deletedCount := deletedCount r + length todo; errors := errors r;
        totalChecked := totalChecked r |},
     withEmails (List.filter
                   (fun e => negb (includesId (List.map id todo) (id e)))
                   (emails d)) d).
Proof.
  induction todo as [| x rest IH]; intros r d U Ut Sub.
  - cbn [fold_left List.map length]. rewrite Nat.add_0_r.
    rewrite StoreFacts.filter_all_false
      by (apply List.Forall_forall; reflexivity).
    rewrite StoreFacts.withEmails_same. destruct r; reflexivity.
  - cbn [fold_left]. inversion Ut as [| ? ? Nx Ur]; subst.
    assert (Ix : In x (emails d)) by (apply Sub; now left).
    assert (S1 : deleteOne (r, d) x
                 = ({| deletedCount := S (deletedCount r); errors := errors r;
                       totalChecked := totalChecked r |},
                    withEmails (List.filter (fun e => negb (hasId (id x) e))
                                            (emails d)) d)).
    { unfold deleteOne.
      pose proof (StoreFacts.deleteEmail_filter (id x) d U) as F.
      destruct (StoreFacts.deleteEmail_cases (id x) d)
        as [[No _] | (before & y & after & _ & _ & _ & E)].
      - exfalso. rewrite List.Forall_forall in No. specialize (No x Ix).
        unfold hasId in No. rewrite String.eqb_refl in No. discriminate No.
      - rewrite E in *. cbn [snd] in F. now rewrite F. }
    rewrite S1, IH; cbn [emails withEmails deletedCount errors totalChecked].
    + f_equal; [f_equal; cbn [length]; lia |].
      rewrite StoreFacts.filter_twice. unfold withEmails. cbn [idCounter]. f_equal.
      apply List.filter_ext. intros e. cbn [List.map includesId existsb].
      unfold hasId, includesId. now rewrite negb_orb.
    + now apply StoreFacts.NoDup_filter_ids.
    + exact Ur.
    + intros y Iy. apply List.filter_In. split; [apply Sub; now right |].
      unfold hasId. destruct (String.eqb (id y) (id x)) eqn:C; [| reflexivity].
      apply String.eqb_eq in C. exfalso. apply Nx. rewrite <- C. now apply in_map.
Qed.

Hypothesis sorted_copy : forall l, Permutation (sortByDate l) l.

Lemma filter_perm {A : Type} (p : A -> bool) (l l' : list A) :
  Permutation l l' -> Permutation (List.filter p l) (List.filter p l').
Proof.
  induction 1 as [| x l l' _ IH | x y l | l l' l'' _ IH1 _ IH2]; simpl.
  - constructor.
  - destruct (p x); [now constructor | exact IH].
  - destruct (p x), (p y); try apply Permutation_refl. constructor.
  - eapply Permutation_trans; eassumption.
Qed.

Lemma cleanup_table (cleanupRetentionDays : nat) (cutoff : Z) (db : DataStore) :
  cutoffTime (retentionDays cleanupRetentionDays) = Ok cutoff ->
  List.NoDup (List.map id (emails db)) ->
  run true cleanupRetentionDays db
  = ({| deletedCount := length (List.filter (isOldArchived timeOf cutoff) (emails db));
        errors := [];
        totalChecked := length (emails db) |},
     withEmails (List.filter (fun e => negb (isOldArchived timeOf cutoff e))
                             (emails db)) db).
Proof.
  intros C U. unfold performArchiveCleanup. cbn [negb]. rewrite C. cbv zeta.
  set (snapshot := sortByDate (emails db)).
  set (old := List.filter (isOldArchived timeOf cutoff) snapshot).
  assert (P : Permutation snapshot (emails db)) by apply sorted_copy.
  assert (Po : Permutation old (List.filter (isOldArchived timeOf cutoff) (emails db)))
    by (now apply filter_perm).
  rewrite <- (Permutation_length Po), <- (Permutation_length P).
  assert (K : List.filter (fun e => negb (includesId (List.map id old) (id e)))
                          (emails db)
              = List.filter (fun e => negb (isOldArchived timeOf cutoff e))
                            (emails db)).
  { apply List.filter_ext_in. intros e Ie. f_equal.
    destruct (isOldArchived timeOf cutoff e) eqn:O.
    - unfold includesId. apply existsb_exists. exists (id e).
      split; [| apply String.eqb_refl]. apply in_map. apply List.filter_In.
      split; [| exact O].
      eapply Permutation_in; [apply Permutation_sym; exact P | exact Ie].
    - destruct (includesId _ (id e)) eqn:I; [| reflexivity].
      unfold includesId in I. apply existsb_exists in I as (i & Ii & Ei).
      apply String.eqb_eq in Ei. subst i.
      apply List.in_map_iff in Ii as (x & Ex & Ix).
      apply List.filter_In in Ix as [Ix Ox].
      assert (x = e).
      { apply (ReclassifyFacts.same_id_same_email (emails db)); auto.
        eapply Permutation_in; [exact P | exact Ix]. }
      subst x. congruence. }
  destruct (length old =? 0)%nat eqn:L.
  - apply Nat.eqb_eq in L. rewrite L.
    destruct old; [| discriminate L]. cbn [List.map includesId existsb negb] in K.
    rewrite <- K, StoreFacts.filter_all_false
      by (apply List.Forall_forall; reflexivity).
    now rewrite StoreFacts.withEmails_same.
  - rewrite deleteOne_all.
    + cbn [deletedCount errors totalChecked Nat.add]. now rewrite K.
    + exact U.
    + eapply Permutation_NoDup; [| exact (StoreFacts.NoDup_filter_ids
                                           (isOldArchived timeOf cutoff) _ U)].
      apply Permutation_map. now apply Permutation_sym.
    + intros x Ix. apply List.filter_In in Ix as [Ix _].
      eapply Permutation_in; [exact P | exact Ix].
Qed.

End Clock.

(** X18.  When the ids of the stored e-mails are unique, the clean-up
    deletes exactly the archived (pending) e-mails whose date is before the
    cut-off and reports no error: every other e-mail stays, in its place,
    and an e-mail whose date cannot be read is never deleted. *)
Theorem cleanup_deletes_the_old_archived_mail
    (timeOf : string -> option Z) (cutoffTime : nat -> Result Z)
    (sortByDate : list Email -> list Email)
    (cleanupRetentionDays : nat) (cutoff : Z) (db : DataStore) :
  (forall l, Permutation (sortByDate l) l) ->
  cutoffTime (retentionDays cleanupRetentionDays) = Ok cutoff ->
  List.NoDup (List.map id (emails db)) ->
  let result :=
    fst (performArchiveCleanup timeOf cutoffTime sortByDate true
           cleanupRetentionDays db) in
  let db' :=
    snd (performArchiveCleanup timeOf cutoffTime sortByDate true
           cleanupRetentionDays db) in
  emails db'
  = List.filter (fun e => negb (isOldArchived timeOf cutoff e)) (emails db)
  /\ errors result = []
  /\ deletedCount result
     = length (List.filter (isOldArchived timeOf cutoff) (emails db))
  /\ List.Forall (fun e => classification e <> cls_pending
                           \/ timeOf (date e) = None
                           \/ exists t, timeOf (date e) = Some t /\ (cutoff <= t)%Z)
                 (emails db').
Proof.
  intros P C U result db'. subst result db'.
  rewrite (cleanup_table timeOf cutoffTime sortByDate P cleanupRetentionDays
             cutoff db C U).
  cbn [fst snd emails withEmails errors deletedCount].
  repeat split.
  apply List.Forall_forall. intros e I. apply List.filter_In in I as [_ O].
  apply negb_true_iff in O. unfold isOldArchived in O.
  apply andb_false_iff in O as [O | O].
  - left. intros E. rewrite E in O. discriminate O.
  - right. destruct (timeOf (date e)) as [t |]; [right | now left].
    exists t. split; [reflexivity |]. apply Z.ltb_ge. exact O.
Qed.

Lemma cleanup_witness :
  (forall l : list Email, Permutation (rev l) l)
  /\ Scenarios.cutoffMay (retentionDays 0) = Ok 1714000000000%Z
  /\ List.NoDup (List.map id (emails Scenarios.agedStore))
  /\ List.map id
        (emails (snd (performArchiveCleanup Scenarios.monthOf Scenarios.cutoffMay
                        (@rev Email) true 0 Scenarios.agedStore)))
     = ["1"; "2"].
Proof.
  split; [exact ReclassifyFacts.reverse_is_a_sorted_copy |].
  split; [reflexivity |].
  assert (U : List.NoDup (List.map id (emails Scenarios.agedStore)))
    by (repeat constructor; simpl; intuition discriminate).
  split; [exact U |].
  destruct (cleanup_deletes_the_old_archived_mail Scenarios.monthOf
              Scenarios.cutoffMay (@rev Email) 0 1714000000000%Z
              Scenarios.agedStore ReclassifyFacts.reverse_is_a_sorted_copy
              eq_refl U) as (E & _).
  rewrite E. reflexivity.
Defined.

End CleanupFacts.

(** ** The job table over whole runs *)

Module JobTableFacts.
Import JobQueue JobTable.

(** *** Listing the jobs *)

Lemma insertByStart_perm (j : Job) (sorted : list Job) :
  Permutation (insertByStart j sorted) (j :: sorted).
Proof.
  induction sorted as [| h t IH]; simpl; [apply Permutation_refl |].
  destruct (startKey h <? startKey j)%nat; [apply Permutation_refl |].
  eapply Permutation_trans; [apply perm_skip; exact IH | apply perm_swap].
Qed.

Lemma insertByStart_sorted (j : Job) (sorted : list Job) :
  latestFirst sorted -> latestFirst (insertByStart j sorted).
Proof.
  unfold latestFirst. induction 1 as [| h t St IH F]; simpl.
  - repeat constructor.
  - destruct (startKey h <? startKey j)%nat eqn:C.
    + apply Nat.ltb_lt in C. constructor; [now constructor |].
      constructor; [lia |].
      eapply List.Forall_impl; [| exact F]. cbn. intros a H. lia.
    + apply Nat.ltb_ge in C. constructor; [exact IH |].
      apply List.Forall_forall. intros x Ix.
      apply JobQueueFacts.insertByStart_In in Ix as [-> | Ix]; [exact C |].
      rewrite List.Forall_forall in F. now apply F.
Qed.

Lemma sort_from (l : list Job) : forall acc,
  latestFirst acc ->
  latestFirst (fold_left (fun acc j => insertByStart j acc) l acc)
  /\ Permutation (fold_left (fun acc j => insertByStart j acc) l acc) (l ++ acc).
Proof.
  induction l as [| j rest IH]; intros acc S; cbn [fold_left app].
  - split; [exact S | apply Permutation_refl].
  - destruct (IH (insertByStart j acc) (insertByStart_sorted j acc S)) as [S' P].
    split; [exact S' |].
    eapply Permutation_trans; [exact P |].
    eapply Permutation_trans;
      [apply Permutation_app_head, insertByStart_perm |].
    apply Permutation_sym, Permutation_middle.
Qed.

(** X19.  [getAllJobs] lists every job of the table exactly once, the job
    that started last first; a job that has not started counts as started
    at time 0. *)
Theorem getAllJobs_lists_every_job_latest_first (q : Queue) :
  Permutation (getAllJobs q) (List.map snd (jobs q))
  /\ latestFirst (getAllJobs q).
Proof.
  unfold getAllJobs.
  destruct (sort_from (List.map snd (jobs q)) []) as [S P]; [constructor |].
  split; [| exact S]. now rewrite app_nil_r in P.
Qed.

(** *** Pruning *)

Lemma NoDup_filter_job_ids (p : Job -> bool) (l : list Job) :
  List.NoDup (List.map job_id l) -> List.NoDup (List.map job_id (List.filter p l)).
Proof.
  induction l as [| j l IH]; simpl; [trivial |].
  intros U. inversion U as [| ? ? N U']; subst.
  destruct (p j); simpl; [constructor |]; auto.
  intros C. apply N. apply List.in_map_iff in C as (y & E & I).
  apply List.filter_In in I as [I _]. rewrite <- E. now apply in_map.
Qed.

Lemma filter_length_permutation {A : Type} (p : A -> bool) (l l' : list A) :
  Permutation l l' -> length (List.filter p l) = length (List.filter p l').
Proof.
  induction 1 as [| x l l' _ IH | x y l | l l' l'' _ IH1 _ IH2]; simpl.
  - reflexivity.
  - destruct (p x); simpl; now rewrite IH.
  - destruct (p x), (p y); reflexivity.
  - now rewrite IH1.
Qed.

Lemma NoDup_app_disjoint {A : Type} (l1 l2 : list A) (a : A) :
  List.NoDup (l1 ++ l2) -> In a l1 -> In a l2 -> False.
Proof.
  induction l1 as [| x l1 IH]; simpl; intros U I1 I2; [contradiction |].
  inversion U as [| ? ? N U']; subst.
  destruct I1 as [-> | I1]; [| now apply IH].
  apply N, in_or_app. now right.
Qed.

(** X20.  On a table whose keys are the distinct ids of its jobs,
    [cleanupJobs] changes nothing while at most ten jobs are settled
    (completed or failed); otherwise exactly ten settled jobs remain.  A
    job that is pending or running is never removed. *)
Theorem cleanupJobs_keeps_ten_settled_jobs (q : Queue) :
  List.NoDup (List.map fst (jobs q)) ->
  (forall k j, In (k, j) (jobs q) -> job_id j = k) ->
  let settled := fun q' => List.filter isSettled (List.map snd (jobs q')) in
  (if (10 <? length (settled q))%nat
   then length (settled (cleanupJobs q)) = 10%nat
   else cleanupJobs q = q)
  /\ forall k j, In (k, j) (jobs q) -> isSettled j = false ->
                 In (k, j) (jobs (cleanupJobs q)).
Proof.
  intros U I settled.
  split; [| now apply JobQueueFacts.cleanupJobs_spec].
  destruct (sort_from (List.map snd (jobs q)) []) as [_ P]; [constructor |].
  rewrite app_nil_r in P. fold (getAllJobs q) in P.
  unfold settled at 1.
  rewrite <- (filter_length_permutation isSettled _ _ P).
  unfold cleanupJobs.
  set (completedJobs := List.filter isSettled (getAllJobs q)).
  destruct (10 <? length completedJobs)%nat eqn:C; [| reflexivity].
  apply Nat.ltb_lt in C. unfold settled. cbn [jobs].
  set (table := fold_left (fun m j => mapDelete (job_id j) m)
                          (skipn 10 completedJobs) (jobs q)).
  assert (Ut : List.NoDup (List.map fst table))
    by (now apply JobQueueFacts.fold_delete_NoDup).
  assert (It : forall k j, In (k, j) table <->
                 In (k, j) (jobs q)
                 /\ forall j', In j' (skipn 10 completedJobs) -> job_id j' <> k)
    by (intros k j; apply JobQueueFacts.fold_delete_In).
  assert (Keys : List.map job_id (List.map snd table) = List.map fst table).
  { rewrite List.map_map. apply List.map_ext_in. intros [k j] H. cbn.
    apply I. now apply It. }
  assert (KeysQ : List.map job_id (List.map snd (jobs q)) = List.map fst (jobs q)).
  { rewrite List.map_map. apply List.map_ext_in. intros [k j] H. cbn. now apply I. }
  assert (Ur : List.NoDup (List.filter isSettled (List.map snd table))).
  { apply List.NoDup_filter. apply (List.NoDup_map_inv job_id).
    now rewrite Keys. }
  assert (Uc : List.NoDup (List.map job_id completedJobs)).
  { apply NoDup_filter_job_ids.
    eapply Permutation_NoDup;
      [apply Permutation_map, Permutation_sym; exact P |].
    now rewrite KeysQ. }
  assert (L10 : length (firstn 10 completedJobs) = 10%nat)
    by (rewrite List.length_firstn; lia).
  rewrite <- L10. apply Nat.le_antisymm.
  - apply List.NoDup_incl_length; [exact Ur |].
    intros j H. apply List.filter_In in H as [H Sj].
    apply List.in_map_iff in H as ([k j'] & E & H). cbn in E. subst j'.
    destruct (proj1 (It k j) H) as [Hq Hd].
    assert (Hc : In j completedJobs).
    { apply List.filter_In. split; [| exact Sj].
      eapply Permutation_in; [apply Permutation_sym; exact P |].
      apply List.in_map_iff. exists (k, j). now split. }
    rewrite <- (List.firstn_skipn 10 completedJobs) in Hc.
    apply in_app_or in Hc as [Hc | Hc]; [exact Hc |].
    exfalso. apply (Hd j Hc). now apply I.
  - apply List.NoDup_incl_length.
    + apply (List.NoDup_map_inv job_id).
      rewrite <- (List.firstn_skipn 10 completedJobs), List.map_app in Uc.
      now apply List.NoDup_app_remove_r in Uc.
    + intros j Hj.
      assert (Hc : In j completedJobs)
        by (rewrite <- (List.firstn_skipn 10 completedJobs);
            apply in_or_app; now left).
      apply List.filter_In in Hc as [Hall Sj].
      apply List.filter_In. split; [| exact Sj].
      apply (Permutation_in _ P) in Hall.
      apply List.in_map_iff in Hall as ([k j'] & E & Hq). cbn in E. subst j'.
      apply List.in_map_iff. exists (k, j). split; [reflexivity |].
      apply It. split; [exact Hq |].
      intros j' Hj' E.
      rewrite <- (List.firstn_skipn 10 completedJobs), List.map_app in Uc.
      rewrite <- (I k j Hq) in E.
      apply (NoDup_app_disjoint _ _ (job_id j) Uc); [now apply in_map |].
      rewrite <- E. now apply in_map.
Qed.

Lemma cleanupJobs_witness :
  List.NoDup (List.map fst (jobs Scenarios.elevenFinished))
  /\ (forall k j, In (k, j) (jobs Scenarios.elevenFinished) -> job_id j = k)
  /\ length (List.filter isSettled
               (List.map snd (jobs (cleanupJobs Scenarios.elevenFinished))))
     = 10%nat.
Proof.
  assert (U : List.NoDup (List.map fst (jobs Scenarios.elevenFinished)))
    by (repeat constructor; simpl; intuition discriminate).
  assert (I : forall k j, In (k, j) (jobs Scenarios.elevenFinished) -> job_id j = k).
  { intros k j H. cbv in H.
    repeat (destruct H as [H | H]; [injection H as <- <-; reflexivity |]).
    contradiction. }
  split; [exact U |]. split; [exact I |].
  exact (proj1 (cleanupJobs_keeps_ten_settled_jobs Scenarios.elevenFinished U I)).
Defined.

(** *** The invariant of the table *)

Lemma suspendedAt_filter_other (k k' : nat) (w : list (nat * Suspended)) :
  k' <> k ->
  suspendedAt k' (List.filter (fun kp => negb (fst kp =? k)%nat) w)
  = suspendedAt k' w.
Proof.
  intros N. induction w as [| [k0 p0] w IH]; [reflexivity |].
  cbn [List.filter fst suspendedAt].
  destruct (k0 =? k)%nat eqn:E; cbn [negb suspendedAt].
  - apply Nat.eqb_eq in E. subst k0.
    destruct (k =? k')%nat eqn:E'; [apply Nat.eqb_eq in E'; congruence | exact IH].
  - destruct (k0 =? k')%nat; [reflexivity | exact IH].
Qed.

Lemma suspendedAt_filter_same (k : nat) (w : list (nat * Suspended)) :
  suspendedAt k (List.filter (fun kp => negb (fst kp =? k)%nat) w) = None.
Proof.
  induction w as [| [k0 p0] w IH]; [reflexivity |].
  cbn [List.filter fst]. destruct (k0 =? k)%nat eqn:E; cbn [negb]; [exact IH |].
  cbn [suspendedAt]. now rewrite E.
Qed.

Lemma suspendedAt_app (k : nat) (w w' : list (nat * Suspended)) :
  suspendedAt k (w ++ w')
  = match suspendedAt k w with
    | Some p => Some p
    | None => suspendedAt k w'
    end.
Proof.
  induction w as [| [k0 p0] w IH]; [reflexivity |].
  cbn [app suspendedAt]. destruct (k0 =? k)%nat; [reflexivity | exact IH].
Qed.

Lemma suspendedAt_moveTo_same (k : nat) (p : option Suspended)
    (w : list (nat * Suspended)) :
  suspendedAt k (moveTo k p w) = p.
Proof.
  unfold moveTo. destruct p as [p |]; [| apply suspendedAt_filter_same].
  rewrite suspendedAt_app, suspendedAt_filter_same. cbn [suspendedAt].
  now rewrite Nat.eqb_refl.
Qed.

Lemma suspendedAt_moveTo_other (k k' : nat) (p : option Suspended)
    (w : list (nat * Suspended)) :
  k' <> k -> suspendedAt k' (moveTo k p w) = suspendedAt k' w.
Proof.
  intros N. unfold moveTo. destruct p as [p |];
    [| now apply suspendedAt_filter_other].
  rewrite suspendedAt_app, suspendedAt_filter_other by exact N.
  destruct (suspendedAt k' w); [reflexivity |].
  cbn [suspendedAt]. destruct (k =? k')%nat eqn:E; [| reflexivity].
  apply Nat.eqb_eq in E. congruence.
Qed.

(** What [updateJob] does to the table. *)
Lemma updateJob_table (k : nat) (u : Updates) (q : Queue) :
  List.NoDup (List.map fst (jobs q)) ->
  List.NoDup (List.map fst (jobs (updateJob k u q)))
  /\ jobIdCounter (updateJob k u q) = jobIdCounter q
  /\ forall k' j', In (k', j') (jobs (updateJob k u q)) ->
        (k' = k /\ exists j, In (k, j) (jobs q) /\ j' = spread j u)
        \/ (k' <> k /\ In (k', j') (jobs q)).
Proof.
  intros U. unfold updateJob.
  destruct (mapGet k (jobs q)) as [j |] eqn:G.
  - apply (JobQueueFacts.mapGet_In _ _ _ U) in G. cbn [jobs jobIdCounter].
    split; [now apply JobQueueFacts.mapSet_NoDup |]. split; [reflexivity |].
    intros k' j' H. apply (JobQueueFacts.mapSet_In _ _ _ _ _ U) in H.
    destruct H as [[-> ->] | H]; [left | now right].
    split; [reflexivity |]. now exists j.
  - split; [exact U |]. split; [reflexivity |].
    intros k' j' H. right. split; [| exact H].
    intros ->. apply (JobQueueFacts.mapGet_In _ _ _ U) in H. congruence.
Qed.

(** An update of job [k] keeps the invariant when it keeps the record of
    that job in line with the place its call moves to. *)
Lemma consistent_update (sv : Server) (k : nat) (u : Updates)
    (w' : list (nat * Suspended)) :
  consistent sv ->
  (forall k', k' <> k -> suspendedAt k' w' = suspendedAt k' (waiting sv)) ->
  suspendedAt k (waiting sv) <> None ->
  (forall j, wellFormed j -> agrees (suspendedAt k (waiting sv)) j ->
             wellFormed (spread j u) /\ agrees (suspendedAt k w') (spread j u)) ->
  consistent {| queue := updateJob k u (queue sv); waiting := w' |}.
Proof.
  intros (U & I & W) Other Here Keep. unfold consistent. cbn [queue waiting].
  destruct (updateJob_table k u (queue sv) U) as (U' & C' & T').
  rewrite C'. split; [exact U' |]. split.
  - intros k' j' H. destruct (T' k' j' H) as [[-> (j & Hj & ->)] | [N Hj]].
    + destruct (I k j Hj) as (Ij & Le & Wf & Ag).
      destruct (Keep j Wf Ag) as [Wf' Ag'].
      split; [exact Ij | split; [exact Le | split; [exact Wf' | exact Ag']]].
    + destruct (I k' j' Hj) as (Ij & Le & Wf & Ag).
      rewrite (Other k' N).
      split; [exact Ij | split; [exact Le | split; [exact Wf | exact Ag]]].
  - intros k' H. destruct (Nat.eq_dec k' k) as [-> | N]; [now apply W |].
    apply W. now rewrite <- (Other k' N).
Qed.

Lemma consistent_submit (sv : Server) (t : JobType) (s : Settings)
    (q1 : Queue) (w' : list (nat * Suspended)) :
  consistent sv ->
  jobs q1 = mapSet (S (jobIdCounter (queue sv)))
              (fst (createJob t s (queue sv))) (jobs (queue sv)) ->
  jobIdCounter q1 = S (jobIdCounter (queue sv)) ->
  (w' = waiting sv
   \/ w' = moveTo (S (jobIdCounter (queue sv))) (Some AtStartLog) (waiting sv)) ->
  consistent {| queue := cleanupJobs q1; waiting := w' |}.
Proof.
  intros (U & I & W) J N Hw.
  set (n := S (jobIdCounter (queue sv))) in *.
  assert (Fresh : suspendedAt n (waiting sv) = None).
  { destruct (suspendedAt n (waiting sv)) eqn:E; [| reflexivity].
    assert (n <= jobIdCounter (queue sv))%nat by (apply W; congruence).
    unfold n in *. lia. }
  assert (U1 : List.NoDup (List.map fst (jobs q1)))
    by (rewrite J; now apply JobQueueFacts.mapSet_NoDup).
  assert (I1 : forall k j, In (k, j) (jobs q1) ->
            job_id j = k /\ (k <= n)%nat /\ wellFormed j
            /\ agrees (suspendedAt k w') j).
  { intros k j H. rewrite J in H.
    apply (JobQueueFacts.mapSet_In _ _ _ _ _ U) in H.
    destruct H as [[-> ->] | [Ne H]].
    - split; [reflexivity |]. split; [lia |]. split.
      + unfold wellFormed. cbn. repeat split; lia.
      + destruct Hw as [-> | ->].
        * rewrite Fresh. now left.
        * now rewrite suspendedAt_moveTo_same.
    - destruct (I k j H) as (Ij & Le & Wf & Ag).
      split; [exact Ij |]. split; [unfold n; lia |]. split; [exact Wf |].
      destruct Hw as [-> | ->]; [exact Ag |].
      now rewrite suspendedAt_moveTo_other. }
  destruct (JobQueueFacts.cleanupJobs_spec q1 U1
              (fun k j H => proj1 (I1 k j H))) as (_ & Cn & U2 & Sub & _).
  unfold consistent. cbn [queue waiting]. rewrite Cn, N. fold n.
  split; [exact U2 |]. split.
  - intros k j H. apply I1. now apply Sub.
  - intros k H. destruct (Nat.eq_dec k n) as [-> | Ne]; [lia |].
    assert (H0 : suspendedAt k (waiting sv) <> None).
    { destruct Hw as [-> | ->]; [exact H |].
      now rewrite suspendedAt_moveTo_other in H. }
    specialize (W k H0). unfold n. lia.
Qed.

Lemma Some_eq {A : Type} (a b : A) : Some a = Some b -> a = b.
Proof. congruence. Qed.

Lemma consistent_step (sv sv' : Server) (e : Event) :
  consistent sv -> step sv e = Some sv' -> consistent sv'.
Proof.
  intros C St. destruct e as [t s | k now | k operation p total processed
                             | k now outcome | k]; cbn [step] in St.
  - (* a submission *)
    unfold POST, getCurrentJob in St.
    destruct (match currentJob (queue sv) with
              | Some c => if isRunning c then Some c else None
              | None => None
              end) as [c |] eqn:R.
    + apply Some_eq in St; subst sv'. destruct sv. exact C.
    + destruct (createJob t s (queue sv)) as [job q1] eqn:Cr.
      assert (Ej : job = fst (createJob t s (queue sv))) by (now rewrite Cr).
      assert (Eq : jobs q1 = mapSet (S (jobIdCounter (queue sv))) job
                               (jobs (queue sv))
                   /\ jobIdCounter q1 = S (jobIdCounter (queue sv))
                   /\ job_id job = S (jobIdCounter (queue sv))).
      { unfold createJob in Cr. injection Cr as <- <-. repeat split. }
      destruct Eq as (J & N & Id). rewrite Ej in J.
      destruct (processJob_enter job q1) as [q2 |] eqn:E.
      * apply Some_eq in St; subst sv'. rewrite Id.
        assert (Hq2 : jobs q2 = jobs q1 /\ jobIdCounter q2 = jobIdCounter q1).
        { unfold processJob_enter in E.
          destruct (currentJob q1) as [c |];
            [destruct (isRunning c); [discriminate E |] |];
            injection E as <-; split; reflexivity. }
        destruct Hq2 as [J2 N2].
        apply (consistent_submit sv t s); [exact C | congruence | congruence |].
        now right.
      * apply Some_eq in St; subst sv'.
        apply (consistent_submit sv t s); [exact C | exact J | exact N | now left].
  - (* the call is resumed and marks its job running *)
    destruct (suspendedAt k (waiting sv)) as [[| |] |] eqn:P; try discriminate St.
    apply Some_eq in St; subst sv'. unfold processJob_start.
    apply consistent_update; [exact C | | congruence |].
    + intros k' N. now apply suspendedAt_moveTo_other.
    + rewrite P, suspendedAt_moveTo_same. intros j (B & Wf) Ag. cbn in Ag.
      rewrite Ag in Wf. destruct Wf as (P0 & Sta & En).
      unfold wellFormed. cbn. rewrite En. repeat split; try lia; congruence.
  - (* a progress report *)
    destruct (suspendedAt k (waiting sv)) as [[| |] |] eqn:P; try discriminate St.
    apply Some_eq in St; subst sv'. unfold progressCallback.
    apply consistent_update; [exact C | reflexivity | congruence |].
    rewrite P. intros j (B & Wf) Ag. cbn in Ag. rewrite Ag in Wf.
    unfold wellFormed. cbn. rewrite Ag. split; [split; [lia | exact Wf] | reflexivity].
  - (* the pass settles *)
    destruct (suspendedAt k (waiting sv)) as [[| |] |] eqn:P; try discriminate St.
    apply Some_eq in St; subst sv'. unfold processJob_settle.
    destruct outcome as [r | m];
      (apply consistent_update; [exact C | | congruence |];
       [intros k' N; now apply suspendedAt_moveTo_other |]);
      rewrite P, suspendedAt_moveTo_same; intros j (B & Wf) Ag; cbn in Ag;
      rewrite Ag in Wf; destruct Wf as (Sta & En); unfold wellFormed; cbn.
    + repeat split; try lia; try congruence.
    + repeat split; try lia; try congruence.
  - (* the finally block *)
    destruct (suspendedAt k (waiting sv)) as [[| |] |] eqn:P; try discriminate St.
    apply Some_eq in St; subst sv'. destruct C as (U & I & W).
    unfold consistent, processJob_finally. cbn [queue waiting jobs jobIdCounter].
    split; [exact U |]. split.
    + intros k' j H. destruct (I k' j H) as (Ij & Le & Wf & Ag).
      split; [exact Ij |]. split; [exact Le |]. split; [exact Wf |].
      destruct (Nat.eq_dec k' k) as [-> | N].
      * rewrite suspendedAt_moveTo_same. rewrite P in Ag. now right.
      * now rewrite suspendedAt_moveTo_other.
    + intros k' H. destruct (Nat.eq_dec k' k) as [-> | N].
      * apply W. congruence.
      * apply W. now rewrite suspendedAt_moveTo_other in H.
Qed.

Lemma consistent_run (events : list Event) : forall sv sv',
  consistent sv -> run sv events = Some sv' -> consistent sv'.
Proof.
  induction events as [| e rest IH]; intros sv sv' C R; cbn [run] in R.
  - now injection R as <-.
  - destruct (step sv e) as [sv1 |] eqn:S; [| discriminate R].
    exact (IH sv1 sv' (consistent_step sv sv1 e C S) R).
Qed.

Lemma initial_consistent : consistent initial.
Proof.
  unfold consistent, initial. cbn. split; [constructor |].
  split; [intros k j [] | intros k H; congruence].
Qed.

(** X21.  In every state that the server reaches, however the stretches of
    its handlers interleave, the keys of the job table are the distinct ids
    of its jobs and every job is well formed: its progress is between 0 and
    100; a pending job has progress 0 and no start time; a running job has
    a start time and no end time; a completed job has progress 100, a
    result and both times; a failed job has an error message and both
    times. *)
Theorem every_job_is_well_formed (events : list Event) (sv : Server) :
  run initial events = Some sv ->
  List.NoDup (List.map fst (jobs (queue sv)))
  /\ forall k j, In (k, j) (jobs (queue sv)) -> job_id j = k /\ wellFormed j.
Proof.
  intros R. destruct (consistent_run events initial sv initial_consistent R)
    as (U & I & _).
  split; [exact U |]. intros k j H. destruct (I k j H) as (Ij & _ & Wf & _).
  now split.
Qed.

Lemma well_formed_witness :
  exists sv,
    run initial Scenarios.twoSubmissions = Some sv
    /\ List.NoDup (List.map fst (jobs (queue sv)))
    /\ forall k j, In (k, j) (jobs (queue sv)) -> job_id j = k /\ wellFormed j.
Proof.
  eexists. split; [reflexivity |].
  apply (every_job_is_well_formed Scenarios.twoSubmissions). reflexivity.
Defined.

End JobTableFacts.

(** ** Classification by the AI provider *)

Module AiClassifierFacts.
Import Classifier AiClassifier.

Lemma confidenceOf_bounds (value : option JSON) :
  (0 <= confidenceOf value)%Q /\ (confidenceOf value <= 1)%Q.
Proof.
  destruct value as [[| b | q | s | l | f] |]; cbn [confidenceOf];
    try (split; discriminate).
  split; [apply Q.le_max_l |].
  apply Q.max_lub; [discriminate | apply Q.le_min_l].
Qed.

Lemma keywordConfidence_bounds (n : nat) :
  (3 # 10 <= keywordConfidence n)%Q /\ (keywordConfidence n <= 8 # 10)%Q.
Proof.
  unfold keywordConfidence. split; [| apply Q.le_min_l].
  apply Q.min_glb; [discriminate |].
  assert (H : (0 <= inject_Z (Z.of_nat n) * (1 # 10))%Q).
  { apply Qmult_le_0_compat; [| discriminate].
    change 0%Q with (inject_Z 0). rewrite <- Zle_Qle. lia. }
  lra.
Qed.

Lemma classifyByKeywords_bounds (email : Email) (settings : Settings) :
  (3 # 10 <= cr_confidence (classifyByKeywords email settings))%Q
  /\ (cr_confidence (classifyByKeywords email settings) <= 8 # 10)%Q.
Proof.
  unfold classifyByKeywords. cbv zeta.
  destruct (_ && _); [apply keywordConfidence_bounds |].
  destruct (_ && _); [apply keywordConfidence_bounds |].
  cbn. split; discriminate.
Qed.

Section Provider.

Variable JSON_parse : string -> Result JSON.
Variable render : JSON -> string.
Variable generateGoogle : Email -> Settings -> Result (option string).
Variable generateOllama : Email -> Settings -> Result (option string).

#[local] Abbreviation parse := (parseAIResponse JSON_parse render).
#[local] Abbreviation withAI :=
  (classifyWithAI JSON_parse render generateGoogle generateOllama).

Lemma parse_bounds (response : string) :
  (0 <= cr_confidence (parse response))%Q
  /\ (cr_confidence (parse response) <= 1)%Q
  /\ (forall m, parseAIResponse_try JSON_parse render response = Throw m ->
                cr_confidence (parse response) = 6 # 10
                \/ cr_confidence (parse response) = 3 # 10).
Proof.
  unfold parseAIResponse.
  destruct (parseAIResponse_try JSON_parse render response) as [r | m] eqn:T.
  - assert (B : (0 <= cr_confidence r)%Q /\ (cr_confidence r <= 1)%Q).
    { unfold parseAIResponse_try in T. cbv zeta in T.
      destruct (JSON_parse _) as [parsed |]; [| discriminate T]. cbn [bindR] in T.
      destruct (Extractor.getField parsed "type") as [tf |]; [| discriminate T].
      cbn [bindR] in T. destruct (typeNamed tf); [| discriminate T].
      destruct (Extractor.getField parsed "confidence") as [cf |];
        [| discriminate T]. cbn [bindR] in T.
      destruct (Extractor.getField parsed "reasoning") as [rf |];
        [| discriminate T]. cbn [bindR] in T.
      injection T as <-. apply confidenceOf_bounds. }
    destruct B. repeat split; try assumption. intros m' C. discriminate C.
  - unfold guessFromText. cbv zeta.
    destruct (_ && _); [cbn; repeat split; try discriminate; intros; now left |].
    destruct (_ || _); cbn; repeat split; try discriminate; intros;
      [now left | now right].
Qed.

(** X22.  [parseAIResponse] answers for every reply, whatever [JSON.parse]
    makes of it, with a confidence between 0 and 1; when the reply cannot
    be read as a classification the confidence is 0.6 or 0.3. *)
Theorem parseAIResponse_confidence_is_bounded (response : string) :
  (0 <= cr_confidence (parse response))%Q
  /\ (cr_confidence (parse response) <= 1)%Q
  /\ match parseAIResponse_try JSON_parse render response with
     | Ok r => parse response = r
     | Throw _ => cr_confidence (parse response) = 6 # 10
                  \/ cr_confidence (parse response) = 3 # 10
     end.
Proof.
  destruct (parse_bounds response) as (A & B & C).
  split; [exact A |]. split; [exact B |].
  destruct (parseAIResponse_try JSON_parse render response) as [r | m] eqn:T.
  - unfold parseAIResponse. now rewrite T.
  - now apply (C m).
Qed.

Lemma classifyWithAI_bounds (email : Email) (settings : Settings) :
  (0 <= cr_confidence (withAI email settings))%Q
  /\ (cr_confidence (withAI email settings) <= 1)%Q.
Proof.
  assert (P : forall text, (0 <= cr_confidence (parse text))%Q
                           /\ (cr_confidence (parse text) <= 1)%Q).
  { intros text. destruct (parse_bounds text) as (A & B & _). now split. }
  unfold classifyWithAI, callProvider, classifyWithGoogleAI, classifyWithOllama.
  destruct (aiProvider settings) as [| | name].
  - destruct (Extractor.orUndefined (googleApiKey settings));
      [| cbn; split; discriminate].
    destruct (generateGoogle email settings) as [reply |];
      [| cbn; split; discriminate]. cbn [bindR].
    destruct (Extractor.orUndefined reply); [apply P | cbn; split; discriminate].
  - destruct (generateOllama email settings) as [reply |];
      [| cbn; split; discriminate]. cbn [bindR].
    destruct (Extractor.orUndefined reply); [apply P | cbn; split; discriminate].
  - cbn; split; discriminate.
Qed.

Lemma Qgtb_false (a b : Q) : (a <= b)%Q -> Qgtb a b = false.
Proof.
  intros H. unfold Qgtb. apply negb_false_iff. now apply Qle_bool_iff.
Qed.

Lemma Qgtb_true (a b : Q) : Qgtb a b = true -> (b <= a)%Q.
Proof.
  unfold Qgtb. intros H. apply negb_true_iff in H.
  destruct (Qlt_le_dec b a) as [L | L]; [now apply Qlt_le_weak |].
  apply Qle_bool_iff in L. congruence.
Qed.

(** X23.  [classifyEmail] always resolves, and the confidence of its answer
    is between 0 and 1, whatever the provider and [JSON.parse] return. *)
Theorem classifyEmail_confidence_is_a_probability (email : Email)
    (settings : Settings) :
  exists r,
    classifyEmail JSON_parse render generateGoogle generateOllama email settings
    = Ok r
    /\ (0 <= cr_confidence r)%Q /\ (cr_confidence r <= 1)%Q.
Proof.
  unfold classifyEmail, Classifier.classifyEmail, classifyEmail_try.
  destruct (classifyByKeywords_bounds email settings) as [K0 K1].
  destruct (classifyWithAI_bounds email settings) as [A0 A1].
  destruct (isWeTransferEmail email).
  - eexists. split; [reflexivity |]. cbn. split; discriminate.
  - cbv zeta. destruct (Qgtb _ (7 # 10)).
    + eexists. split; [reflexivity |]. split; lra.
    + destruct (useAiProcessing settings).
      * destruct (Qgtb _ _); eexists; (split; [reflexivity |]); split;
          assumption || lra.
      * eexists. split; [reflexivity |]. split; lra.
Qed.

(** X24.  When the call of the provider fails, for whatever reason,
    [classifyEmail] answers what it answers with AI processing switched
    off: the failure counts as confidence 0, which never beats the keyword
    stage. *)
Theorem provider_failure_keeps_the_keyword_result (email : Email)
    (settings : Settings) (errorMessage : string) :
  callProvider JSON_parse render generateGoogle generateOllama email settings
  = Throw errorMessage ->
  classifyEmail JSON_parse render generateGoogle generateOllama email settings
  = Ok (if isWeTransferEmail email
        then {| cr_type := order; cr_confidence := 95 # 100;
                cr_reasoning :=
                  "WeTransfer email automatically classified as order" |}
        else classifyByKeywords email settings).
Proof.
  intros F.
  unfold classifyEmail, Classifier.classifyEmail, classifyEmail_try.
  destruct (isWeTransferEmail email); [reflexivity |]. cbv zeta.
  destruct (Qgtb _ (7 # 10)); [reflexivity |].
  destruct (useAiProcessing settings); [| reflexivity].
  unfold classifyWithAI. rewrite F. cbn [cr_confidence].
  rewrite Qgtb_false; [reflexivity |].
  destruct (classifyByKeywords_bounds email settings) as [K0 _]. lra.
Qed.

End Provider.

Lemma provider_failure_witness :
  callProvider Scenarios.noJson Scenarios.plainRender Scenarios.noReply
    Scenarios.noReply Scenarios.quoteMail Scenarios.aiSettings
  = Throw "fetch failed"
  /\ classifyEmail Scenarios.noJson Scenarios.plainRender Scenarios.noReply
       Scenarios.noReply Scenarios.quoteMail Scenarios.aiSettings
     = Ok (classifyByKeywords Scenarios.quoteMail Scenarios.aiSettings).
Proof.
  split; [reflexivity |].
  exact (provider_failure_keeps_the_keyword_result Scenarios.noJson
           Scenarios.plainRender Scenarios.noReply Scenarios.noReply
           Scenarios.quoteMail Scenarios.aiSettings "fetch failed" eq_refl).
Defined.

(** X25.  For mail that is not a WeTransfer notice, [classifyEmail] answers
    with the keyword result or with the result of the provider, and never
    with less confidence than the keyword stage has; the provider is left
    out when AI processing is off or the keyword confidence is above 0.7. *)
Theorem classifyEmail_never_lowers_the_keyword_confidence
    (classifyWithAI : Email -> Settings -> ClassificationResult)
    (email : Email) (settings : Settings) :
  let keywordResult := classifyByKeywords email settings in
  if isWeTransferEmail email then
    exists r, Classifier.classifyEmail classifyWithAI email settings = Ok r
              /\ cr_type r = order /\ cr_confidence r = 95 # 100
  else
    exists r,
      Classifier.classifyEmail classifyWithAI email settings = Ok r
      /\ (r = keywordResult \/ r = classifyWithAI email settings)
      /\ (cr_confidence keywordResult <= cr_confidence r)%Q
      /\ (useAiProcessing settings = false
          \/ Qgtb (cr_confidence keywordResult) (7 # 10) = true ->
          r = keywordResult).
Proof.
  cbv zeta. unfold Classifier.classifyEmail, classifyEmail_try.
  destruct (isWeTransferEmail email).
  - eexists. split; [reflexivity |]. split; reflexivity.
  - cbv zeta. destruct (Qgtb _ (7 # 10)) eqn:G.
    + eexists. split; [reflexivity |]. split; [now left |].
      split; [apply Qle_refl | reflexivity].
    + destruct (useAiProcessing settings) eqn:U.
      * destruct (Qgtb (cr_confidence (classifyWithAI email settings)) _) eqn:B;
          eexists; (split; [reflexivity |]).
        -- split; [now right |]. split; [now apply Qgtb_true |].
           intros [C | C]; discriminate C.
        -- split; [now left |]. split; [apply Qle_refl | reflexivity].
      * eexists. split; [reflexivity |]. split; [now left |].
        split; [apply Qle_refl | reflexivity].
Qed.

(** X26.  The keyword stage decides alone, with a confidence above 0.7,
    exactly when one keyword list has strictly more hits than the other
    and at least five. *)
Theorem keyword_stage_decides_from_five_hits (email : Email) (settings : Settings) :
  let content := content_of email in
  let o := score content (keywordList (orderKeywords settings)) in
  let e := score content (keywordList (estimateKeywords settings)) in
  Qgtb (cr_confidence (classifyByKeywords email settings)) (7 # 10) = true
  <-> o <> e /\ (5 <= Nat.max o e)%nat.
Proof.
  cbv zeta.
  assert (K : forall n, Qgtb (keywordConfidence n) (7 # 10) = true <-> (5 <= n)%nat).
  { intros n. split.
    - intros H. destruct (le_lt_dec 5 n) as [L | L]; [exact L | exfalso].
      assert (C : (n = 0 \/ n = 1 \/ n = 2 \/ n = 3 \/ n = 4)%nat) by lia.
      destruct C as [-> | [-> | [-> | [-> | ->]]]]; vm_compute in H; discriminate H.
    - intros L. unfold Qgtb. apply negb_true_iff.
      destruct (Qle_bool _ _) eqn:C; [| reflexivity]. exfalso.
      apply Qle_bool_iff in C. unfold keywordConfidence in C.
      assert (M : (8 # 10 <= Qmin (8 # 10)
                        ((3 # 10) + inject_Z (Z.of_nat n) * (1 # 10)))%Q).
      { apply Q.min_glb; [apply Qle_refl |].
        assert (H : (inject_Z 5 <= inject_Z (Z.of_nat n))%Q)
          by (rewrite <- Zle_Qle; lia).
        change (inject_Z 5) with 5%Q in H. lra. }
      lra. }
  destruct (ClassifierFacts.classifyByKeywords_cases email settings)
    as (Ho & He & Hx). cbv zeta in Ho, He, Hx.
  set (o := score _ (keywordList (orderKeywords settings))) in *.
  set (e := score _ (keywordList (estimateKeywords settings))) in *.
  destruct (lt_eq_lt_dec o e) as [[L | E] | L].
  - destruct (He L) as [_ ->]. rewrite K. split; [lia | intros [_ H]; lia].
  - destruct (Hx E) as [_ ->]. split; [intros H; vm_compute in H; discriminate H |].
    intros [N _]. contradiction.
  - destruct (Ho L) as [_ ->]. rewrite K. split; [lia | intros [_ H]; lia].
Qed.

End AiClassifierFacts.

(** ** The mailbox pass: what is counted and what is stored *)

Module PassFacts.
Import RuleMatcher Pipeline PassRecord.

Section Pass.

Variable classifyWithAI : Email -> Settings -> ClassificationResult.
Variable getRules : Result (list Rule).
Variable now : string.
Variable settings : Settings.

#[local] Abbreviation classify := (classifyMessage classifyWithAI getRules now settings).
#[local] Abbreviation loop := (runLoop classifyWithAI getRules now settings).
#[local] Abbreviation skipped := (isSkipped classifyWithAI getRules now settings).
#[local] Abbreviation thrown := (throws classifyWithAI getRules now settings).

Lemma classify_tidy (message : FetchedMessage) (e : Email) :
  classify message = Ok (Some e) -> tidy e.
Proof.
  unfold classifyMessage.
  destruct (simpleParser message) as [p | m]; cbn [bindR]; [| discriminate].
  destruct (isWeTransferEmail _).
  - intros [= <-]. unfold tidy. cbn.
    split; [now left |]. split; [discriminate |]. split; [reflexivity |].
    eexists. split; reflexivity.
  - unfold processEmailClassification, processEmailClassification_try.
    destruct (RuleMatcherFacts.checkWhitelistStatus_resolves getRules
                (emailOfParsed now settings p) settings) as [route ->].
    destruct (PipelineFacts.classifyEmail_resolves classifyWithAI settings
                (emailOfParsed now settings p)) as [cr Hcr].
    destruct route; cbn [bindR try_catch]; try rewrite Hcr;
      cbn [bindR try_catch]; intros [= <-]; unfold tidy; cbn.
    + split; [now left |]. split; [discriminate |]. split; [reflexivity |].
      eexists. split; reflexivity.
    + split; [now right |]. split; [discriminate |]. split; [reflexivity |].
      eexists. split; reflexivity.
Qed.

Lemma tidy_withId (newId : string) (e : Email) : tidy e -> tidy (withId newId e).
Proof. intros H. exact H. Qed.

Lemma loop_growth (messages : list FetchedMessage) : forall st : LoopState,
  exists added,
    store (loop messages st)
    = {| emails := emails (store st) ++ added;
         idCounter := (idCounter (store st) + length added)%nat |}
    /\ count (loop messages st) = (count st + length added)%nat
    /\ List.Forall tidy added.
Proof.
  induction messages as [| message rest IH]; intros st.
  - exists []. cbn. rewrite app_nil_r, !Nat.add_0_r.
    destruct (store st). repeat split. constructor.
  - change (loop (message :: rest) st)
      with (loop rest (iteration classifyWithAI getRules now settings st message)).
    destruct (IH (iteration classifyWithAI getRules now settings st message))
      as (added & Hs & C & T).
    unfold iteration in *.
    destruct (classify message) as [[e |] | m] eqn:K.
    + cbn [addEmail store count] in *.
      exists (withId (JS.showNat (S (idCounter (store st)))) e :: added).
      rewrite Hs, C. cbn [emails idCounter length].
      rewrite <- app_assoc. cbn [app].
      split; [f_equal; lia |]. split; [lia |].
      constructor; [| exact T]. apply tidy_withId.
      now apply (classify_tidy message).
    + exists added. cbn [store count] in *. now rewrite Hs, C.
    + exists added. cbn [store count] in *. now rewrite Hs, C.
Qed.

Lemma errorsFrom_length (messages : list FetchedMessage) : forall n,
  length (errorsFrom classifyWithAI getRules now settings n messages)
  = length (List.filter thrown messages).
Proof.
  induction messages as [| message rest IH]; intros n; [reflexivity |].
  cbn [errorsFrom List.filter]. unfold throws at 1.
  destruct (classify message) as [[e |] | m]; cbn [length]; now rewrite IH.
Qed.

End Pass.

(** X27.  A pass of [processEmails] over fetched messages accounts for
    every message: it is counted as processed, skipped, or reported in
    [errors], never two of these.  The table grows at its end by exactly
    the processed e-mails, and what was stored before stays as it was. *)
Theorem processEmails_accounts_for_every_message
    (classifyWithAI : Email -> Settings -> ClassificationResult)
    (getRules : Result (list Rule)) (now : string) (settings : Settings)
    (messages : list FetchedMessage) (db : DataStore) :
  exists r added,
    processEmails classifyWithAI getRules now settings (Ok messages) db
    = (Ok r, {| emails := emails db ++ added;
                idCounter := (idCounter db + processedCount r)%nat |})
    /\ length added = processedCount r
    /\ length (errors r)
       = length (List.filter (throws classifyWithAI getRules now settings) messages)
    /\ (processedCount r
        + length (List.filter (isSkipped classifyWithAI getRules now settings)
                              messages)
        + length (errors r))%nat
       = length messages.
Proof.
  unfold processEmails.
  set (st0 := {| store := db; count := 0; errs := []; messageCount := 0 |}).
  destruct (loop_growth classifyWithAI getRules now settings messages st0)
    as (added & Hs & C & _).
  destruct (PipelineFacts.runLoop_spec classifyWithAI getRules now settings
              messages st0) as (Cs & E & _).
  cbv zeta in Cs, E. cbn [count errs messageCount store st0] in *.
  exists {| processedCount :=
              count (runLoop classifyWithAI getRules now settings messages st0);
            errors :=
              errs (runLoop classifyWithAI getRules now settings messages st0) |}.
  exists added. rewrite Hs. cbn [processedCount errors].
  assert (L : length (errs (runLoop classifyWithAI getRules now settings messages st0))
              = length (List.filter (throws classifyWithAI getRules now settings)
                                    messages))
    by (rewrite E; apply errorsFrom_length).
  split; [rewrite C; reflexivity |]. split; [lia |]. split; [exact L |].
  pose proof (PipelineFacts.outcome_partition classifyWithAI getRules now settings
                messages) as P.
  rewrite L, Cs. lia.
Qed.

(** X28.  Every e-mail that a pass of [processEmails] stores is classified
    inbox or unsorted, carries a content classification, has status
    processed and a sender address extracted from its from field: the
    error record of [processEmailClassification] (status error) is never
    stored, because neither the rule matcher nor the classifier rejects. *)
Theorem processEmails_stores_classified_mail
    (classifyWithAI : Email -> Settings -> ClassificationResult)
    (getRules : Result (list Rule)) (now : string) (settings : Settings)
    (fetched : Result (list FetchedMessage)) (db : DataStore) :
  exists added,
    emails (snd (processEmails classifyWithAI getRules now settings fetched db))
    = emails db ++ added
    /\ List.Forall
         (fun e =>
            (classification e = cls_inbox \/ classification e = cls_unsorted)
            /\ parsed e <> None
            /\ status e = st_processed
            /\ senderEmail e = Some (extractEmailAddress (from e)))
         added.
Proof.
  unfold processEmails. destruct fetched as [messages | m].
  - destruct (loop_growth classifyWithAI getRules now settings messages
                {| store := db; count := 0; errs := []; messageCount := 0 |})
      as (added & Hs & _ & T).
    exists added. cbn [snd]. rewrite Hs. cbn [emails store].
    split; [reflexivity |].
    eapply List.Forall_impl; [| exact T].
    intros e (A & B & C & fromText & <- & D). repeat split; assumption.
  - exists []. cbn [snd]. rewrite app_nil_r. split; [reflexivity | constructor].
Qed.

End PassFacts.

(** ** Structured extractor: the text around the reply, and what a
       result tells *)

Module ReplyFacts.
Import Extractor.

Lemma includes_char_cons (x c : ascii) (s : string) :
  JS.includes (String x s) (String c EmptyString)
  = Ascii.eqb c x || JS.includes s (String c EmptyString).
Proof.
  cbn [JS.includes JS.startsWith]. now rewrite ArchiverFacts.startsWith_nil, andb_true_r.
Qed.

Lemma trimStart_app (pre rest : string) (c : ascii) :
  JS.is_space c = false ->
  JS.trimStart (pre +:+ String c rest) = JS.trimStart pre +:+ String c rest.
Proof.
  intros N. induction pre as [| x pre IH].
  - rewrite ArchiverFacts.append_nil. cbn [JS.trimStart]. now rewrite N.
  - rewrite ArchiverFacts.append_cons. cbn [JS.trimStart].
    destruct (JS.is_space x); [exact IH | reflexivity].
Qed.

Lemma trimStart_excludes (s : string) (c : ascii) :
  JS.includes s (String c EmptyString) = false ->
  JS.includes (JS.trimStart s) (String c EmptyString) = false.
Proof.
  induction s as [| x s IH]; [trivial |]. intros H. cbn [JS.trimStart].
  destruct (JS.is_space x); [| exact H].
  rewrite includes_char_cons in H. apply orb_false_iff in H as [_ H]. now apply IH.
Qed.

Lemma all_space_app (a rest : string) (c : ascii) :
  JS.is_space c = false -> JS.all_space (a +:+ String c rest) = false.
Proof.
  intros N. induction a as [| x a IH].
  - rewrite ArchiverFacts.append_nil. cbn [JS.all_space]. now rewrite N.
  - rewrite ArchiverFacts.append_cons. cbn [JS.all_space]. rewrite IH.
    apply andb_false_r.
Qed.

Lemma trimEnd_app (a post : string) (c : ascii) :
  JS.is_space c = false ->
  JS.trimEnd (a +:+ String c post) = a +:+ String c (JS.trimEnd post).
Proof.
  intros N. induction a as [| x a IH].
  - rewrite !ArchiverFacts.append_nil. cbn [JS.trimEnd JS.all_space].
    now rewrite N.
  - rewrite !ArchiverFacts.append_cons. cbn [JS.trimEnd JS.all_space].
    rewrite all_space_app by exact N. now rewrite andb_false_r, IH.
Qed.

Lemma trimEnd_excludes (s : string) (c : ascii) :
  JS.includes s (String c EmptyString) = false ->
  JS.includes (JS.trimEnd s) (String c EmptyString) = false.
Proof.
  induction s as [| x s IH]; [trivial |]. intros H. cbn [JS.trimEnd].
  destruct (JS.all_space (String x s)); [reflexivity |].
  rewrite includes_char_cons in *. apply orb_false_iff in H as [E H].
  now rewrite E, IH.
Qed.

Lemma fromFirstBrace_app (pre rest : string) :
  JS.includes pre "{" = false ->
  fromFirstBrace (pre +:+ String "{" rest) = Some (String "{" rest).
Proof.
  induction pre as [| x pre IH]; intros H.
  - reflexivity.
  - rewrite ArchiverFacts.append_cons. cbn [fromFirstBrace].
    rewrite includes_char_cons in H. apply orb_false_iff in H as [E H].
    rewrite Ascii.eqb_sym in E. rewrite E. now apply IH.
Qed.

Lemma throughLastBrace_none (s : string) :
  JS.includes s "}" = false -> throughLastBrace s = None.
Proof.
  induction s as [| x s IH]; intros H; [reflexivity |].
  rewrite includes_char_cons in H. apply orb_false_iff in H as [E H].
  cbn [throughLastBrace]. rewrite (IH H). rewrite Ascii.eqb_sym in E. now rewrite E.
Qed.

Lemma throughLastBrace_app (b post : string) :
  JS.includes post "}" = false ->
  throughLastBrace (b +:+ String "}" post) = Some (b +:+ "}").
Proof.
  intros H. induction b as [| x b IH].
  - rewrite !ArchiverFacts.append_nil. cbn [throughLastBrace].
    now rewrite (throughLastBrace_none post H).
  - rewrite !ArchiverFacts.append_cons. cbn [throughLastBrace]. now rewrite IH.
Qed.

Lemma matchBraces_in_prose (pre mid post : string) :
  JS.includes pre "{" = false -> JS.includes post "}" = false ->
  matchBraces (JS.trim (pre +:+ "{" +:+ mid +:+ "}" +:+ post))
  = Some ("{" +:+ mid +:+ "}").
Proof.
  intros Hpre Hpost. unfold JS.trim, matchBraces.
  change (pre +:+ "{" +:+ mid +:+ "}" +:+ post)
    with (pre +:+ String "{" (mid +:+ String "}" post)).
  rewrite trimStart_app by reflexivity.
  change (JS.trimStart pre +:+ String "{" (mid +:+ String "}" post))
    with (JS.trimStart pre +:+ (String "{" mid +:+ String "}" post)).
  rewrite <- ArchiverFacts.append_assoc.
  rewrite trimEnd_app by reflexivity.
  rewrite ArchiverFacts.append_assoc.
  change (String "{" mid +:+ String "}" (JS.trimEnd post))
    with (String "{" (mid +:+ String "}" (JS.trimEnd post))).
  rewrite fromFirstBrace_app by (now apply trimStart_excludes).
  change (String "{" (mid +:+ String "}" (JS.trimEnd post)))
    with (String "{" mid +:+ String "}" (JS.trimEnd post)).
  rewrite throughLastBrace_app by (now apply trimEnd_excludes).
  reflexivity.
Qed.

(** X29.  Text before and after the JSON object of a reply is ignored: when
    the text before holds no opening brace and the text after no closing
    brace, both reply parsers hand exactly the object to [JSON.parse], and
    [parseAIParsingResponse] answers as for the object alone. *)
Theorem reply_parsers_ignore_the_prose_around_the_object
    (JSON_parse : string -> Result JSON) (pre mid post : string)
    (expectedType : TargetType) :
  JS.includes pre "{" = false -> JS.includes post "}" = false ->
  let object := "{" +:+ mid +:+ "}" in
  matchBraces (JS.trim (pre +:+ object +:+ post)) = Some object
  /\ parseAIParsingResponse JSON_parse (pre +:+ object +:+ post) expectedType
     = parseAIParsingResponse JSON_parse object expectedType.
Proof.
  intros Hpre Hpost object.
  assert (A : matchBraces (JS.trim (pre +:+ object +:+ post)) = Some object).
  { unfold object. rewrite !ArchiverFacts.append_assoc.
    now apply matchBraces_in_prose. }
  assert (B : matchBraces (JS.trim object) = Some object).
  { pose proof (matchBraces_in_prose EmptyString mid EmptyString eq_refl eq_refl) as H.
    exact H. }
  split; [exact A |].
  unfold parseAIParsingResponse, parseAIParsingResponse_try. cbv zeta.
  now rewrite A, B.
Qed.

Lemma reply_in_prose_witness :
  JS.includes "Here is the order: " "{" = false
  /\ JS.includes " Let me know." "}" = false
  /\ matchBraces (JS.trim ("Here is the order: " +:+ ("{" +:+ "x" +:+ "}")
                           +:+ " Let me know."))
     = Some ("{" +:+ "x" +:+ "}").
Proof.
  split; [reflexivity |]. split; [reflexivity |].
  exact (proj1 (reply_parsers_ignore_the_prose_around_the_object
                  Scenarios.noJson "Here is the order: " "x" " Let me know."
                  for_order eq_refl eq_refl)).
Defined.

Lemma replyConfidence_floor (present required : nat) (bonus : bool) :
  (3 # 10 <= replyConfidence present required bonus)%Q.
Proof.
  unfold replyConfidence, completeness. cbv zeta.
  assert (R : (0 <= inject_Z (Z.of_nat present) / inject_Z (Z.of_nat required))%Q).
  { unfold Qdiv. apply Qmult_le_0_compat.
    - change 0%Q with (inject_Z 0). rewrite <- Zle_Qle. lia.
    - apply Qinv_le_0_compat. change 0%Q with (inject_Z 0).
      rewrite <- Zle_Qle. lia. }
  set (x := (inject_Z (Z.of_nat present) / inject_Z (Z.of_nat required))%Q) in *.
  assert (C : (3 # 10 <= Qmin (95 # 100) ((3 # 10) + x * (6 # 10)))%Q)
    by (apply Q.min_glb; [discriminate | lra]).
  eapply Qle_trans; [| apply Q.le_max_r].
  apply Q.min_glb; [discriminate |].
  destruct bonus; lra.
Qed.

Section Services.

Variable JSON_parse : string -> Result JSON.
Variable refetchEmailWithAttachments : Email -> Settings -> Result Email.
Variable generateGoogle : Email -> TargetType -> Result string.
Variable generateOllama : Email -> TargetType -> Result string.
Variable saveEmailWithFiles : Email -> Settings -> option JSON -> Result EmailFileData.
Variable saveParsedDataJson : string -> JSON -> TargetType -> Result string.

#[local] Abbreviation extract :=
  (parseEmailWithAI JSON_parse refetchEmailWithAttachments generateGoogle
     generateOllama saveEmailWithFiles saveParsedDataJson).

(** X30.  The result of [parseEmailWithAI] always has the type resolved
    from the e-mail, whatever type the reply names, and its confidence
    tells where it comes from: a parsed reply has confidence 0.3 or more,
    and anything below is the fallback record, whose confidence is 0.1. *)
Theorem extraction_result_tells_its_origin (email : Email) (settings : Settings)
    (saveFiles : bool) :
  exists r,
    extract email settings saveFiles = Ok r
    /\ type r = resolveType email
    /\ ((exists errorMessage, r = fallbackRecord email errorMessage)
        \/ ((3 # 10 <= confidence r)%Q /\ exists parsed, data r = FromReply parsed)).
Proof.
  unfold parseEmailWithAI.
  destruct (parseEmailWithAI_try JSON_parse refetchEmailWithAttachments
              generateGoogle generateOllama saveEmailWithFiles saveParsedDataJson
              email settings saveFiles) as [r | m] eqn:T; cbn [try_catch].
  - exists r. split; [reflexivity |].
    destruct (ExtractorFacts.extract_try_ok _ _ _ _ _ _ _ _ _ _ T)
      as (response & d & _ & P & Ty & Da & Co & _).
    destruct (ExtractorFacts.parseAIParsingResponse_ok _ _ _ _ P)
      as (fields & bonus & _ & Rt & Rc).
    split; [congruence |]. right. split.
    + rewrite Co, Rc. apply replyConfidence_floor.
    + eexists. exact Da.
  - eexists. split; [reflexivity |]. split; [reflexivity |]. left. now exists m.
Qed.

End Services.

End ReplyFacts.
